(** * mathagent frontend (frontend/src/App.js): a shallow embedding

    The React component tree of [App.js] is modelled as a transition
    system.  Component state is a record per component, every [async]
    handler is a term of a small free monad whose operations are the
    state setters, [console.error] and [await] on axios requests, and
    the browser (user input, network replies, the interval timer,
    unmounting) is the environment that feeds events to [step].

    Conventions of the model:
    - a handler runs up to its next [await]; the requests it issued get
      fresh ids and its continuation waits in [jobs] until [Settle]
      events answer them, in any order and interleaved with any other
      event;
    - the state updates of one such run are rendered together
      ([reconcile]); [SolutionDisplay] is mounted and unmounted by the
      conditions of lines 454 and 463, and a state update addressed to an
      instance that is gone, or to [App] after unmounting, is dropped;
    - a control takes an event only when it is rendered and enabled;
    - [setInterval] runs on a virtual clock that advances by [Tick]
      events of one millisecond;
    - JS numbers are rationals, strings are sequences of UTF-16 code
      units, objects are association lists in insertion order with
      own-property lookup;
    - rendering is modelled as far as it decides which controls exist,
      and for the guardrail panel; a render that throws is not followed
      further. *)

From Stdlib Require Import List String Ascii Bool Arith ZArith NArith QArith Lia.
Import ListNotations.

Set Warnings "-register-all".

Local Open Scope string_scope.
Local Open Scope list_scope.

(** ** JavaScript values *)

Module JS.

(** A JS string is a sequence of UTF-16 code units. *)
Definition jsstring := list N.

(** An ASCII literal as a JS string. *)
Definition str (s : string) : jsstring :=
  map N_of_ascii (list_ascii_of_string s).

(** Objects keep their properties in insertion order; property names
    of the program are ASCII identifiers. *)
Inductive value : Type :=
| VUndefined
| VNull
| VBool (b : bool)
| VNum (q : Q)
| VStr (s : jsstring)
| VArr (items : list value)
| VObj (fields : list (string * value)).

(** ToBoolean. *)
Definition truthy (v : value) : bool :=
  match v with
  | VUndefined | VNull => false
  | VBool b => b
  | VNum q => negb (Qeq_bool q 0)
  | VStr s => match s with [] => false | _ :: _ => true end
  | VArr _ | VObj _ => true
  end.

Fixpoint lookup (k : string) (fields : list (string * value)) : option value :=
  match fields with
  | [] => None
  | (k', v) :: rest => if String.eqb k k' then Some v else lookup k rest
  end.

(** [v.k] for an own property [k]: a TypeError ([None]) on [undefined]
    and [null], [undefined] when the property is missing. *)
Definition get_member (v : value) (k : string) : option value :=
  match v with
  | VUndefined | VNull => None
  | VObj fields =>
      Some (match lookup k fields with Some x => x | None => VUndefined end)
  | _ => Some VUndefined
  end.

(** [{...o, k: v}] on the properties of [o]: an existing key keeps its
    place, a new key goes last. *)
Fixpoint obj_set (k : string) (v : value) (fields : list (string * value))
  : list (string * value) :=
  match fields with
  | [] => [(k, v)]
  | (k', v') :: rest =>
      if String.eqb k k' then (k', v) :: rest
      else (k', v') :: obj_set k v rest
  end.

(** WhiteSpace and LineTerminator code points of ECMAScript, the ones
    [String.prototype.trim] strips. *)
Definition isWhiteSpace (c : N) : bool :=
  ((9 <=? c) && (c <=? 13)          (* TAB LF VT FF CR *)
   || (c =? 32) || (c =? 160)       (* SP NBSP *)
   || (c =? 5760)                   (* U+1680 *)
   || ((8192 <=? c) && (c <=? 8202))  (* U+2000 .. U+200A *)
   || (c =? 8232) || (c =? 8233)    (* LS PS *)
   || (c =? 8239) || (c =? 8287)    (* U+202F U+205F *)
   || (c =? 12288) || (c =? 65279))%N.  (* U+3000 U+FEFF *)

Fixpoint trimStart (s : jsstring) : jsstring :=
  match s with
  | [] => []
  | c :: rest => if isWhiteSpace c then trimStart rest else s
  end.

Definition trimEnd (s : jsstring) : jsstring := rev (trimStart (rev s)).

Definition trim (s : jsstring) : jsstring := trimEnd (trimStart s).

(** [!s] for a string [s]. *)
Definition not_str (s : jsstring) : bool :=
  match s with [] => true | _ :: _ => false end.

(** The thrown value of a failed property access. *)
Definition TypeError : value := VObj [("name", VStr (str "TypeError"))].

End JS.
Import JS.

(** ** Requests and the monad of async functions *)

Inductive http_method := GET | POST.

Record request := mkRequest {
  method : http_method;
  url : string;
  body : option value
}.

(** The axios response object; the program reads only [data]. *)
Record response := mkResponse { data : value }.

(** How an awaited promise settles. *)
Inductive settled :=
| Fulfilled (results : list response)
| Rejected (reason : value).

(** State setters of [App] and of a [SolutionDisplay] instance, and the
    console.  A [SolutionDisplay] setter belongs to one mounted instance. *)
Inductive action :=
| SetQuestion (q : jsstring)
| SetSolution (v : value)
| SetIsLoading (b : bool)
| SetSystemStatus (v : value)
| SetAnalytics (v : value)
| SetKnowledgeBaseStats (v : value)
| SetMcpTools (v : value)
| SetActiveTab (t : string)
| SetShowFeedback (inst : nat) (b : bool)
| SetRating (inst : nat) (r : Z)
| SetComments (inst : nat) (c : list (string * value))
| ConsoleError (msg : string) (e : value).

(** An async function body: it returns, throws, performs an action, or
    issues requests and suspends until they settle ([await] of one
    request or of [Promise.all]). *)
Inductive proc (A : Type) : Type :=
| Ret (a : A)
| Throw (e : value)
| Act (a : action) (k : proc A)
| Await (rs : list request) (k : settled -> proc A).

Arguments Ret {A} a.
Arguments Throw {A} e.
Arguments Act {A} a k.
Arguments Await {A} rs k.

Fixpoint bind {A B} (p : proc A) (f : A -> proc B) : proc B :=
  match p with
  | Ret a => f a
  | Throw e => Throw e
  | Act a k => Act a (bind k f)
  | Await rs k => Await rs (fun s => bind (k s) f)
  end.

(** [try { p } catch (e) { h e }] *)
Fixpoint try_catch {A} (p : proc A) (h : value -> proc A) : proc A :=
  match p with
  | Ret a => Ret a
  | Throw e => h e
  | Act a k => Act a (try_catch k h)
  | Await rs k => Await rs (fun s => try_catch (k s) h)
  end.

(** [try { p } finally { f }] *)
Fixpoint try_finally {A} (p : proc A) (f : proc unit) : proc A :=
  match p with
  | Ret a => bind f (fun _ => Ret a)
  | Throw e => bind f (fun _ => Throw e)
  | Act a k => Act a (try_finally k f)
  | Await rs k => Await rs (fun s => try_finally (k s) f)
  end.

Declare Scope proc_scope.
Delimit Scope proc_scope with proc.
Notation "x <- p ;; q" := (bind p (fun x => q))
  (at level 61, p at next level, right associativity) : proc_scope.
Notation "p ;; q" := (bind p (fun _ => q))
  (at level 61, right associativity) : proc_scope.
Local Open Scope proc_scope.

Definition perform (a : action) : proc unit := Act a (Ret tt).

(** [await p] for the promise of one request. *)
Definition await (r : request) : proc response :=
  Await [r] (fun s =>
    match s with
    | Fulfilled [resp] => Ret resp
    | Fulfilled _ => Throw TypeError
    | Rejected e => Throw e
    end).

(** [await Promise.all(ps)] for the promises of the requests [rs]. *)
Definition await_all (rs : list request) : proc (list response) :=
  Await rs (fun s =>
    match s with
    | Fulfilled l => Ret l
    | Rejected e => Throw e
    end).

(** A property read that throws a TypeError on [undefined] and [null]. *)
Definition member (v : value) (k : string) : proc value :=
  match get_member v k with
  | Some x => Ret x
  | None => Throw TypeError
  end.

Definition api_get (u : string) : request := mkRequest GET u None.
Definition api_post (u : string) (b : value) : request := mkRequest POST u (Some b).

(** ** The handlers of App.js *)

(** [loadSystemData], lines 370-387. *)
Definition loadSystemData : proc unit :=
  try_catch
    (rs <- await_all [api_get "/health";
                      api_get "/feedback/analytics";
                      api_get "/knowledge-base/stats";
                      api_get "/mcp/tools"] ;;
     match rs with
     | statusRes :: analyticsRes :: kbRes :: mcpRes :: _ =>
         perform (SetSystemStatus (data statusRes)) ;;
         perform (SetAnalytics (data analyticsRes)) ;;
         perform (SetKnowledgeBaseStats (data kbRes)) ;;
         perform (SetMcpTools (data mcpRes))
     | _ => Throw TypeError
     end)
    (fun error => perform (ConsoleError "Failed to load system data:" error)).

(** [handleSolve], lines 390-409; [question] is the state the handler
    closed over. *)
Definition handleSolve (question : jsstring) : proc unit :=
  if not_str (trim question) then Ret tt
  else
    perform (SetIsLoading true) ;;
    perform (SetSolution VNull) ;;
    try_finally
      (try_catch
         (response <- await (api_post "/solve"
                               (VObj [("question", VStr (trim question));
                                      ("use_mcp", VBool true)])) ;;
          perform (SetSolution (data response)))
         (fun error => perform (ConsoleError "Error solving problem:" error)))
      (perform (SetIsLoading false)).

(** [handleFeedback], lines 411-426. *)
Definition handleFeedback (sessionId rating comments : value) : proc unit :=
  try_catch
    (_ <- await (api_post "/feedback"
                   (VObj [("session_id", sessionId);
                          ("rating", rating);
                          ("comments", comments)])) ;;
     analyticsResponse <- await (api_get "/feedback/analytics") ;;
     perform (SetAnalytics (data analyticsResponse)))
    (fun error =>
       perform (ConsoleError "Failed to submit feedback:" error) ;;
       Throw error).

(** [handleFeedbackSubmit] of the [SolutionDisplay] instance [inst],
    lines 95-103, with [onFeedback] bound to [handleFeedback]
    (line 466). *)
Definition handleFeedbackSubmit (inst : nat) (solution : value)
    (rating : Z) (comments : list (string * value)) : proc unit :=
  try_catch
    (session_id <- member solution "session_id" ;;
     handleFeedback session_id (VNum (inject_Z rating)) (VObj comments) ;;
     perform (SetShowFeedback inst false))
    (fun error => perform (ConsoleError "Feedback submission failed:" error)).

(** ** Component state *)

(** The [useState] cells of [App], lines 354-361. *)
Record AppState := mkApp {
  question : jsstring;
  solution : value;
  isLoading : bool;
  systemStatus : value;
  analytics : value;
  knowledgeBaseStats : value;
  mcpTools : value;
  activeTab : string
}.

Definition App_initial : AppState :=
  mkApp [] VNull false VNull VNull VNull VNull "solve".

(** The [useState] cells of [SolutionDisplay], lines 87-93. *)
Record DisplayState := mkDisplay {
  showFeedback : bool;
  rating : Z;
  comments : list (string * value)
}.

Definition SolutionDisplay_initial : DisplayState :=
  mkDisplay false 5
    [("clarity", VStr []); ("accuracy", VStr []); ("completeness", VStr [])].

(** The star buttons of the feedback form, line 197. *)
Definition stars : list Z := [1; 2; 3; 4; 5]%Z.

(** [disabled] of the solve button, line 66. *)
Definition solve_button_disabled (s : AppState) : bool :=
  isLoading s || not_str (trim (question s)).

(** ** The browser around the components *)

(** One request a suspended function waits for. *)
Record Pending := mkPending {
  rid : nat;
  req : request;
  reply : option response
}.

(** A function suspended at an [await]. *)
Record Job := mkJob {
  waiting : list Pending;
  resume : settled -> proc unit
}.

(** A timer made by [setInterval]; times are in milliseconds. *)
Record Interval := mkInterval {
  timer : nat;
  period : N;
  due : N;
  callback : proc unit
}.

Record World := mkWorld {
  mounted : bool;                        (* [App] is on the page *)
  app : AppState;
  display : option (nat * DisplayState); (* the mounted [SolutionDisplay] *)
  next_instance : nat;
  jobs : list Job;
  next_request : nat;
  sent : list (nat * request);           (* every request issued, oldest first *)
  intervals : list Interval;
  next_timer : nat;
  poll_interval : option nat;            (* [interval] of the effect, line 366 *)
  now : N;
  console : list (string * value)
}.

Definition set_app (a : AppState) (w : World) : World :=
  mkWorld (mounted w) a (display w) (next_instance w) (jobs w)
    (next_request w) (sent w) (intervals w) (next_timer w)
    (poll_interval w) (now w) (console w).

Definition set_display (d : option (nat * DisplayState)) (w : World) : World :=
  mkWorld (mounted w) (app w) d (next_instance w) (jobs w)
    (next_request w) (sent w) (intervals w) (next_timer w)
    (poll_interval w) (now w) (console w).

Definition set_jobs (ts : list Job) (w : World) : World :=
  mkWorld (mounted w) (app w) (display w) (next_instance w) ts
    (next_request w) (sent w) (intervals w) (next_timer w)
    (poll_interval w) (now w) (console w).

Definition set_intervals (l : list Interval) (w : World) : World :=
  mkWorld (mounted w) (app w) (display w) (next_instance w) (jobs w)
    (next_request w) (sent w) l (next_timer w)
    (poll_interval w) (now w) (console w).

(** A state update of [App]; React drops it once [App] is unmounted. *)
Definition update_app (f : AppState -> AppState) (w : World) : World :=
  if mounted w then set_app (f (app w)) w else w.

(** A state update of the [SolutionDisplay] instance [inst]; dropped
    when that instance is no longer the mounted one. *)
Definition update_display (inst : nat) (f : DisplayState -> DisplayState)
    (w : World) : World :=
  match display w with
  | Some (i, d) => if Nat.eqb inst i then set_display (Some (i, f d)) w else w
  | None => w
  end.

Definition run_action (a : action) (w : World) : World :=
  match a with
  | SetQuestion q =>
      update_app (fun s => mkApp q (solution s) (isLoading s) (systemStatus s)
        (analytics s) (knowledgeBaseStats s) (mcpTools s) (activeTab s)) w
  | SetSolution v =>
      update_app (fun s => mkApp (question s) v (isLoading s) (systemStatus s)
        (analytics s) (knowledgeBaseStats s) (mcpTools s) (activeTab s)) w
  | SetIsLoading b =>
      update_app (fun s => mkApp (question s) (solution s) b (systemStatus s)
        (analytics s) (knowledgeBaseStats s) (mcpTools s) (activeTab s)) w
  | SetSystemStatus v =>
      update_app (fun s => mkApp (question s) (solution s) (isLoading s) v
        (analytics s) (knowledgeBaseStats s) (mcpTools s) (activeTab s)) w
  | SetAnalytics v =>
      update_app (fun s => mkApp (question s) (solution s) (isLoading s)
        (systemStatus s) v (knowledgeBaseStats s) (mcpTools s) (activeTab s)) w
  | SetKnowledgeBaseStats v =>
      update_app (fun s => mkApp (question s) (solution s) (isLoading s)
        (systemStatus s) (analytics s) v (mcpTools s) (activeTab s)) w
  | SetMcpTools v =>
      update_app (fun s => mkApp (question s) (solution s) (isLoading s)
        (systemStatus s) (analytics s) (knowledgeBaseStats s) v (activeTab s)) w
  | SetActiveTab t =>
      update_app (fun s => mkApp (question s) (solution s) (isLoading s)
        (systemStatus s) (analytics s) (knowledgeBaseStats s) (mcpTools s) t) w
  | SetShowFeedback inst b =>
      update_display inst (fun d => mkDisplay b (rating d) (comments d)) w
  | SetRating inst r =>
      update_display inst (fun d => mkDisplay (showFeedback d) r (comments d)) w
  | SetComments inst c =>
      update_display inst (fun d => mkDisplay (showFeedback d) (rating d) c) w
  | ConsoleError msg e =>
      mkWorld (mounted w) (app w) (display w) (next_instance w) (jobs w)
        (next_request w) (sent w) (intervals w) (next_timer w)
        (poll_interval w) (now w) (console w ++ [(msg, e)])
  end.

(** Issue the requests [rs] under fresh ids and park the continuation. *)
Definition suspend (rs : list request) (k : settled -> proc unit)
    (w : World) : World :=
  let ids := combine (seq (next_request w) (List.length rs)) rs in
  mkWorld (mounted w) (app w) (display w) (next_instance w)
    (jobs w ++ [mkJob (map (fun ir => mkPending (fst ir) (snd ir) None) ids) k])
    (next_request w + List.length rs) (sent w ++ ids) (intervals w) (next_timer w)
    (poll_interval w) (now w) (console w).

(** Run a function up to its next [await].  A rejection nobody awaits
    is dropped; [Promise.all] of no promise is fulfilled at once. *)
Fixpoint exec (p : proc unit) (w : World) : World :=
  match p with
  | Ret _ => w
  | Throw _ => w
  | Act a k => exec k (run_action a w)
  | Await [] k => exec (k (Fulfilled [])) w
  | Await rs k => suspend rs k w
  end.

(** The condition of lines 454 and 463 under which [SolutionDisplay] is
    on the page. *)
Definition shows_solution (w : World) : bool :=
  mounted w && String.eqb (activeTab (app w)) "solve"
  && truthy (solution (app w)).

(** Rendering [App], lines 454-469: a fresh [SolutionDisplay] starts from
    its initial state, a kept one keeps its state, a removed one loses it. *)
Definition reconcile (w : World) : World :=
  if shows_solution w
  then match display w with
       | Some _ => w
       | None =>
           mkWorld (mounted w) (app w)
             (Some (next_instance w, SolutionDisplay_initial))
             (S (next_instance w)) (jobs w) (next_request w) (sent w)
             (intervals w) (next_timer w) (poll_interval w) (now w) (console w)
       end
  else set_display None w.

(** Call a function from an event handler, a timer or a settled promise,
    then render. *)
Definition dispatch (p : proc unit) (w : World) : World :=
  reconcile (exec p w).

(** *** Network replies *)

(** axios fulfils the promise of a request with a response or rejects it
    with an error. *)
Inductive outcome :=
| Ok (r : response)
| Failed (e : value).

Definition unsettled (id : nat) (p : Pending) : bool :=
  Nat.eqb (rid p) id && match reply p with None => true | Some _ => false end.

Definition fill (id : nat) (r : response) (p : Pending) : Pending :=
  if unsettled id p then mkPending (rid p) (req p) (Some r) else p.

(** The replies of an await, once every one of them is there. *)
Fixpoint collect (ps : list Pending) : option (list response) :=
  match ps with
  | [] => Some []
  | p :: rest =>
      match reply p, collect rest with
      | Some r, Some rs => Some (r :: rs)
      | _, _ => None
      end
  end.

(** Settle request [id] in the job [t] that waits for it: a rejection
    rejects the await at once (the other replies of a [Promise.all] are
    then ignored), a response fulfils it when it was the last one
    missing.  The result is what is left of the job and the function to
    resume, if any. *)
Definition settle_job (id : nat) (o : outcome) (t : Job)
  : list Job * option (proc unit) :=
  match o with
  | Failed e => ([], Some (resume t (Rejected e)))
  | Ok r =>
      let ps := map (fill id r) (waiting t) in
      match collect ps with
      | Some rs => ([], Some (resume t (Fulfilled rs)))
      | None => ([mkJob ps (resume t)], None)
      end
  end.

Fixpoint deliver (id : nat) (o : outcome) (ts : list Job)
  : list Job * option (proc unit) :=
  match ts with
  | [] => ([], None)
  | t :: rest =>
      if existsb (unsettled id) (waiting t) then
        let (left, p) := settle_job id o t in (left ++ rest, p)
      else
        let (ts', p) := deliver id o rest in (t :: ts', p)
  end.

Definition settle (id : nat) (o : outcome) (w : World) : World :=
  let (ts, p) := deliver id o (jobs w) in
  match p with
  | Some k => dispatch k (set_jobs ts w)
  | None => set_jobs ts w
  end.

(** *** Timers *)

Definition setInterval (cb : proc unit) (ms : N) (w : World) : nat * World :=
  (next_timer w,
   mkWorld (mounted w) (app w) (display w) (next_instance w) (jobs w)
     (next_request w) (sent w)
     (intervals w ++ [mkInterval (next_timer w) ms (now w + ms) cb])
     (S (next_timer w)) (poll_interval w) (now w) (console w)).

Definition clearInterval (id : nat) (w : World) : World :=
  set_intervals
    (filter (fun i => negb (Nat.eqb (timer i) id)) (intervals w)) w.

Definition reschedule (t : N) (i : Interval) : Interval :=
  if N.eqb (due i) t
  then mkInterval (timer i) (period i) (due i + period i) (callback i)
  else i.

(** One millisecond passes; the intervals that fall due run their
    callbacks in order. *)
Definition tick (w : World) : World :=
  let t := (now w + 1)%N in
  let fired := filter (fun i => N.eqb (due i) t) (intervals w) in
  let w1 :=
    mkWorld (mounted w) (app w) (display w) (next_instance w) (jobs w)
      (next_request w) (sent w) (map (reschedule t) (intervals w))
      (next_timer w) (poll_interval w) t (console w) in
  fold_left (fun w' i => dispatch (callback i) w') fired w1.

(** *** Mounting and unmounting [App] *)

Definition first_render : World :=
  mkWorld true App_initial None 0 [] 0 [] [] 0 None 0 [].

(** The effect of lines 364-368: load once, then on a 30 s interval. *)
Definition App_effect (w : World) : World :=
  let w1 := dispatch loadSystemData w in
  let (interval, w2) := setInterval loadSystemData 30000 w1 in
  mkWorld (mounted w2) (app w2) (display w2) (next_instance w2) (jobs w2)
    (next_request w2) (sent w2) (intervals w2) (next_timer w2)
    (Some interval) (now w2) (console w2).

Definition mount : World := App_effect first_render.

(** The cleanup of the effect, line 367, and the removal of the tree. *)
Definition unmount (w : World) : World :=
  if mounted w then
    let w1 := match poll_interval w with
              | Some interval => clearInterval interval w
              | None => w
              end in
    mkWorld false (app w1) None (next_instance w1) (jobs w1)
      (next_request w1) (sent w1) (intervals w1) (next_timer w1)
      (poll_interval w1) (now w1) (console w1)
  else w.

(** *** Events *)

Inductive event :=
| ChangeQuestion (v : jsstring)      (* textarea, line 56 *)
| ClickSolve                         (* line 65 *)
| ClickSolveTab                      (* line 437 *)
| ClickAnalyticsTab                  (* line 444 *)
| ClickFeedbackToggle                (* line 184 *)
| ClickStar (n : nat)                (* the n-th star button, line 200 *)
| ChangeClarity (v : jsstring)       (* line 215 *)
| ChangeAccuracy (v : jsstring)      (* line 224 *)
| ChangeCompleteness (v : jsstring)  (* line 233 *)
| ClickSubmitFeedback                (* line 239 *)
| Settle (id : nat) (o : outcome)
| Tick
| Unmount.

Definition solve_tab (w : World) : bool :=
  mounted w && String.eqb (activeTab (app w)) "solve".

(** A control reacts when it is rendered and not disabled. *)
Definition step (w : World) (e : event) : World :=
  match e with
  | ChangeQuestion v =>
      if solve_tab w && negb (isLoading (app w))
      then dispatch (perform (SetQuestion v)) w else w
  | ClickSolve =>
      if solve_tab w && negb (solve_button_disabled (app w))
      then dispatch (handleSolve (question (app w))) w else w
  | ClickSolveTab =>
      if mounted w then dispatch (perform (SetActiveTab "solve")) w else w
  | ClickAnalyticsTab =>
      if mounted w then dispatch (perform (SetActiveTab "analytics")) w else w
  | ClickFeedbackToggle =>
      match display w with
      | Some (i, d) =>
          dispatch (perform (SetShowFeedback i (negb (showFeedback d)))) w
      | None => w
      end
  | ClickStar n =>
      match display w with
      | Some (i, d) =>
          if showFeedback d then
            match nth_error stars n with
            | Some star => dispatch (perform (SetRating i star)) w
            | None => w
            end
          else w
      | None => w
      end
  | ChangeClarity v =>
      match display w with
      | Some (i, d) =>
          if showFeedback d then
            dispatch (perform (SetComments i
              (obj_set "clarity" (VStr v) (comments d)))) w
          else w
      | None => w
      end
  | ChangeAccuracy v =>
      match display w with
      | Some (i, d) =>
          if showFeedback d then
            dispatch (perform (SetComments i
              (obj_set "accuracy" (VStr v) (comments d)))) w
          else w
      | None => w
      end
  | ChangeCompleteness v =>
      match display w with
      | Some (i, d) =>
          if showFeedback d then
            dispatch (perform (SetComments i
              (obj_set "completeness" (VStr v) (comments d)))) w
          else w
      | None => w
      end
  | ClickSubmitFeedback =>
      match display w with
      | Some (i, d) =>
          if showFeedback d then
            dispatch (handleFeedbackSubmit i (solution (app w))
                        (rating d) (comments d)) w
          else w
      | None => w
      end
  | Settle id o => settle id o w
  | Tick => tick w
  | Unmount => unmount w
  end.

Definition run (w : World) (es : list event) : World := fold_left step es w.

(** The worlds the page can be in. *)
Inductive reachable : World -> Prop :=
| reach_mount : reachable mount
| reach_step w e : reachable w -> reachable (step w e).

(** The await that request [id] belongs to, while [id] is unsettled:
    its requests with their ids and the replies received so far. *)
Fixpoint awaiting_in (id : nat) (ts : list Job) : option (list Pending) :=
  match ts with
  | [] => None
  | t :: rest =>
      if existsb (unsettled id) (waiting t)
      then Some (waiting t)
      else awaiting_in id rest
  end.

Definition awaiting (w : World) (id : nat) : option (list Pending) :=
  awaiting_in id (jobs w).

(** ** The guardrail panel of [SolutionDisplay], lines 147-159 *)

Inductive icon := CheckMark | CrossMark.

Record Badge := mkBadge {
  className : string;
  badge_icon : icon;
  label : string
}.

Definition badge (passed : value) (text : string) : Badge :=
  mkBadge (if truthy passed then "guardrail-badge passed"
           else "guardrail-badge failed")
          (if truthy passed then CheckMark else CrossMark)
          text.

(** The two badges; [None] when rendering throws a TypeError. *)
Definition guardrails_panel (solution : value) : option (Badge * Badge) :=
  match get_member solution "guardrails_passed" with
  | Some verdict =>
      match get_member verdict "input", get_member verdict "output" with
      | Some i, Some o =>
          Some (badge i "Input Validation", badge o "Output Quality")
      | _, _ => None
      end
  | None => None
  end.

(** The panel as the specification words it: the verdict is read from
    the field [guardrails] of the Solution. *)
Definition spec_guardrails_panel (solution : value) : option (Badge * Badge) :=
  match get_member solution "guardrails" with
  | Some verdict =>
      match get_member verdict "input", get_member verdict "output" with
      | Some i, Some o =>
          Some (badge i "Input Validation", badge o "Output Quality")
      | _, _ => None
      end
  | None => None
  end.

(** A Solution as the panel expects it, with the verdict under
    [guardrails_passed]. *)
Definition sample_fields : list (string * value) :=
  [("session_id", VStr (str "s-1"));
   ("question", VStr (str "2+2"));
   ("solution", VStr (str "4"));
   ("confidence", VNum (85 # 100));
   ("processing_time", VNum (12 # 10));
   ("sources", VArr [VStr (str "MCP")]);
   ("guardrails_passed",
    VObj [("input", VBool true); ("output", VBool false)])].

Definition sample_solution : value := VObj sample_fields.

(** The body of a solve request as the specification words it. *)
Definition spec_solve_body (q : jsstring) (b : value) : Prop :=
  get_member b "question" = Some (VStr (trim q)) /\
  get_member b "use_computation_service" = Some (VBool true).

(** ** Reading a function up to its first await *)

(** The state updates before the first await (or to the end). *)
Fixpoint prefix (p : proc unit) : list action :=
  match p with
  | Ret _ | Throw _ => []
  | Act a k => a :: prefix k
  | Await [] k => prefix (k (Fulfilled []))
  | Await _ _ => []
  end.

(** The requests of the first await. *)
Fixpoint awaits (p : proc unit) : list request :=
  match p with
  | Ret _ | Throw _ => []
  | Act _ k => awaits k
  | Await [] k => awaits (k (Fulfilled []))
  | Await rs _ => rs
  end.

(** What runs once the first await has settled. *)
Fixpoint kont (p : proc unit) : settled -> proc unit :=
  match p with
  | Ret _ | Throw _ => fun _ => Ret tt
  | Act _ k => kont k
  | Await [] k => kont (k (Fulfilled []))
  | Await _ k => k
  end.

Definition run_actions (l : list action) (w : World) : World :=
  fold_left (fun w' a => run_action a w') l w.

(** ** Invariants of the reachable worlds *)

(** The four reads of [loadSystemData]. *)
Definition polled : list request :=
  [api_get "/health"; api_get "/feedback/analytics";
   api_get "/knowledge-base/stats"; api_get "/mcp/tools"].

Definition solve_request (q : jsstring) : request :=
  api_post "/solve" (VObj [("question", VStr (trim q)); ("use_mcp", VBool true)]).

Definition comments_ok (c : list (string * value)) : Prop :=
  exists x y z,
    c = [("clarity", VStr x); ("accuracy", VStr y); ("completeness", VStr z)].

Definition form_ok (d : DisplayState) : Prop :=
  (1 <= rating d <= 5)%Z /\ comments_ok (comments d).

Definition feedback_ok (r : request) : Prop :=
  exists sid n c,
    (1 <= n <= 5)%Z /\ comments_ok c /\
    r = api_post "/feedback"
          (VObj [("session_id", sid); ("rating", VNum (inject_Z n));
                 ("comments", VObj c)]).

(** What a request to [/feedback] or to [/solve] looks like. *)
Definition request_ok (r : request) : Prop :=
  (url r = "/feedback" -> feedback_ok r) /\
  (url r = "/solve" ->
   exists q, forallb isWhiteSpace q = false /\ r = solve_request q).

(** Every suspended function is one of the four awaits of the program. *)
Inductive job_kind : Job -> Prop :=
| poll_job ps :
    map req ps = polled ->
    job_kind (mkJob ps (kont loadSystemData))
| solve_job id q :
    not_str (trim q) = false ->
    job_kind (mkJob [mkPending id (solve_request q) None]
                 (kont (handleSolve q)))
| post_job id b inst sol sid r c :
    get_member sol "session_id" = Some sid ->
    job_kind (mkJob [mkPending id (api_post "/feedback" b) None]
                 (kont (handleFeedbackSubmit inst sol r c)))
| get_job id inst sol sid r c resp :
    get_member sol "session_id" = Some sid ->
    job_kind (mkJob [mkPending id (api_get "/feedback/analytics") None]
                 (kont (kont (handleFeedbackSubmit inst sol r c)
                          (Fulfilled [resp])))).

Definition log (msg : string) (e : value) (k : proc unit) : proc unit :=
  Act (ConsoleError msg e) k.

(** What settling request [id] does to a job of each kind: what is left
    of the job and the function body that resumes. *)
Inductive settles (id : nat) : outcome -> Job -> list Job ->
                                option (proc unit) -> Prop :=
| poll_fails ps e :
    map req ps = polled ->
    settles id (Failed e) (mkJob ps (kont loadSystemData)) []
      (Some (log "Failed to load system data:" e (Ret tt)))
| poll_waits ps r :
    map req ps = polled ->
    collect (map (fill id r) ps) = None ->
    settles id (Ok r) (mkJob ps (kont loadSystemData))
      [mkJob (map (fill id r) ps) (kont loadSystemData)] None
| poll_done ps r a b c d :
    map req ps = polled ->
    collect (map (fill id r) ps) = Some [a; b; c; d] ->
    settles id (Ok r) (mkJob ps (kont loadSystemData)) []
      (Some (Act (SetSystemStatus (data a))
            (Act (SetAnalytics (data b))
            (Act (SetKnowledgeBaseStats (data c))
            (Act (SetMcpTools (data d)) (Ret tt))))))
| solve_fails q e :
    settles id (Failed e)
      (mkJob [mkPending id (solve_request q) None] (kont (handleSolve q))) []
      (Some (log "Error solving problem:" e
               (Act (SetIsLoading false) (Ret tt))))
| solve_done q r :
    settles id (Ok r)
      (mkJob [mkPending id (solve_request q) None] (kont (handleSolve q))) []
      (Some (Act (SetSolution (data r)) (Act (SetIsLoading false) (Ret tt))))
| post_fails b inst sol r c e :
    settles id (Failed e)
      (mkJob [mkPending id (api_post "/feedback" b) None]
         (kont (handleFeedbackSubmit inst sol r c))) []
      (Some (log "Failed to submit feedback:" e
               (log "Feedback submission failed:" e (Ret tt))))
| post_done b inst sol sid r c resp :
    get_member sol "session_id" = Some sid ->
    settles id (Ok resp)
      (mkJob [mkPending id (api_post "/feedback" b) None]
         (kont (handleFeedbackSubmit inst sol r c))) []
      (Some (Await [api_get "/feedback/analytics"]
               (kont (kont (handleFeedbackSubmit inst sol r c)
                        (Fulfilled [resp])))))
| get_fails inst sol r c resp e :
    settles id (Failed e)
      (mkJob [mkPending id (api_get "/feedback/analytics") None]
         (kont (kont (handleFeedbackSubmit inst sol r c) (Fulfilled [resp]))))
      []
      (Some (log "Failed to submit feedback:" e
               (log "Feedback submission failed:" e (Ret tt))))
| get_done inst sol r c resp resp' :
    settles id (Ok resp')
      (mkJob [mkPending id (api_get "/feedback/analytics") None]
         (kont (kont (handleFeedbackSubmit inst sol r c) (Fulfilled [resp]))))
      []
      (Some (Act (SetAnalytics (data resp'))
               (Act (SetShowFeedback inst false) (Ret tt)))).

Definition job_ids (ts : list Job) : list nat :=
  flat_map (fun t => map rid (waiting t)) ts.

Definition is_solve (t : Job) : bool :=
  existsb (fun p => String.eqb (url (req p)) "/solve") (waiting t).

(** At most one solve request is in flight, and while it is the page
    shows the spinner and no solution. *)
Definition solve_ok (solving : list Job) (a : AppState) : Prop :=
  match solving with
  | [] => True
  | [_] => isLoading a = true /\ solution a = VNull
  | _ => False
  end.

(** The pending entries of an await on [rs], numbered from [n]. *)
Definition pendings (n : nat) (rs : list request) : list Pending :=
  map (fun ir => mkPending (fst ir) (snd ir) None)
      (combine (seq n (List.length rs)) rs).

Record Inv (w : World) : Prop := mkInv {
  inv_jobs : Forall job_kind (jobs w);
  inv_nodup : NoDup (job_ids (jobs w));
  inv_fresh : Forall (fun i => i < next_request w)%nat (job_ids (jobs w));
  inv_display : forall i d, display w = Some (i, d) -> form_ok d;
  inv_sent : forall id r, In (id, r) (sent w) -> request_ok r;
  inv_timer :
    if mounted w
    then intervals w =
           [mkInterval 0 30000 (30000 * (now w / 30000 + 1)) loadSystemData]
         /\ poll_interval w = Some 0%nat
    else intervals w = [];
  inv_solve : solve_ok (filter is_solve (jobs w)) (app w)
}.

(** A world between two events has been rendered. *)
Definition Rendered (w : World) : Prop := reconcile w = w.

(** State updates that keep the feedback form well formed. *)
Definition benign (a : action) : Prop :=
  match a with
  | SetRating _ r => (1 <= r <= 5)%Z
  | SetComments _ c => comments_ok c
  | _ => True
  end.

(** State updates that leave [solution] and [isLoading] alone. *)
Definition solve_neutral (a : action) : Prop :=
  match a with
  | SetSolution _ | SetIsLoading _ => False
  | _ => True
  end.

(** A session: a question is solved, the answer is rated with three
    stars and a remark on accuracy, and the feedback is submitted. *)
Definition sample_session : list event :=
  [ChangeQuestion (str "2+2"); ClickSolve;
   Settle 4 (Ok (mkResponse sample_solution));
   ClickFeedbackToggle; ClickStar 2; ChangeAccuracy (str "ok");
   ClickSubmitFeedback].

(** [ms] milliseconds pass with no other event. *)
Definition elapse (ms : N) (w : World) : World :=
  N.iter ms (fun w' => step w' Tick) w.

(** ** The rest of the rendering *)

(** *** [SolutionDisplay]: solution text, sources, stars *)

(** [text.split('\n')], line 173. *)
Fixpoint split_lines (text : jsstring) : list jsstring :=
  match text with
  | [] => [[]]
  | c :: rest =>
      if (c =? 10)%N then [] :: split_lines rest
      else match split_lines rest with
           | line :: more => (c :: line) :: more
           | [] => [[c]]
           end
  end.

(** The text whose lines are [ls]. *)
Fixpoint join_lines (ls : list jsstring) : jsstring :=
  match ls with
  | [] => []
  | [line] => line
  | line :: more => line ++ 10%N :: join_lines more
  end.

(** The paragraphs of the solution, lines 173-177, each with its class;
    [None] when [solution.solution] has no [split], a TypeError. *)
Definition solution_content (solution : value)
  : option (list (string * jsstring)) :=
  match get_member solution "solution" with
  | Some (VStr text) =>
      Some (map (fun line =>
                   (if truthy (VStr (trim line)) then "solution-line"
                    else "solution-break", line))
                (split_lines text))
  | _ => None
  end.

(** [s.replace(/\s+/g, '-')], line 137: every maximal run of white space
    becomes one hyphen. *)
Fixpoint replace_spaces_from (in_run : bool) (s : jsstring) : jsstring :=
  match s with
  | [] => []
  | c :: rest =>
      if isWhiteSpace c then
        if in_run then replace_spaces_from true rest
        else 45%N :: replace_spaces_from true rest
      else c :: replace_spaces_from false rest
  end.

Definition replace_spaces (s : jsstring) : jsstring :=
  replace_spaces_from false s.

Fixpoint all_some {A} (l : list (option A)) : option (list A) :=
  match l with
  | [] => Some []
  | Some a :: rest =>
      match all_some rest with
      | Some r => Some (a :: r)
      | None => None
      end
  | None :: _ => None
  end.

Section SourceBadges.

(** [String.prototype.toLowerCase], whose case tables are not spelled
    out here. *)
Variable toLowerCase : jsstring -> jsstring.

(** One source badge, lines 137-139: class and text; [None] when the
    source has no [toLowerCase], a TypeError. *)
Definition source_badge (source : value) : option (jsstring * jsstring) :=
  match source with
  | VStr s =>
      Some (str "source-badge " ++ replace_spaces (toLowerCase s), s)
  | _ => None
  end.

(** The badges of [solution.sources], lines 136-140. *)
Definition source_badges (solution : value)
  : option (list (jsstring * jsstring)) :=
  match get_member solution "sources" with
  | Some (VArr items) => all_some (map source_badge items)
  | _ => None
  end.

End SourceBadges.

(** The class of a star button, line 201. *)
Definition star_class (rating star : Z) : string :=
  if (star <=? rating)%Z then "star filled" else "star ".

Definition star_buttons (rating : Z) : list string :=
  map (star_class rating) stars.

(** *** [Analytics] *)

(** [component.replace('_', ' ')], line 267: a string pattern replaces
    its first occurrence only. *)
Fixpoint replace_underscore (s : jsstring) : jsstring :=
  match s with
  | [] => []
  | c :: rest =>
      if (c =? 95)%N then 32%N :: rest else c :: replace_underscore rest
  end.

(** One entry of the tools list, lines 340-343: the name handed to React
    and the shortened description; [None] on a TypeError. *)
Definition tool_item (tool : value) : option (value * jsstring) :=
  match get_member tool "name", get_member tool "description" with
  | Some name, Some (VStr d) => Some (name, firstn 40 d ++ str "...")
  | _, _ => None
  end.

(** [v?.k] *)
Definition optional_member (v : value) (k : string) : value :=
  match get_member v k with
  | Some x => x
  | None => VUndefined
  end.

(** The tools list, lines 337-346: [Some None] when nothing is rendered,
    [None] on a TypeError. *)
Definition tools_list (mcpTools : value)
  : option (option (list (value * jsstring))) :=
  let tools := optional_member mcpTools "tools" in
  if truthy tools then
    match tools with
    | VArr items =>
        match all_some (map tool_item (firstn 3 items)) with
        | Some shown => Some (Some shown)
        | None => None
        end
    | _ => None
    end
  else Some None.

(** *** [Header] and [QuestionInput] *)

(** [v || d] *)
Definition or_else (v d : value) : value := if truthy v then v else d.

(** Whether React takes [v] as a child, line 28: a string or a
    number is text, a boolean, [null] and [undefined] render nothing, an
    array renders its items, and a plain object is refused (React
    throws "Objects are not valid as a React child"). *)
Fixpoint react_child (v : value) : bool :=
  match v with
  | VObj _ => false
  | VArr items => forallb react_child items
  | _ => true
  end.

(** What [Header] shows, lines 16-43: the value interpolated into the
    class of the status dot, the status text, and class and text of the
    MCP card when there is one; [None] when rendering throws, which it
    does when the status text is no React child. *)
Record HeaderView := mkHeaderView {
  status_dot : value;
  status_value : value;
  mcp_card : option (string * string)
}.

Definition Header (systemStatus : value) : option HeaderView :=
  let dot := or_else (optional_member systemStatus "status")
                     (VStr (str "loading")) in
  let text := or_else (optional_member systemStatus "status")
                      (VStr (str "Loading...")) in
  if react_child text then
    match optional_member systemStatus "mcp_available" with
    | VUndefined => Some (mkHeaderView dot text None)
    | _ =>
        match get_member systemStatus "mcp_available" with
        | Some available =>
            Some (mkHeaderView dot text
                    (Some (if truthy available
                           then ("status-dot healthy", "Active")
                           else ("status-dot degraded", "Inactive"))))
        | None => None
        end
    end
  else None.

(** What [QuestionInput] shows, lines 46-83. *)
Record QuestionView := mkQuestionView {
  textarea_value : jsstring;
  textarea_disabled : bool;
  button_disabled : bool;
  button_class : string;
  button_label : string
}.

Definition QuestionInput (s : AppState) : QuestionView :=
  mkQuestionView (question s) (isLoading s) (solve_button_disabled s)
    (if isLoading s then "solve-btn loading" else "solve-btn ")
    (if isLoading s then "Solving..." else "Solve with AI").

(** *** Predicates used in the statements *)

(** A string with no white space at either end. *)
Definition trimmed (t : jsstring) : Prop :=
  match t with c :: _ => isWhiteSpace c = false | [] => True end /\
  match rev t with c :: _ => isWhiteSpace c = false | [] => True end.

(** A string without a white-space code unit. *)
Definition spaceless (t : jsstring) : bool :=
  forallb (fun c => negb (isWhiteSpace c)) t.

(** *** How the page reacts to an event *)

(** The clock part of [tick]: one millisecond later, due timers
    rescheduled. *)
Definition advance (w : World) : World :=
  mkWorld (mounted w) (app w) (display w) (next_instance w) (jobs w)
    (next_request w) (sent w)
    (map (reschedule (now w + 1)) (intervals w))
    (next_timer w) (poll_interval w) (now w + 1)%N (console w).

(** [reaction w e js acts rs]: in the reachable world [w] the event [e]
    leaves the suspended functions [js], performs the state updates
    [acts] and issues the requests [rs]. *)
Inductive reaction (w : World) :
  event -> list Job -> list action -> list request -> Prop :=
| react_none e :
    reaction w e (jobs w) [] []
| react_question v :
    solve_tab w = true -> isLoading (app w) = false ->
    reaction w (ChangeQuestion v) (jobs w) [SetQuestion v] []
| react_solve :
    solve_tab w = true -> isLoading (app w) = false ->
    forallb isWhiteSpace (question (app w)) = false ->
    reaction w ClickSolve (jobs w)
      [SetIsLoading true; SetSolution VNull]
      [solve_request (question (app w))]
| react_solve_tab :
    mounted w = true ->
    reaction w ClickSolveTab (jobs w) [SetActiveTab "solve"] []
| react_analytics_tab :
    mounted w = true ->
    reaction w ClickAnalyticsTab (jobs w) [SetActiveTab "analytics"] []
| react_toggle i d :
    display w = Some (i, d) ->
    reaction w ClickFeedbackToggle (jobs w)
      [SetShowFeedback i (negb (showFeedback d))] []
| react_star i d n star :
    display w = Some (i, d) -> showFeedback d = true ->
    nth_error stars n = Some star ->
    reaction w (ClickStar n) (jobs w) [SetRating i star] []
| react_clarity i d v :
    display w = Some (i, d) -> showFeedback d = true ->
    reaction w (ChangeClarity v) (jobs w)
      [SetComments i (obj_set "clarity" (VStr v) (comments d))] []
| react_accuracy i d v :
    display w = Some (i, d) -> showFeedback d = true ->
    reaction w (ChangeAccuracy v) (jobs w)
      [SetComments i (obj_set "accuracy" (VStr v) (comments d))] []
| react_completeness i d v :
    display w = Some (i, d) -> showFeedback d = true ->
    reaction w (ChangeCompleteness v) (jobs w)
      [SetComments i (obj_set "completeness" (VStr v) (comments d))] []
| react_submit i d sid :
    display w = Some (i, d) -> showFeedback d = true ->
    get_member (solution (app w)) "session_id" = Some sid ->
    reaction w ClickSubmitFeedback (jobs w) []
      [api_post "/feedback"
         (VObj [("session_id", sid); ("rating", VNum (inject_Z (rating d)));
                ("comments", VObj (comments d))])]
| react_settle id o pre t post left p :
    jobs w = pre ++ t :: post ->
    awaiting_in id pre = None ->
    settles id o t left p ->
    reaction w (Settle id o) (pre ++ left ++ post)
      (match p with Some k => prefix k | None => [] end)
      (match p with Some k => awaits k | None => [] end).

(** The requests the frontend makes. *)
Definition endpoint (r : request) : Prop :=
  In r polled \/
  (exists q, forallb isWhiteSpace q = false /\ r = solve_request q) \/
  feedback_ok r.

(** More invariants of the reachable worlds. *)
Record Inv2 (w : World) : Prop := mkInv2 {
  inv2_tab :
    activeTab (app w) = "solve" \/ activeTab (app w) = "analytics";
  inv2_busy :
    mounted w = true -> isLoading (app w) = true ->
    filter is_solve (jobs w) <> [];
  inv2_asked :
    forall t, In t (jobs w) -> is_solve t = true ->
    exists id,
      waiting t = [mkPending id (solve_request (question (app w))) None];
  inv2_endpoints :
    forall id r, In (id, r) (sent w) -> endpoint r
}.

(** The mounted [SolutionDisplay] instance is older than the next one. *)
Definition instance_ok (w : World) : Prop :=
  forall i d, display w = Some (i, d) -> (i < next_instance w)%nat.

(** The events of the user. *)
Definition user_event (e : event) : bool :=
  match e with
  | Settle _ _ | Tick | Unmount => false
  | _ => true
  end.


(** ** The backend behind the requests *)

(** *** The Feedback & Analytics Aggregator *)

(** Modelled from the spec: a FeedbackRecord (spec, data model), the unit
    the aggregator of the backend stores; the backend is not under
    src/. *)
Record FeedbackRecord := mkFeedbackRecord {
  fb_session_id : value;
  fb_rating : Z;
  fb_comments : value
}.

(** Modelled from the spec: the state of the Feedback & Analytics
    Aggregator (spec 4.6), which is not under src/: the session ids of
    the Solutions issued so far and the records, append-only. *)
Record Aggregator := mkAggregator {
  issued : list value;
  records : list FeedbackRecord
}.

(** Equality of JSON values, for comparing session ids. *)
Fixpoint value_eqb (a b : value) : bool :=
  match a, b with
  | VUndefined, VUndefined => true
  | VNull, VNull => true
  | VBool x, VBool y => Bool.eqb x y
  | VNum x, VNum y => Qeq_bool x y
  | VStr x, VStr y =>
      (fix go (s t : jsstring) : bool :=
         match s, t with
         | [], [] => true
         | c :: s', d :: t' => N.eqb c d && go s' t'
         | _, _ => false
         end) x y
  | VArr xs, VArr ys =>
      (fix go (l m : list value) : bool :=
         match l, m with
         | [], [] => true
         | x :: l', y :: m' => value_eqb x y && go l' m'
         | _, _ => false
         end) xs ys
  | VObj xs, VObj ys =>
      (fix go (l m : list (string * value)) : bool :=
         match l, m with
         | [], [] => true
         | (k, x) :: l', (k', y) :: m' =>
             String.eqb k k' && value_eqb x y && go l' m'
         | _, _ => false
         end) xs ys
  | _, _ => false
  end.

(** Modelled from the spec: [record] of the aggregator (spec 4.6), not
    under src/: a ValidationError ([None]) when the session id is that
    of no issued Solution or the rating is outside 1..5, otherwise the
    record is appended. *)
Definition record (r : FeedbackRecord) (a : Aggregator) : option Aggregator :=
  if existsb (value_eqb (fb_session_id r)) (issued a)
     && (1 <=? fb_rating r)%Z && (fb_rating r <=? 5)%Z
  then Some (mkAggregator (issued a) (records a ++ [r]))
  else None.

(** Modelled from the spec: the arguments of [submit_feedback] (spec 6)
    read from the body of a POST to [/feedback]; the endpoint is not
    under src/.  [None] when a field is missing or the rating is no
    integer. *)
Definition record_of (b : value) : option FeedbackRecord :=
  match get_member b "session_id", get_member b "rating",
        get_member b "comments" with
  | Some sid, Some (VNum q), Some c =>
      if (Z.pos (Qden (Qred q)) =? 1)%Z
      then Some (mkFeedbackRecord sid (Qnum (Qred q)) c)
      else None
  | _, _, _ => None
  end.

(** What the page receives when [record] refuses a feedback. *)
Definition ValidationError : value :=
  VObj [("name", VStr (str "ValidationError"))].

Definition request_of (id : nat) (l : list (nat * request)) : option request :=
  match find (fun x => Nat.eqb id (fst x)) l with
  | Some x => Some (snd x)
  | None => None
  end.

Definition answer_of (id : nat) (l : list (nat * outcome)) : option outcome :=
  match find (fun x => Nat.eqb id (fst x)) l with
  | Some x => Some (snd x)
  | None => None
  end.

(** The page together with the backend and the answers the backend has
    given, which the network delivers later, in any order, or loses. *)
Record System := mkSystem {
  page : World;
  backend : Aggregator;
  answered : list (nat * outcome)
}.

(** What happens in the system: the events of the browser other than
    replies, the backend answering a request, and the network
    delivering an answer or failing a request. *)
Inductive happening :=
| Browser (e : event)
| Handle (id : nat) (o : outcome)
| Deliver (id : nat)
| Lose (id : nat) (e : value).

Definition is_reply (e : event) : bool :=
  match e with
  | Settle _ _ => true
  | _ => false
  end.

Section Backend.

(** Modelled from the spec: [snapshot] of the aggregator (spec 4.6), the
    AnalyticsSnapshot derived from the records as the analytics
    endpoint returns it; not under src/, and taken as it is. *)
Variable snapshot : list FeedbackRecord -> value.

(** Modelled from the spec: how the backend answers a request (spec 6);
    the endpoints are not under src/.  [o] is the answer of the parts
    that are not modelled here (the Solution of the pipeline, the
    health, knowledge-base and tool reads) or a failure; a feedback is
    recorded before it is answered, the analytics read answers with the
    snapshot of the records at that moment, and a Solution that is
    served counts as issued. *)
Definition answer (a : Aggregator) (r : request) (o : outcome)
  : Aggregator * outcome :=
  match o with
  | Failed e => (a, Failed e)
  | Ok resp =>
      match method r with
      | POST =>
          if String.eqb (url r) "/feedback" then
            match body r with
            | Some b =>
                match record_of b with
                | Some rec =>
                    match record rec a with
                    | Some a' => (a', Ok resp)
                    | None => (a, Failed ValidationError)
                    end
                | None => (a, Failed ValidationError)
                end
            | None => (a, Failed ValidationError)
            end
          else if String.eqb (url r) "/solve" then
            match get_member (data resp) "session_id" with
            | Some sid => (mkAggregator (sid :: issued a) (records a), Ok resp)
            | None => (a, Ok resp)
            end
          else (a, Ok resp)
      | GET =>
          if String.eqb (url r) "/feedback/analytics"
          then (a, Ok (mkResponse (snapshot (records a))))
          else (a, Ok resp)
      end
  end.

(** One step of the system; [None] when the happening is not possible:
    a reply reaches the page only through the network, the backend
    answers a request that was sent and that it has not answered yet,
    and only an answer that was given is delivered. *)
Definition sys_step (s : System) (h : happening) : option System :=
  match h with
  | Browser e =>
      if is_reply e then None
      else Some (mkSystem (step (page s) e) (backend s) (answered s))
  | Handle id o =>
      match request_of id (sent (page s)), answer_of id (answered s) with
      | Some r, None =>
          let (a, o') := answer (backend s) r o in
          Some (mkSystem (page s) a (answered s ++ [(id, o')]))
      | _, _ => None
      end
  | Deliver id =>
      match answer_of id (answered s) with
      | Some o =>
          Some (mkSystem (step (page s) (Settle id o)) (backend s) (answered s))
      | None => None
      end
  | Lose id e =>
      Some (mkSystem (step (page s) (Settle id (Failed e))) (backend s)
              (answered s))
  end.

Fixpoint sys_run (s : System) (hs : list happening) : option System :=
  match hs with
  | [] => Some s
  | h :: rest =>
      match sys_step s h with
      | Some s' => sys_run s' rest
      | None => None
      end
  end.

(** The page has just been opened and nothing was recorded yet. *)
Definition sys_initial : System :=
  mkSystem mount (mkAggregator [] []) [].

Inductive sys_reachable : System -> Prop :=
| sys_reach_initial : sys_reachable sys_initial
| sys_reach_step s h s' :
    sys_reachable s -> sys_step s h = Some s' -> sys_reachable s'.

End Backend.

(** Invariants of the reachable systems: the page is a reachable one,
    only requests that were sent have been answered, and a feedback that
    was answered with success has been recorded. *)
Record SInv (s : System) : Prop := mkSInv {
  si_page : reachable (page s);
  si_sent :
    forall id o, answer_of id (answered s) = Some o ->
    (id < next_request (page s))%nat;
  si_recorded :
    forall id resp b,
    answer_of id (answered s) = Some (Ok resp) ->
    request_of id (sent (page s)) = Some (api_post "/feedback" b) ->
    exists rec, record_of b = Some rec /\ In rec (records (backend s))
}.

(** The system after the feedback [rec] has been recorded and answered
    and the page has sent its next read of the analytics, as request
    [g]: whatever the backend answers to [g] is a snapshot of records
    that include [rec], and only that read waits under the id [g]. *)
Record Followed (snapshot : list FeedbackRecord -> value)
    (rec : FeedbackRecord) (g : nat) (s : System) : Prop := mkFollowed {
  fo_sys : SInv s;
  fo_sent : request_of g (sent (page s)) = Some (api_get "/feedback/analytics");
  fo_recorded : In rec (records (backend s));
  fo_answer :
    forall resp, answer_of g (answered s) = Some (Ok resp) ->
    exists recs, data resp = snapshot recs /\ In rec recs;
  fo_job :
    forall t, In t (jobs (page s)) -> In g (map rid (waiting t)) ->
    map req (waiting t) = [api_get "/feedback/analytics"]
}.

(** The comments of a record as the feedback form holds them. *)
Definition comments_of (r : FeedbackRecord) : list (string * value) :=
  match fb_comments r with
  | VObj fields => fields
  | _ => []
  end.

Definition count_rating (k : Z) (recs : list FeedbackRecord) : nat :=
  List.length (filter (fun r => (fb_rating r =? k)%Z) recs).

Definition rating_key (k : Z) : string :=
  match k with
  | 1%Z => "1" | 2%Z => "2" | 3%Z => "3" | 4%Z => "4" | _ => "5"
  end.

(** Modelled from the spec: an AnalyticsSnapshot (spec, data model) as
    JSON, the [snapshot] of a backend to run the page against; not under
    src/.  The count of the records, the mean of the ratings rounded to
    one decimal (half up; 0 without records) and the count per rating
    that occurs. *)
Definition sample_snapshot (recs : list FeedbackRecord) : value :=
  let n := Z.of_nat (List.length recs) in
  let total := fold_right Z.add 0%Z (map fb_rating recs) in
  VObj [("total_feedback", VNum (inject_Z n));
        ("average_rating",
         VNum (if (n =? 0)%Z then 0
               else Qred (((20 * total + n) / (2 * n))%Z # 10)));
        ("rating_distribution",
         VObj (map (fun k => (rating_key k,
                              VNum (inject_Z (Z.of_nat (count_rating k recs)))))
                   (filter (fun k => negb (Nat.eqb (count_rating k recs) 0))
                           stars)))].

(** A session in which every request succeeds: the page is opened and
    the backend answers its four reads at once, but the network holds
    the answers back; a question is solved, rated with three stars and
    the feedback submitted, recorded and answered, the analytics are
    read again and shown; then the four held answers arrive. *)
Definition late_refresh : list happening :=
  [Handle 0 (Ok (mkResponse (VObj [("status", VStr (str "healthy"))])));
   Handle 1 (Ok (mkResponse VNull));
   Handle 2 (Ok (mkResponse (VObj [("total_problems", VNum 3)])));
   Handle 3 (Ok (mkResponse (VObj [("available", VBool false)])));
   Browser (ChangeQuestion (str "2+2")); Browser ClickSolve;
   Handle 4 (Ok (mkResponse sample_solution)); Deliver 4;
   Browser ClickFeedbackToggle; Browser (ClickStar 2);
   Browser (ChangeAccuracy (str "ok")); Browser ClickSubmitFeedback;
   Handle 5 (Ok (mkResponse (VObj [("status", VStr (str "ok"))])));
   Deliver 5;
   Handle 6 (Ok (mkResponse VNull)); Deliver 6;
   Deliver 0; Deliver 1; Deliver 2; Deliver 3].
(** ** Properties *)

(** *** Trimming *)

Lemma trimStart_nil (s : jsstring) :
  trimStart s = [] <-> forallb isWhiteSpace s = true.
Proof.
  induction s as [|c s IH]; simpl.
  - split; reflexivity.
  - destruct (isWhiteSpace c); simpl.
    + exact IH.
    + split; discriminate.
Qed.

Lemma forallb_rev {A} (f : A -> bool) (l : list A) :
  forallb f (rev l) = forallb f l.
Proof.
  induction l as [|x l IH]; simpl; [reflexivity|].
  rewrite forallb_app, IH. simpl. rewrite andb_true_r. apply andb_comm.
Qed.

Lemma forallb_trimStart (s : jsstring) :
  forallb isWhiteSpace (trimStart s) = forallb isWhiteSpace s.
Proof.
  induction s as [|c s IH]; simpl; [reflexivity|].
  destruct (isWhiteSpace c) eqn:E; simpl; [exact IH|].
  now rewrite E.
Qed.

(** [!question.trim()] holds exactly for the blank questions. *)
Lemma not_str_trim (s : jsstring) :
  not_str (trim s) = forallb isWhiteSpace s.
Proof.
  unfold trim, trimEnd.
  destruct (forallb isWhiteSpace s) eqn:E.
  - rewrite <- forallb_trimStart, <- forallb_rev in E.
    apply trimStart_nil in E. now rewrite E.
  - destruct (rev (trimStart (rev (trimStart s)))) eqn:R; [|reflexivity].
    apply (f_equal (@rev N)) in R. rewrite rev_involutive in R. simpl in R.
    apply trimStart_nil in R.
    rewrite forallb_rev, forallb_trimStart in R. congruence.
Qed.

(** *** Running a function up to its first await *)

Lemma exec_prefix (p : proc unit) (w : World) :
  exec p w =
  match awaits p with
  | [] => run_actions (prefix p) w
  | rs => suspend rs (kont p) (run_actions (prefix p) w)
  end.
Proof.
  revert w. induction p as [a|e|a k IH|rs k IH]; intro w; simpl;
    try reflexivity.
  - apply IH.
  - destruct rs; [apply IH | reflexivity].
Qed.

(** *** What a state update leaves alone *)

Lemma run_action_frame (a : action) (w : World) :
  sent (run_action a w) = sent w /\
  next_request (run_action a w) = next_request w /\
  jobs (run_action a w) = jobs w /\
  intervals (run_action a w) = intervals w /\
  mounted (run_action a w) = mounted w /\
  now (run_action a w) = now w /\
  poll_interval (run_action a w) = poll_interval w.
Proof.
  destruct a; simpl; unfold update_app, update_display;
    try (destruct (mounted w) eqn:M; simpl; auto 10; fail);
    try (destruct (display w) as [[j d]|]; [destruct (Nat.eqb inst j)|];
         simpl; auto 10; fail).
Qed.

Lemma run_actions_frame (l : list action) (w : World) :
  sent (run_actions l w) = sent w /\
  next_request (run_actions l w) = next_request w /\
  jobs (run_actions l w) = jobs w /\
  intervals (run_actions l w) = intervals w /\
  mounted (run_actions l w) = mounted w /\
  now (run_actions l w) = now w /\
  poll_interval (run_actions l w) = poll_interval w.
Proof.
  revert w. induction l as [|a l IH]; intro w; simpl; [auto 10|].
  destruct (IH (run_action a w)) as (H1 & H2 & H3 & H4 & H5 & H6 & H7).
  destruct (run_action_frame a w) as (K1 & K2 & K3 & K4 & K5 & K6 & K7).
  unfold run_actions in *. simpl.
  rewrite H1, H2, H3, H4, H5, H6, H7. auto 10.
Qed.

Lemma reconcile_frame (w : World) :
  sent (reconcile w) = sent w /\
  next_request (reconcile w) = next_request w /\
  jobs (reconcile w) = jobs w /\
  intervals (reconcile w) = intervals w /\
  mounted (reconcile w) = mounted w /\
  now (reconcile w) = now w /\
  poll_interval (reconcile w) = poll_interval w /\
  app (reconcile w) = app w.
Proof.
  unfold reconcile.
  destruct (shows_solution w); [destruct (display w)|];
    simpl; auto 10.
Qed.

(** *** The solve button and the solve request *)

Lemma handleSolve_blank (q : jsstring) :
  forallb isWhiteSpace q = true -> handleSolve q = Ret tt.
Proof.
  intro H. unfold handleSolve. now rewrite not_str_trim, H.
Qed.

Lemma handleSolve_awaits (q : jsstring) :
  forallb isWhiteSpace q = false ->
  awaits (handleSolve q) = [solve_request q] /\
  prefix (handleSolve q) = [SetIsLoading true; SetSolution VNull].
Proof.
  intro H. unfold handleSolve. rewrite not_str_trim, H. split; reflexivity.
Qed.

(** C2, as stated, at the question "x": the body of the request that
    [handleSolve] sends has no property [use_computation_service]. *)
Lemma solve_flag_name_counterexample :
  ~ exists b,
      sent (exec (handleSolve (str "x")) mount) =
        sent mount ++ [(next_request mount, api_post "/solve" b)] /\
      spec_solve_body (str "x") b.
Proof.
  intros [b [H [_ F]]].
  vm_compute in H. injection H as H. subst b.
  vm_compute in F. discriminate F.
Qed.

(** C2, amended. For a question that is not blank, [handleSolve] sends
    one request, a POST to [/solve] whose body is the object with the
    trimmed question under [question] and [true] under [use_mcp]; the
    click on the enabled solve button sends this request for the
    question in the textarea. *)
Theorem solve_request_carries_use_mcp (q : jsstring) (w : World) :
  forallb isWhiteSpace q = false ->
  sent (exec (handleSolve q) w) =
    sent w ++ [(next_request w,
                api_post "/solve"
                  (VObj [("question", VStr (trim q)); ("use_mcp", VBool true)]))]
  /\ (solve_tab w = true -> isLoading (app w) = false ->
      question (app w) = q ->
      sent (step w ClickSolve) = sent (exec (handleSolve q) w)).
Proof.
  intro H.
  destruct (handleSolve_awaits q H) as [A P].
  assert (E : sent (exec (handleSolve q) w) = sent w ++
            [(next_request w, solve_request q)]).
  { rewrite exec_prefix, A. simpl.
    destruct (run_actions_frame (prefix (handleSolve q)) w) as (-> & -> & _).
    reflexivity. }
  split; [exact E|].
  intros T L Q. simpl. unfold solve_button_disabled.
  rewrite T, L, Q, not_str_trim, H. simpl.
  unfold dispatch. now destruct (reconcile_frame (exec (handleSolve q) w)) as [-> _].
Qed.

Lemma solve_request_carries_use_mcp_witness :
  let q := str " 2+2 " in
  let w := run mount [ChangeQuestion q] in
  sent (exec (handleSolve q) w) =
    sent w ++ [(next_request w,
                api_post "/solve"
                  (VObj [("question", VStr (trim q)); ("use_mcp", VBool true)]))]
  /\ (solve_tab w = true -> isLoading (app w) = false ->
      question (app w) = q ->
      sent (step w ClickSolve) = sent (exec (handleSolve q) w)).
Proof.
  exact (solve_request_carries_use_mcp (str " 2+2 ")
           (run mount [ChangeQuestion (str " 2+2 ")]) eq_refl).
Defined.

(** *** The guardrail panel *)

(** C4, as stated, at [sample_solution]: the panel shows the verdict of
    [guardrails_passed], and a panel driven by [solution.guardrails]
    would not render there at all. *)
Lemma guardrails_field_counterexample :
  guardrails_panel sample_solution =
    Some (mkBadge "guardrail-badge passed" CheckMark "Input Validation",
          mkBadge "guardrail-badge failed" CrossMark "Output Quality") /\
  spec_guardrails_panel sample_solution = None /\
  guardrails_panel sample_solution <> spec_guardrails_panel sample_solution.
Proof.
  repeat split. discriminate.
Qed.

Lemma get_member_obj (fields : list (string * value)) (k : string) (v : value) :
  lookup k fields = Some v -> get_member (VObj fields) k = Some v.
Proof. intro H. simpl. now rewrite H. Qed.

(** C4, amended. The verdict shown is read from the Solution field
    [guardrails_passed]: when that field holds [{input, output}] the two
    badges are "passed" or "failed" after [input] and [output], and two
    Solutions with the same [guardrails_passed] get the same panel
    whatever their other fields (a field [guardrails] included) hold. *)
Theorem guardrails_panel_reads_guardrails_passed
    (fields verdict : list (string * value)) (i o : bool) :
  lookup "guardrails_passed" fields = Some (VObj verdict) ->
  lookup "input" verdict = Some (VBool i) ->
  lookup "output" verdict = Some (VBool o) ->
  guardrails_panel (VObj fields) =
    Some (mkBadge (if i then "guardrail-badge passed"
                   else "guardrail-badge failed")
            (if i then CheckMark else CrossMark) "Input Validation",
          mkBadge (if o then "guardrail-badge passed"
                   else "guardrail-badge failed")
            (if o then CheckMark else CrossMark) "Output Quality")
  /\ forall other,
       get_member other "guardrails_passed" = Some (VObj verdict) ->
       guardrails_panel other = guardrails_panel (VObj fields).
Proof.
  intros F I O.
  assert (E : forall s, get_member s "guardrails_passed" = Some (VObj verdict) ->
            guardrails_panel s =
            Some (badge (VBool i) "Input Validation",
                  badge (VBool o) "Output Quality")).
  { intros s G. unfold guardrails_panel.
    now rewrite G, (get_member_obj _ _ _ I), (get_member_obj _ _ _ O). }
  split.
  - now rewrite (E _ (get_member_obj _ _ _ F)).
  - intros other G. now rewrite (E _ G), (E _ (get_member_obj _ _ _ F)).
Qed.

Lemma guardrails_panel_reads_guardrails_passed_witness :
  guardrails_panel sample_solution =
    Some (mkBadge "guardrail-badge passed" CheckMark "Input Validation",
          mkBadge "guardrail-badge failed" CrossMark "Output Quality")
  /\ forall other,
       get_member other "guardrails_passed" =
         Some (VObj [("input", VBool true); ("output", VBool false)]) ->
       guardrails_panel other = guardrails_panel sample_solution.
Proof.
  exact (guardrails_panel_reads_guardrails_passed
           sample_fields [("input", VBool true); ("output", VBool false)]
           true false
           eq_refl eq_refl eq_refl).
Defined.

(** *** Settling a request *)

Lemma collect_length (ps : list Pending) (rs : list response) :
  collect ps = Some rs -> List.length rs = List.length ps.
Proof.
  revert rs. induction ps as [|p ps IH]; intros rs H; simpl in H.
  - now inversion H.
  - destruct (reply p); [|discriminate].
    destruct (collect ps); [|discriminate].
    inversion H. simpl. f_equal. now apply IH.
Qed.

Lemma map_req_fill (id : nat) (r : response) (ps : list Pending) :
  map req (map (fill id r) ps) = map req ps.
Proof.
  rewrite map_map. apply map_ext. intro p. unfold fill.
  now destruct (unsettled id p).
Qed.

Lemma map_rid_fill (id : nat) (r : response) (ps : list Pending) :
  map rid (map (fill id r) ps) = map rid ps.
Proof.
  rewrite map_map. apply map_ext. intro p. unfold fill.
  now destruct (unsettled id p).
Qed.

Lemma unsettled_single (id id' : nat) (rq : request) :
  existsb (unsettled id) [mkPending id' rq None] = true -> id' = id.
Proof.
  unfold unsettled. simpl. rewrite orb_false_r, andb_true_r.
  apply Nat.eqb_eq.
Qed.

Lemma kont_loadSystemData (s : settled) :
  kont loadSystemData s =
  match s with
  | Fulfilled (a :: b :: c :: d :: _) =>
      Act (SetSystemStatus (data a))
        (Act (SetAnalytics (data b))
           (Act (SetKnowledgeBaseStats (data c))
              (Act (SetMcpTools (data d)) (Ret tt))))
  | Fulfilled _ => log "Failed to load system data:" TypeError (Ret tt)
  | Rejected e => log "Failed to load system data:" e (Ret tt)
  end.
Proof. now destruct s as [[|a [|b [|c [|d l]]]]|e]. Qed.

Lemma kont_handleSolve (q : jsstring) (s : settled) :
  not_str (trim q) = false ->
  kont (handleSolve q) s =
  match s with
  | Fulfilled [r] => Act (SetSolution (data r)) (Act (SetIsLoading false) (Ret tt))
  | Fulfilled _ =>
      log "Error solving problem:" TypeError (Act (SetIsLoading false) (Ret tt))
  | Rejected e =>
      log "Error solving problem:" e (Act (SetIsLoading false) (Ret tt))
  end.
Proof.
  intro H. unfold handleSolve. rewrite H.
  now destruct s as [[|a [|b l]]|e].
Qed.

Lemma handleFeedbackSubmit_awaits inst sol sid r c :
  get_member sol "session_id" = Some sid ->
  prefix (handleFeedbackSubmit inst sol r c) = [] /\
  awaits (handleFeedbackSubmit inst sol r c) =
    [api_post "/feedback"
       (VObj [("session_id", sid); ("rating", VNum (inject_Z r));
              ("comments", VObj c)])].
Proof.
  intro H. unfold handleFeedbackSubmit, member. rewrite H. now split.
Qed.

Lemma kont_post inst sol sid r c (s : settled) :
  get_member sol "session_id" = Some sid ->
  kont (handleFeedbackSubmit inst sol r c) s =
  match s with
  | Fulfilled [x] =>
      Await [api_get "/feedback/analytics"]
        (kont (kont (handleFeedbackSubmit inst sol r c) (Fulfilled [x])))
  | Fulfilled _ =>
      log "Failed to submit feedback:" TypeError
        (log "Feedback submission failed:" TypeError (Ret tt))
  | Rejected e =>
      log "Failed to submit feedback:" e
        (log "Feedback submission failed:" e (Ret tt))
  end.
Proof.
  intro H. unfold handleFeedbackSubmit, member. rewrite H.
  now destruct s as [[|a [|b l]]|e].
Qed.

Lemma kont_get inst sol sid r c x (s : settled) :
  get_member sol "session_id" = Some sid ->
  kont (kont (handleFeedbackSubmit inst sol r c) (Fulfilled [x])) s =
  match s with
  | Fulfilled [y] =>
      Act (SetAnalytics (data y)) (Act (SetShowFeedback inst false) (Ret tt))
  | Fulfilled _ =>
      log "Failed to submit feedback:" TypeError
        (log "Feedback submission failed:" TypeError (Ret tt))
  | Rejected e =>
      log "Failed to submit feedback:" e
        (log "Feedback submission failed:" e (Ret tt))
  end.
Proof.
  intro H. unfold handleFeedbackSubmit, member. rewrite H.
  now destruct s as [[|a [|b l]]|e].
Qed.

Lemma settle_single (id : nat) (rq : request) (k : settled -> proc unit)
    (o : outcome) :
  settle_job id o (mkJob [mkPending id rq None] k) =
  ([], Some (k match o with
               | Ok r => Fulfilled [r]
               | Failed e => Rejected e
               end)).
Proof.
  destruct o; simpl; [|reflexivity].
  unfold fill, unsettled. simpl. now rewrite Nat.eqb_refl.
Qed.

(** Settling a request of a job of the program is one of the nine
    cases of [settles]. *)
Lemma settle_job_settles (id : nat) (o : outcome) (t : Job) :
  job_kind t ->
  existsb (unsettled id) (waiting t) = true ->
  settles id o t (fst (settle_job id o t)) (snd (settle_job id o t)).
Proof.
  intros K U. destruct K as [ps P|id' q Q|id' b inst sol sid r c G
                             |id' inst sol sid r c resp G]; simpl in U.
  - destruct o as [r|e]; unfold settle_job; cbn [waiting resume].
    + destruct (collect (map (fill id r) ps)) as [rs|] eqn:C; cbn [fst snd].
      * assert (L : List.length rs = 4%nat).
        { rewrite (collect_length _ _ C), length_map,
            <- (length_map req), P. reflexivity. }
        destruct rs as [|a [|b [|c [|d [|x l]]]]]; try discriminate L.
        rewrite kont_loadSystemData. now apply poll_done.
      * now apply poll_waits.
    + cbn [fst snd]. rewrite kont_loadSystemData. now apply poll_fails.
  - apply unsettled_single in U. subst id'. rewrite settle_single. cbn [fst snd].
    rewrite (kont_handleSolve q _ Q).
    destruct o; [apply solve_done | apply solve_fails].
  - apply unsettled_single in U. subst id'. rewrite settle_single. cbn [fst snd].
    rewrite (kont_post inst sol sid r c _ G).
    destruct o; [now apply post_done with sid | apply post_fails].
  - apply unsettled_single in U. subst id'. rewrite settle_single. cbn [fst snd].
    rewrite (kont_get inst sol sid r c resp _ G).
    destruct o; [apply get_done | apply get_fails].
Qed.

Lemma deliver_none (id : nat) (o : outcome) (ts : list Job) :
  awaiting_in id ts = None -> deliver id o ts = (ts, None).
Proof.
  induction ts as [|t ts IH]; simpl; [reflexivity|].
  destruct (existsb (unsettled id) (waiting t)); [discriminate|].
  intro H. now rewrite (IH H).
Qed.

Lemma deliver_some (id : nat) (o : outcome) (ts : list Job)
    (ps : list Pending) :
  awaiting_in id ts = Some ps ->
  exists pre t post,
    ts = pre ++ t :: post /\
    awaiting_in id pre = None /\
    existsb (unsettled id) (waiting t) = true /\
    waiting t = ps /\
    deliver id o ts =
      (pre ++ fst (settle_job id o t) ++ post, snd (settle_job id o t)).
Proof.
  induction ts as [|t ts IH]; simpl; [discriminate|].
  destruct (existsb (unsettled id) (waiting t)) eqn:U.
  - intro H. inversion H. exists [], t, ts. simpl.
    destruct (settle_job id o t). auto.
  - intro H. destruct (IH H) as (pre & t' & post & E & P & U' & R & D).
    exists (t :: pre), t', post. simpl. rewrite U, D, E. auto.
Qed.

Lemma set_jobs_same (w : World) : set_jobs (jobs w) w = w.
Proof. now destruct w. Qed.

(** The world after a reply, by the kind of the job that waited. *)
Lemma settle_cases (w : World) (id : nat) (o : outcome) :
  Forall job_kind (jobs w) ->
  match awaiting w id with
  | None => settle id o w = w
  | Some ps =>
      exists pre t post left p,
        jobs w = pre ++ t :: post /\
        awaiting_in id pre = None /\
        waiting t = ps /\
        settles id o t left p /\
        settle id o w =
          match p with
          | Some k => dispatch k (set_jobs (pre ++ left ++ post) w)
          | None => set_jobs (pre ++ left ++ post) w
          end
  end.
Proof.
  intro K. unfold awaiting, settle.
  destruct (awaiting_in id (jobs w)) as [ps|] eqn:A.
  - destruct (deliver_some id o _ _ A) as (pre & t & post & E & P & U & R & D).
    exists pre, t, post, (fst (settle_job id o t)), (snd (settle_job id o t)).
    rewrite D. repeat split; auto.
    apply settle_job_settles; [|exact U].
    rewrite E in K. apply Forall_app in K. destruct K as [_ K].
    now inversion K.
  - rewrite (deliver_none _ _ _ A). apply set_jobs_same.
Qed.

(** *** The invariant under the primitive operations *)

Lemma form_ok_initial : form_ok SolutionDisplay_initial.
Proof.
  split; simpl; [lia|]. now exists [], [], [].
Qed.

Lemma Inv_run_action (w : World) (a : action) :
  Inv w -> benign a ->
  solve_neutral a \/ filter is_solve (jobs w) = [] ->
  Inv (run_action a w).
Proof.
  intros [K N F D S T V] B Q.
  destruct w as [m ap dp ni ts nr sn iv nt pl nw cs]; simpl in *.
  destruct a; simpl in *; unfold update_app, update_display; simpl;
    try (destruct m; constructor; simpl; auto;
         destruct Q as [[]|Q]; rewrite Q; exact I);
    try (destruct dp as [[j d]|]; [destruct (Nat.eqb inst j) eqn:E|];
         constructor; simpl; auto;
         intros i' d' H; inversion H; subst;
         destruct (D _ _ eq_refl) as [R C]; split; simpl; auto).
Qed.

Lemma Inv_reconcile (w : World) : Inv w -> Inv (reconcile w).
Proof.
  intros [K N F D S T V]. unfold reconcile.
  destruct (shows_solution w).
  - destruct (display w) as [p|] eqn:E.
    + constructor; auto. intros i d H. rewrite E in H. eauto.
    + constructor; simpl; auto.
      intros i d H. inversion H. apply form_ok_initial.
  - constructor; simpl; auto. discriminate.
Qed.

Lemma pendings_rid (n : nat) (rs : list request) :
  map rid (pendings n rs) = seq n (List.length rs).
Proof.
  unfold pendings. revert n. induction rs as [|r rs IH]; intro n; simpl;
    [reflexivity|].
  f_equal. apply IH.
Qed.

Lemma pendings_req (n : nat) (rs : list request) :
  map req (pendings n rs) = rs.
Proof.
  unfold pendings. revert n. induction rs as [|r rs IH]; intro n; simpl;
    [reflexivity|].
  f_equal. apply IH.
Qed.

Lemma job_ids_app (l1 l2 : list Job) :
  job_ids (l1 ++ l2) = job_ids l1 ++ job_ids l2.
Proof. apply flat_map_app. Qed.

Lemma is_solve_pendings (n : nat) (rs : list request) (k : settled -> proc unit) :
  is_solve (mkJob (pendings n rs) k) =
  existsb (fun r => String.eqb (url r) "/solve") rs.
Proof.
  unfold is_solve. simpl.
  rewrite <- (pendings_req n rs) at 2.
  induction (pendings n rs) as [|p l IH]; simpl; [reflexivity|].
  now rewrite IH.
Qed.

Lemma Inv_suspend (w : World) (rs : list request) (k : settled -> proc unit) :
  Inv w ->
  job_kind (mkJob (pendings (next_request w) rs) k) ->
  (forall r, In r rs -> request_ok r) ->
  existsb (fun r => String.eqb (url r) "/solve") rs = false \/
  (filter is_solve (jobs w) = [] /\
   isLoading (app w) = true /\ solution (app w) = VNull) ->
  Inv (suspend rs k w).
Proof.
  intros [K N F D S T V] Kt Fb Sv. unfold suspend. fold (pendings (next_request w) rs).
  constructor; simpl; auto.
  - apply Forall_app. split; [exact K|]. now constructor.
  - rewrite job_ids_app. simpl. rewrite app_nil_r, pendings_rid.
    apply NoDup_app; [exact N | apply seq_NoDup |].
    intros a Ha Hs. apply in_seq in Hs.
    rewrite Forall_forall in F. specialize (F a Ha). lia.
  - rewrite job_ids_app. simpl. rewrite app_nil_r, pendings_rid.
    apply Forall_app. split.
    + eapply Forall_impl; [|exact F]. simpl. intros. lia.
    + apply Forall_forall. intros a Ha. apply in_seq in Ha. lia.
  - intros id r H. apply in_app_or in H. destruct H as [H|H]; [eauto|].
    apply in_combine_r in H. auto.
  - rewrite filter_app. simpl. rewrite is_solve_pendings.
    destruct Sv as [E|(E1 & E2 & E3)].
    + rewrite E, app_nil_r. exact V.
    + rewrite E1. simpl.
      destruct (existsb _ rs); simpl; auto.
Qed.

Lemma NoDup_app_drop {A} (l1 l2 l3 : list A) :
  NoDup (l1 ++ l2 ++ l3) -> NoDup (l1 ++ l3).
Proof.
  induction l2 as [|x l2 IH]; simpl; [auto|].
  intro H. apply IH. eapply NoDup_remove_1. exact H.
Qed.

Lemma solve_ok_drop (l1 l2 l3 : list Job) (a : AppState) :
  solve_ok (l1 ++ l2 ++ l3) a -> solve_ok (l1 ++ l3) a.
Proof.
  destruct l1 as [|x [|y l1]]; destruct l2 as [|u [|v l2]];
    destruct l3 as [|p [|q l3]]; simpl; auto; try tauto.
Qed.

(** A settled job leaves the list. *)
Lemma Inv_drop (w : World) (pre post : list Job) (t : Job) :
  Inv w -> jobs w = pre ++ t :: post ->
  Inv (set_jobs (pre ++ post) w) /\
  (is_solve t = true -> filter is_solve (pre ++ post) = []).
Proof.
  intros [K N F D S T V] E. rewrite E in *.
  change (pre ++ t :: post) with (pre ++ [t] ++ post) in *.
  split.
  - constructor; simpl; auto.
    + apply Forall_app in K. destruct K as [K1 K2].
      apply Forall_app in K2. destruct K2 as [_ K2].
      apply Forall_app. now split.
    + rewrite !job_ids_app in N. rewrite job_ids_app.
      eapply NoDup_app_drop. exact N.
    + rewrite !job_ids_app in F. rewrite job_ids_app.
      apply Forall_app in F. destruct F as [F1 F2].
      apply Forall_app in F2. destruct F2 as [_ F2].
      apply Forall_app. now split.
    + rewrite !filter_app in V. rewrite filter_app.
      eapply solve_ok_drop. exact V.
  - intro Q. rewrite !filter_app in V. simpl in V. rewrite Q in V.
    rewrite filter_app.
    destruct (filter is_solve pre) as [|x l]; destruct (filter is_solve post);
      simpl in V |- *; auto; try tauto;
      destruct l; simpl in V; tauto.
Qed.

(** A [Promise.all] that got one more reply stays in its place. *)
Lemma Inv_fill (w : World) (pre post : list Job) (t t' : Job) :
  Inv w -> jobs w = pre ++ t :: post ->
  job_kind t' ->
  map rid (waiting t') = map rid (waiting t) ->
  is_solve t' = is_solve t ->
  Inv (set_jobs (pre ++ t' :: post) w).
Proof.
  intros [K N F D S T V] E Kt R Q. rewrite E in *.
  constructor; simpl; auto.
  - apply Forall_app in K. destruct K as [K1 K2]. inversion K2; subst.
    apply Forall_app. split; [exact K1|]. now constructor.
  - rewrite job_ids_app in N |- *. simpl in N |- *. now rewrite R.
  - rewrite job_ids_app in F |- *. simpl in F |- *. now rewrite R.
  - rewrite filter_app in V |- *. simpl in V |- *. rewrite Q.
    destruct (is_solve t); [|exact V].
    destruct (filter is_solve pre) as [|x [|y l]];
      destruct (filter is_solve post) as [|u [|v l']]; simpl in V |- *; tauto.
Qed.

Lemma is_solve_fill (id : nat) (r : response) (t : Job) (k : settled -> proc unit) :
  is_solve (mkJob (map (fill id r) (waiting t)) k) = is_solve t.
Proof.
  unfold is_solve. simpl.
  induction (waiting t) as [|p l IH]; simpl; [reflexivity|].
  rewrite IH. f_equal. unfold fill. now destruct (unsettled id p).
Qed.

Ltac inv_actions :=
  unfold dispatch, perform, log; cbn [exec];
  repeat first
    [ apply Inv_reconcile
    | apply Inv_run_action; [ | simpl; auto | left; exact I ] ].

(** *** The invariant under every event *)

Lemma Inv_settle (w : World) (id : nat) (o : outcome) :
  Inv w -> Inv (settle id o w).
Proof.
  intro H. pose proof (settle_cases w id o (inv_jobs w H)) as C.
  destruct (awaiting w id) as [ps'|]; [|now rewrite C].
  destruct C as (pre & t & post & l & p & E & _ & _ & St & ->).
  destruct (Inv_drop w pre post t H E) as [Hd Hs].
  destruct St; cbn [List.app]; try (inv_actions; exact Hd).
  - (* one more reply of a Promise.all *)
    apply (Inv_fill w pre post _ _ H E).
    + apply poll_job. now rewrite map_req_fill.
    + simpl. apply map_rid_fill.
    + apply (is_solve_fill id r (mkJob ps (kont loadSystemData))).
  - (* the solve request failed *)
    specialize (Hs eq_refl).
    unfold dispatch, log. cbn [exec]. apply Inv_reconcile.
    apply Inv_run_action; [|exact I|right].
    + apply Inv_run_action; [exact Hd|exact I|now left].
    + now destruct (run_action_frame
        (ConsoleError "Error solving problem:" e) (set_jobs (pre ++ post) w))
        as (_ & _ & -> & _).
  - (* the solve request succeeded *)
    specialize (Hs eq_refl).
    unfold dispatch. cbn [exec]. apply Inv_reconcile.
    apply Inv_run_action; [|exact I|right].
    + apply Inv_run_action; [exact Hd|exact I|now right].
    + now destruct (run_action_frame
        (SetSolution (data r)) (set_jobs (pre ++ post) w))
        as (_ & _ & -> & _).
  - (* the feedback was stored: the analytics are fetched *)
    unfold dispatch. cbn [exec]. apply Inv_reconcile.
    apply Inv_suspend; [exact Hd| | |now left].
    + simpl. now apply get_job with sid.
    + intros r' [<-|[]]. split; discriminate.
Qed.

Ltac divmod n :=
  let A := fresh "A" in
  let B := fresh "B" in
  pose proof (N.div_mod n 30000 ltac:(discriminate)) as A;
  pose proof (N.mod_lt n 30000 ltac:(discriminate)) as B;
  generalize dependent (N.modulo n 30000);
  generalize dependent (N.div n 30000); intros.

Lemma next_due_fired (n : N) :
  (30000 * (n / 30000 + 1) = n + 1 ->
   30000 * ((n + 1) / 30000 + 1) = 30000 * (n / 30000 + 1) + 30000)%N.
Proof. intro H. divmod (n + 1)%N. divmod n. lia. Qed.

Lemma next_due_idle (n : N) :
  (30000 * (n / 30000 + 1) <> n + 1 ->
   30000 * ((n + 1) / 30000 + 1) = 30000 * (n / 30000 + 1))%N.
Proof. intro H. divmod (n + 1)%N. divmod n. lia. Qed.

Lemma due_multiple (n : N) :
  (30000 * (n / 30000 + 1) = n + 1 <-> (n + 1) mod 30000 = 0)%N.
Proof. divmod (n + 1)%N. divmod n. lia. Qed.

Lemma stars_range (n : nat) (star : Z) :
  nth_error stars n = Some star -> (1 <= star <= 5)%Z.
Proof.
  do 5 (destruct n as [|n]; [intro H; inversion H; lia|]).
  destruct n; discriminate.
Qed.

Lemma comments_ok_set (k : string) (v : jsstring) (c : list (string * value)) :
  comments_ok c ->
  k = "clarity" \/ k = "accuracy" \/ k = "completeness" ->
  comments_ok (obj_set k (VStr v) c).
Proof.
  intros (x & y & z & ->) [->|[->| ->]]; simpl.
  - now exists v, y, z.
  - now exists x, v, z.
  - now exists x, y, v.
Qed.

Lemma Inv_idle (w : World) :
  Inv w -> isLoading (app w) = false -> filter is_solve (jobs w) = [].
Proof.
  intros H L. pose proof (inv_solve w H) as V.
  destruct (filter is_solve (jobs w)) as [|x [|y l]]; simpl in V;
    [reflexivity| |contradiction].
  destruct V as [V _]. congruence.
Qed.

Lemma exec_loadSystemData (w : World) :
  exec loadSystemData w = suspend polled (kont loadSystemData) w.
Proof. now rewrite exec_prefix. Qed.

Lemma Inv_poll (w : World) : Inv w -> Inv (dispatch loadSystemData w).
Proof.
  intro H. unfold dispatch. rewrite exec_loadSystemData.
  apply Inv_reconcile. apply Inv_suspend; [exact H| | |now left].
  - apply poll_job. apply pendings_req.
  - intros r [<-|[<-|[<-|[<-|[]]]]]; split; discriminate.
Qed.

Lemma Inv_click_solve (w : World) :
  Inv w -> solve_tab w = true -> solve_button_disabled (app w) = false ->
  Inv (dispatch (handleSolve (question (app w))) w).
Proof.
  intros H T D. unfold solve_button_disabled in D.
  apply orb_false_iff in D. destruct D as [L B].
  pose proof B as B'. rewrite not_str_trim in B'.
  destruct (handleSolve_awaits _ B') as [A P].
  unfold dispatch. rewrite exec_prefix, A, P. apply Inv_reconcile.
  pose proof (Inv_idle w H L) as Q.
  unfold run_actions. cbn [fold_left].
  set (w1 := run_action (SetIsLoading true) w).
  set (w2 := run_action (SetSolution VNull) w1).
  assert (H1 : Inv w1) by (apply Inv_run_action; auto; exact I).
  assert (Q1 : filter is_solve (jobs w1) = []).
  { unfold w1. now destruct (run_action_frame (SetIsLoading true) w)
      as (_ & _ & -> & _). }
  assert (H2 : Inv w2) by (apply Inv_run_action; auto; exact I).
  assert (Q2 : filter is_solve (jobs w2) = []).
  { unfold w2. now destruct (run_action_frame (SetSolution VNull) w1)
      as (_ & _ & -> & _). }
  apply Inv_suspend; [exact H2| | |right].
  - simpl. now apply solve_job.
  - intros r [<-|[]]. split; [discriminate|].
    intros _. now exists (question (app w)).
  - split; [exact Q2|].
    unfold solve_tab in T. apply andb_true_iff in T. destruct T as [M _].
    unfold w2, w1. simpl. unfold update_app. rewrite M. simpl. rewrite M.
    now split.
Qed.

Lemma Inv_click_submit (w : World) (i : nat) (d : DisplayState) :
  Inv w -> display w = Some (i, d) ->
  Inv (dispatch (handleFeedbackSubmit i (solution (app w)) (rating d)
                   (comments d)) w).
Proof.
  intros H E. destruct (inv_display w H i d E) as [R C].
  destruct (get_member (solution (app w)) "session_id") as [sid|] eqn:G.
  - destruct (handleFeedbackSubmit_awaits i _ sid (rating d) (comments d) G)
      as [P A].
    unfold dispatch. rewrite exec_prefix, A, P. apply Inv_reconcile.
    apply Inv_suspend; [exact H| | |now left].
    + simpl. now apply post_job with sid.
    + intros r [<-|[]]. split; [|discriminate].
      intros _. now exists sid, (rating d), (comments d).
  - unfold handleFeedbackSubmit, member. rewrite G. inv_actions. exact H.
Qed.

Lemma Inv_tick (w : World) : Inv w -> Inv (tick w).
Proof.
  intro H. pose proof H as [K N F D S T V]. unfold tick.
  destruct (mounted w) eqn:M.
  - destruct T as [Ti Tp]. rewrite Ti.
    set (t := (now w + 1)%N).
    cbn [filter map due reschedule].
    unfold reschedule. cbn [due timer period callback].
    destruct (N.eqb_spec (30000 * (now w / 30000 + 1))%N t) as [Eq|Ne];
      cbn [fold_left callback].
    + apply Inv_poll. constructor; cbn [mounted jobs next_request display
        sent intervals poll_interval now app]; auto.
      split; [|exact Tp]. unfold t. now rewrite (next_due_fired _ Eq).
    + constructor; cbn [mounted jobs next_request display
        sent intervals poll_interval now app]; auto.
      split; [|exact Tp]. unfold t. now rewrite (next_due_idle _ Ne).
  - rewrite T. simpl. constructor; simpl; auto.
Qed.

Lemma Inv_unmount (w : World) : Inv w -> Inv (unmount w).
Proof.
  intro H. pose proof H as [K N F D S T V]. unfold unmount.
  destruct (mounted w) eqn:M; [|exact H].
  destruct T as [Ti Tp]. rewrite Tp. unfold clearInterval. rewrite Ti.
  constructor; simpl; auto. discriminate.
Qed.

Lemma Inv_step (w : World) (e : event) : Inv w -> Inv (step w e).
Proof.
  intro H. destruct e; simpl.
  - destruct (solve_tab w && negb (isLoading (app w))); [|exact H].
    inv_actions. exact H.
  - destruct (solve_tab w) eqn:T; simpl; [|exact H].
    destruct (solve_button_disabled (app w)) eqn:D; simpl; [exact H|].
    now apply Inv_click_solve.
  - destruct (mounted w); [|exact H]. inv_actions. exact H.
  - destruct (mounted w); [|exact H]. inv_actions. exact H.
  - destruct (display w) as [[i d]|]; [|exact H]. inv_actions. exact H.
  - destruct (display w) as [[i d]|]; [|exact H].
    destruct (showFeedback d); [|exact H].
    destruct (nth_error stars n) as [star|] eqn:E; [|exact H].
    unfold dispatch, perform. cbn [exec]. apply Inv_reconcile.
    apply Inv_run_action; [exact H| |now left].
    exact (stars_range _ _ E).
  - destruct (display w) as [[i d]|] eqn:E; [|exact H].
    destruct (showFeedback d); [|exact H].
    unfold dispatch, perform. cbn [exec]. apply Inv_reconcile.
    apply Inv_run_action; [exact H| |now left].
    apply comments_ok_set; [apply (inv_display w H i d E)|auto].
  - destruct (display w) as [[i d]|] eqn:E; [|exact H].
    destruct (showFeedback d); [|exact H].
    unfold dispatch, perform. cbn [exec]. apply Inv_reconcile.
    apply Inv_run_action; [exact H| |now left].
    apply comments_ok_set; [apply (inv_display w H i d E)|auto].
  - destruct (display w) as [[i d]|] eqn:E; [|exact H].
    destruct (showFeedback d); [|exact H].
    unfold dispatch, perform. cbn [exec]. apply Inv_reconcile.
    apply Inv_run_action; [exact H| |now left].
    apply comments_ok_set; [apply (inv_display w H i d E)|auto].
  - destruct (display w) as [[i d]|] eqn:E; [|exact H].
    destruct (showFeedback d); [|exact H].
    now apply Inv_click_submit.
  - now apply Inv_settle.
  - now apply Inv_tick.
  - now apply Inv_unmount.
Qed.

Lemma Inv_mount : Inv mount.
Proof.
  unfold mount, App_effect, dispatch. rewrite exec_loadSystemData.
  constructor; simpl; auto.
  - repeat constructor.
  - repeat constructor; simpl; intuition lia.
  - repeat constructor.
  - discriminate.
  - intros id r [H|[H|[H|[H|[]]]]]; inversion H; split; discriminate.
Qed.

(** Every reachable world satisfies the invariant. *)
Lemma reachable_Inv (w : World) : reachable w -> Inv w.
Proof.
  induction 1; [apply Inv_mount | now apply Inv_step].
Qed.

(** *** Rendered worlds *)

Lemma reconcile_idem (w : World) : Rendered (reconcile w).
Proof.
  unfold Rendered, reconcile.
  destruct (shows_solution w) eqn:C.
  - destruct (display w) eqn:E.
    + now rewrite C, E.
    + unfold shows_solution in *. simpl. now rewrite C.
  - unfold shows_solution in *. simpl. now rewrite C.
Qed.

Lemma Rendered_shown (w : World) (i : nat) (d : DisplayState) :
  Rendered w -> display w = Some (i, d) -> shows_solution w = true.
Proof.
  unfold Rendered, reconcile. intros R E.
  destruct (shows_solution w); [reflexivity|].
  rewrite <- R in E. discriminate E.
Qed.

Lemma Rendered_hidden (w : World) :
  Rendered w -> display w = None -> shows_solution w = false.
Proof.
  unfold Rendered, reconcile. intros R E.
  destruct (shows_solution w); [|reflexivity].
  rewrite E in R. rewrite <- R in E. discriminate E.
Qed.

(** Rendering changes nothing when visibility did not change. *)
Lemma reconcile_same (w w' : World) :
  Rendered w ->
  shows_solution w' = shows_solution w ->
  (display w' = None <-> display w = None) ->
  reconcile w' = w'.
Proof.
  intros R C E. unfold reconcile. rewrite C.
  destruct (display w) as [[i d]|] eqn:D.
  - rewrite (Rendered_shown w i d R D).
    destruct (display w') eqn:D'; [reflexivity|].
    destruct E as [E _]. now specialize (E eq_refl).
  - rewrite (Rendered_hidden w R D).
    destruct E as [_ E]. specialize (E eq_refl).
    destruct w'. simpl in *. now rewrite E.
Qed.

Lemma Rendered_frame (w w' : World) :
  Rendered w ->
  mounted w' = mounted w -> app w' = app w -> display w' = display w ->
  Rendered w'.
Proof.
  intros R M A D. apply (reconcile_same w); [exact R| |now rewrite D].
  unfold shows_solution. now rewrite M, A.
Qed.

Lemma Rendered_settle (w : World) (id : nat) (o : outcome) :
  Rendered w -> Rendered (settle id o w).
Proof.
  intro R. unfold settle.
  destruct (deliver id o (jobs w)) as [ts [k|]].
  - apply reconcile_idem.
  - now apply (Rendered_frame w).
Qed.

Lemma Rendered_fold (l : list Interval) (w : World) :
  Rendered w ->
  Rendered (fold_left (fun w' i => dispatch (callback i) w') l w).
Proof.
  revert w. induction l as [|i l IH]; intros w R; simpl; [exact R|].
  apply IH. apply reconcile_idem.
Qed.

Lemma Rendered_step (w : World) (e : event) : Rendered w -> Rendered (step w e).
Proof.
  intro R. destruct e; simpl;
    repeat match goal with
      | |- Rendered (dispatch _ _) => apply reconcile_idem
      | |- Rendered w => exact R
      | |- Rendered (if ?c then _ else _) => destruct c
      | |- Rendered (match ?c with _ => _ end) => destruct c
      end.
  - now apply Rendered_settle.
  - apply Rendered_fold. now apply (Rendered_frame w).
  - unfold unmount. destruct (mounted w) eqn:M; [|exact R].
    reflexivity.
Qed.

Lemma reachable_Rendered (w : World) : reachable w -> Rendered w.
Proof.
  induction 1; [reflexivity | now apply Rendered_step].
Qed.

Lemma reachable_run (w : World) (es : list event) :
  reachable w -> reachable (run w es).
Proof.
  revert w. induction es as [|e es IH]; intros w R; simpl; [exact R|].
  apply IH. now constructor.
Qed.

Lemma truthy_member (v : value) (k : string) :
  truthy v = true -> exists x, get_member v k = Some x.
Proof.
  destruct v; simpl; try discriminate; eauto.
Qed.

(** *** The solve button *)

(** C1. For a question that is empty or all whitespace the solve button
    is disabled, [handleSolve] returns at once without a state update or
    a request, and the world after the click (or after a direct call of
    the handler) is the world before it: no request is sent and the
    solution shown, absent or not, is the one that was there.  And in
    every reachable world each request to [/solve] that was ever sent is
    the solve request of a question that is not blank, so no Solution
    comes back for a blank one. *)
Theorem blank_question_yields_no_solution (w : World) :
  (forallb isWhiteSpace (question (app w)) = true ->
   solve_button_disabled (app w) = true /\
   handleSolve (question (app w)) = Ret tt /\
   exec (handleSolve (question (app w))) w = w /\
   step w ClickSolve = w /\
   (solution (app w) = VNull ->
    solution (app (step w ClickSolve)) = VNull /\
    display (reconcile (exec (handleSolve (question (app w))) w)) = None)) /\
  (reachable w ->
   forall id r, In (id, r) (sent w) -> url r = "/solve" ->
   exists q,
     forallb isWhiteSpace q = false /\ trim q <> [] /\
     r = api_post "/solve"
           (VObj [("question", VStr (trim q)); ("use_mcp", VBool true)])).
Proof.
  split.
  - intro H.
    assert (D : solve_button_disabled (app w) = true).
    { unfold solve_button_disabled. rewrite not_str_trim, H. apply orb_true_r. }
    assert (S : step w ClickSolve = w).
    { simpl. rewrite D. now rewrite andb_false_r. }
    rewrite (handleSolve_blank _ H). simpl exec.
    repeat split; auto.
    + now rewrite S.
    + unfold reconcile, shows_solution. rewrite H0. simpl.
      now rewrite andb_false_r.
  - intros R id r M U.
    destruct (proj2 (inv_sent w (reachable_Inv w R) id r M) U) as (q & B & ->).
    exists q. split; [exact B|]. split; [|reflexivity].
    intro T. rewrite <- not_str_trim, T in B. discriminate B.
Qed.

Lemma blank_question_yields_no_solution_witness :
  let w := run mount [ChangeQuestion (str "2+2"); ClickSolve;
                      Settle 4 (Ok (mkResponse sample_solution));
                      ChangeQuestion (str "  ")] in
  (solve_button_disabled (app w) = true /\
   handleSolve (question (app w)) = Ret tt /\
   exec (handleSolve (question (app w))) w = w /\
   step w ClickSolve = w /\
   (solution (app w) = VNull ->
    solution (app (step w ClickSolve)) = VNull /\
    display (reconcile (exec (handleSolve (question (app w))) w)) = None)) /\
  (forall id r, In (id, r) (sent w) -> url r = "/solve" ->
   exists q,
     forallb isWhiteSpace q = false /\ trim q <> [] /\
     r = api_post "/solve"
           (VObj [("question", VStr (trim q)); ("use_mcp", VBool true)])).
Proof.
  intro w.
  destruct (blank_question_yields_no_solution w) as [A B].
  split; [exact (A eq_refl)|].
  apply B. apply reachable_run. constructor.
Defined.

(** *** The feedback form *)

Lemma display_update (w : World) (i : nat) (d : DisplayState)
    (f : DisplayState -> DisplayState) :
  Rendered w -> display w = Some (i, d) ->
  reconcile (update_display i f w) = set_display (Some (i, f d)) w.
Proof.
  intros R E. unfold update_display. rewrite E, Nat.eqb_refl.
  apply (reconcile_same w); [exact R|reflexivity|].
  simpl. rewrite E. split; discriminate.
Qed.

(** C3. The rating of the feedback form starts at 5; in every reachable
    world the rating of the form on the page is between 1 and 5; a click
    on a star button sets it to the star's number, one of 1..5; and
    every feedback request that was sent carries a rating between 1 and
    5. *)
Theorem rating_stays_between_1_and_5 (w : World) :
  reachable w ->
  rating SolutionDisplay_initial = 5%Z /\
  (forall i d, display w = Some (i, d) -> (1 <= rating d <= 5)%Z) /\
  (forall i d n star,
     display w = Some (i, d) -> showFeedback d = true ->
     nth_error stars n = Some star ->
     (1 <= star <= 5)%Z /\
     display (step w (ClickStar n)) =
       Some (i, mkDisplay true star (comments d))) /\
  (forall id r,
     In (id, r) (sent w) -> url r = "/feedback" ->
     exists n b, (1 <= n <= 5)%Z /\ body r = Some b /\
                 get_member b "rating" = Some (VNum (inject_Z n))).
Proof.
  intro H. pose proof (reachable_Inv w H) as I.
  pose proof (reachable_Rendered w H) as R.
  split; [reflexivity|]. split; [|split].
  - intros i d E. apply (inv_display w I i d E).
  - intros i d n star E F S. split; [exact (stars_range _ _ S)|].
    simpl. rewrite E, F, S. unfold dispatch, perform. cbn [exec run_action].
    rewrite (display_update w i d _ R E). simpl. now rewrite F.
  - intros id r M U.
    destruct (proj1 (inv_sent w I id r M) U) as (sid & n & c & N & _ & ->).
    exists n. eexists. split; [exact N|]. split; reflexivity.
Qed.

Lemma rating_stays_between_1_and_5_witness :
  let w := run mount sample_session in
  reachable w /\
  display w =
    Some (0%nat, mkDisplay true 3
            [("clarity", VStr []); ("accuracy", VStr (str "ok"));
             ("completeness", VStr [])]) /\
  rating SolutionDisplay_initial = 5%Z /\
  (forall i d, display w = Some (i, d) -> (1 <= rating d <= 5)%Z) /\
  (forall i d n star,
     display w = Some (i, d) -> showFeedback d = true ->
     nth_error stars n = Some star ->
     (1 <= star <= 5)%Z /\
     display (step w (ClickStar n)) =
       Some (i, mkDisplay true star (comments d))) /\
  (forall id r,
     In (id, r) (sent w) -> url r = "/feedback" ->
     exists n b, (1 <= n <= 5)%Z /\ body r = Some b /\
                 get_member b "rating" = Some (VNum (inject_Z n))).
Proof.
  intro w.
  assert (R : reachable w) by (apply reachable_run; constructor).
  split; [exact R|]. split; [reflexivity|].
  exact (rating_stays_between_1_and_5 w R).
Defined.

(** C5. The comments of the feedback form start as the object with the
    three keys clarity, accuracy and completeness, each the empty
    string; in every reachable world the form on the page holds exactly
    these three keys with string values; every feedback request that
    was sent is a POST of session_id, rating and such a comments object;
    and submitting the form sends the session_id of the solution on the
    page, the rating chosen and the comments entered. *)
Theorem feedback_carries_three_comments (w : World) :
  reachable w ->
  comments SolutionDisplay_initial =
    [("clarity", VStr []); ("accuracy", VStr []); ("completeness", VStr [])] /\
  (forall i d, display w = Some (i, d) ->
     exists x y z,
       comments d =
         [("clarity", VStr x); ("accuracy", VStr y); ("completeness", VStr z)]) /\
  (forall id r,
     In (id, r) (sent w) -> url r = "/feedback" ->
     exists sid n x y z,
       r = api_post "/feedback"
             (VObj [("session_id", sid); ("rating", VNum (inject_Z n));
                    ("comments",
                     VObj [("clarity", VStr x); ("accuracy", VStr y);
                           ("completeness", VStr z)])])) /\
  (forall i d,
     display w = Some (i, d) -> showFeedback d = true ->
     exists sid,
       get_member (solution (app w)) "session_id" = Some sid /\
       sent (step w ClickSubmitFeedback) =
         sent w ++
         [(next_request w,
           api_post "/feedback"
             (VObj [("session_id", sid);
                    ("rating", VNum (inject_Z (rating d)));
                    ("comments", VObj (comments d))]))]).
Proof.
  intro H. pose proof (reachable_Inv w H) as I.
  pose proof (reachable_Rendered w H) as R.
  split; [reflexivity|]. split; [|split].
  - intros i d E. apply (inv_display w I i d E).
  - intros id r M U.
    destruct (proj1 (inv_sent w I id r M) U)
      as (sid & n & c & _ & (x & y & z & ->) & ->).
    now exists sid, n, x, y, z.
  - intros i d E F.
    pose proof (Rendered_shown w i d R E) as V.
    unfold shows_solution in V. apply andb_true_iff in V. destruct V as [_ V].
    destruct (truthy_member _ "session_id" V) as [sid G].
    exists sid. split; [exact G|].
    simpl. rewrite E, F. unfold dispatch.
    destruct (reconcile_frame
      (exec (handleFeedbackSubmit i (solution (app w)) (rating d) (comments d)) w))
      as [-> _].
    destruct (handleFeedbackSubmit_awaits i _ sid (rating d) (comments d) G)
      as [P A].
    rewrite exec_prefix, A, P. reflexivity.
Qed.

Lemma feedback_carries_three_comments_witness :
  let w := run mount sample_session in
  reachable w /\
  In (5%nat,
      api_post "/feedback"
        (VObj [("session_id", VStr (str "s-1")); ("rating", VNum 3);
               ("comments",
                VObj [("clarity", VStr []); ("accuracy", VStr (str "ok"));
                      ("completeness", VStr [])])])) (sent w) /\
  (forall i d, display w = Some (i, d) ->
     exists x y z,
       comments d =
         [("clarity", VStr x); ("accuracy", VStr y); ("completeness", VStr z)]) /\
  (forall id r,
     In (id, r) (sent w) -> url r = "/feedback" ->
     exists sid n x y z,
       r = api_post "/feedback"
             (VObj [("session_id", sid); ("rating", VNum (inject_Z n));
                    ("comments",
                     VObj [("clarity", VStr x); ("accuracy", VStr y);
                           ("completeness", VStr z)])])).
Proof.
  intro w.
  assert (R : reachable w) by (apply reachable_run; constructor).
  split; [exact R|]. split; [vm_compute; tauto|].
  destruct (feedback_carries_three_comments w R) as (_ & A & B & _).
  split; [exact A | exact B].
Defined.

(** *** The polling timer *)

Lemma exec_frame (p : proc unit) (w : World) :
  intervals (exec p w) = intervals w /\
  mounted (exec p w) = mounted w /\
  now (exec p w) = now w /\
  poll_interval (exec p w) = poll_interval w.
Proof.
  rewrite exec_prefix.
  destruct (run_actions_frame (prefix p) w) as (_ & _ & _ & I & M & N & P).
  destruct (awaits p); simpl; auto.
Qed.

Lemma dispatch_frame (p : proc unit) (w : World) :
  intervals (dispatch p w) = intervals w /\
  mounted (dispatch p w) = mounted w /\
  now (dispatch p w) = now w /\
  poll_interval (dispatch p w) = poll_interval w.
Proof.
  unfold dispatch.
  destruct (reconcile_frame (exec p w)) as (_ & _ & _ & -> & -> & -> & -> & _).
  apply exec_frame.
Qed.

Lemma settle_frame (id : nat) (o : outcome) (w : World) :
  intervals (settle id o w) = intervals w /\
  mounted (settle id o w) = mounted w /\
  now (settle id o w) = now w /\
  poll_interval (settle id o w) = poll_interval w.
Proof.
  unfold settle. destruct (deliver id o (jobs w)) as [ts [k|]].
  - destruct (dispatch_frame k (set_jobs ts w)) as (-> & -> & -> & ->).
    simpl. auto.
  - simpl. auto.
Qed.

(** Only the clock advances the time. *)
Lemma now_step (w : World) (e : event) :
  e <> Tick -> now (step w e) = now w.
Proof.
  intro NT. destruct e; simpl; try congruence;
    repeat match goal with
      | |- now (dispatch ?p ?x) = _ =>
          now destruct (dispatch_frame p x) as (_ & _ & -> & _)
      | |- now w = now w => reflexivity
      | |- now (if ?c then _ else _) = _ => destruct c
      | |- now (match ?c with _ => _ end) = _ => destruct c
      end.
  - now destruct (settle_frame id o w) as (_ & _ & -> & _).
  - unfold unmount. destruct (mounted w); [|reflexivity].
    simpl. destruct (poll_interval w); reflexivity.
Qed.

Lemma sent_poll (w : World) :
  sent (dispatch loadSystemData w) =
    sent w ++ combine (seq (next_request w) 4) polled.
Proof.
  unfold dispatch. rewrite exec_loadSystemData.
  now destruct (reconcile_frame (suspend polled (kont loadSystemData) w))
    as (-> & _).
Qed.

(** One millisecond on a mounted page. *)
Lemma tick_mounted (w : World) :
  Inv w -> mounted w = true ->
  sent (tick w) =
    sent w ++ (if ((now w + 1) mod 30000 =? 0)%N
               then combine (seq (next_request w) 4) polled else []) /\
  now (tick w) = (now w + 1)%N /\
  mounted (tick w) = true.
Proof.
  intros H M. pose proof (inv_timer w H) as T. rewrite M in T.
  destruct T as [Ti Tp]. unfold tick. rewrite Ti.
  cbn [filter map due]. unfold reschedule. cbn [due timer period callback].
  destruct (N.eqb_spec (30000 * (now w / 30000 + 1))%N (now w + 1)%N)
    as [Eq|Ne]; cbn [fold_left callback].
  - apply due_multiple in Eq. rewrite Eq. simpl N.eqb.
    rewrite sent_poll. cbn [sent next_request].
    match goal with
    | |- _ /\ now (dispatch ?p ?x) = _ /\ mounted (dispatch ?p ?x) = _ =>
        destruct (dispatch_frame p x) as (_ & -> & -> & _)
    end.
    auto.
  - destruct (N.eqb_spec ((now w + 1) mod 30000)%N 0%N) as [Z|_].
    + apply due_multiple in Z. contradiction.
    + cbn [sent now mounted]. rewrite app_nil_r. auto.
Qed.

(** Without a timer time passes in silence. *)
Lemma tick_unmounted (w : World) :
  intervals w = [] -> sent (tick w) = sent w /\ intervals (tick w) = [].
Proof.
  intro E. unfold tick. rewrite E. simpl. auto.
Qed.

Lemma quotient_fired (n : N) :
  ((n + 1) mod 30000 = 0 -> (n + 1) / 30000 = n / 30000 + 1)%N.
Proof. intro H. divmod (n + 1)%N. divmod n. lia. Qed.

Lemma quotient_idle (n : N) :
  ((n + 1) mod 30000 <> 0 -> (n + 1) / 30000 = n / 30000)%N.
Proof. intro H. divmod (n + 1)%N. divmod n. lia. Qed.

(** The requests sent while the page just sits there for [ms]
    milliseconds after mounting: the four reads, once at the start and
    once more every 30000 ms. *)
Lemma elapse_mount (ms : N) :
  reachable (elapse ms mount) /\
  mounted (elapse ms mount) = true /\
  now (elapse ms mount) = ms /\
  map snd (sent (elapse ms mount)) =
    List.concat (repeat polled (N.to_nat (1 + ms / 30000))).
Proof.
  induction ms as [|ms IH] using N.peano_ind.
  - repeat split. constructor.
  - destruct IH as (R & M & T & Hs).
    unfold elapse in *. rewrite N.iter_succ.
    set (w := N.iter ms (fun w' => step w' Tick) mount) in *.
    destruct (tick_mounted w (reachable_Inv w R) M) as (Hs' & T' & M').
    change (step w Tick) with (tick w).
    split; [now apply (reach_step w Tick)|]. split; [exact M'|].
    split; [rewrite T', T; lia|].
    rewrite Hs', map_app, Hs, T, <- N.add_1_r.
    destruct (N.eqb_spec ((ms + 1) mod 30000)%N 0%N) as [Z|NZ].
    + rewrite (quotient_fired _ Z).
      replace (N.to_nat (1 + (ms / 30000 + 1)))
        with (S (N.to_nat (1 + ms / 30000))) by lia.
      change (repeat polled (S (N.to_nat (1 + ms / 30000))))
        with (polled :: repeat polled (N.to_nat (1 + ms / 30000))).
      rewrite repeat_cons, concat_app. f_equal.
    + rewrite (quotient_idle _ NZ). simpl. now rewrite app_nil_r.
Qed.

(** C6. Mounting [App] issues the four reads (health, feedback
    analytics, knowledge-base stats, MCP tools) at time 0; on a mounted
    page a millisecond that brings the time since mounting to a multiple
    of 30000 issues exactly these four reads again and any other
    millisecond issues nothing, so a page left alone for [ms]
    milliseconds has sent the four reads [1 + ms / 30000] times; no
    other event moves the clock; unmounting clears the interval timer,
    and on an unmounted page no timer is left and the passing of time
    sends nothing. *)
Theorem dashboard_polls_every_30_seconds (w : World) :
  reachable w ->
  (sent mount = combine (seq 0 4) polled /\ now mount = 0%N) /\
  (mounted w = true ->
   sent (step w Tick) =
     sent w ++ (if ((now w + 1) mod 30000 =? 0)%N
                then combine (seq (next_request w) 4) polled else []) /\
   now (step w Tick) = (now w + 1)%N) /\
  (forall e, e <> Tick -> now (step w e) = now w) /\
  (forall ms,
     map snd (sent (elapse ms mount)) =
       List.concat (repeat polled (N.to_nat (1 + ms / 30000)))) /\
  (mounted (step w Unmount) = false /\ intervals (step w Unmount) = []) /\
  (mounted w = false ->
   intervals w = [] /\ sent (step w Tick) = sent w).
Proof.
  intro H. pose proof (reachable_Inv w H) as I.
  split; [split; reflexivity|]. split; [|split; [|split; [|split]]].
  - intro M. destruct (tick_mounted w I M) as (S & T & _). now split.
  - intros e NT. now apply now_step.
  - intro ms. apply elapse_mount.
  - pose proof (inv_timer _ (Inv_step w Unmount I)) as T.
    simpl in *. unfold unmount in *.
    destruct (mounted w) eqn:M; simpl in *.
    + split; [reflexivity|exact T].
    + rewrite M in T. now split.
  - intro M. pose proof (inv_timer w I) as T. rewrite M in T.
    split; [exact T|]. now apply tick_unmounted.
Qed.

Lemma dashboard_polls_every_30_seconds_witness :
  (sent mount = combine (seq 0 4) polled /\ now mount = 0%N) /\
  (mounted mount = true ->
   sent (step mount Tick) =
     sent mount ++ (if ((now mount + 1) mod 30000 =? 0)%N
                    then combine (seq (next_request mount) 4) polled else []) /\
   now (step mount Tick) = (now mount + 1)%N) /\
  (forall e, e <> Tick -> now (step mount e) = now mount) /\
  (forall ms,
     map snd (sent (elapse ms mount)) =
       List.concat (repeat polled (N.to_nat (1 + ms / 30000)))) /\
  (mounted (step mount Unmount) = false /\
   intervals (step mount Unmount) = []) /\
  (mounted mount = false ->
   intervals mount = [] /\ sent (step mount Tick) = sent mount).
Proof.
  exact (dashboard_polls_every_30_seconds mount reach_mount).
Defined.

(** *** Replies to the requests of the program *)

Lemma unsettled_in (id : nat) (ps : list Pending) :
  existsb (unsettled id) ps = true -> In id (map rid ps).
Proof.
  intro H. apply existsb_exists in H. destruct H as (p & I & U).
  unfold unsettled in U. apply andb_true_iff in U. destruct U as [U _].
  apply Nat.eqb_eq in U. subst id. now apply in_map.
Qed.

Lemma awaiting_absent (id : nat) (l : list Job) :
  ~ In id (job_ids l) -> awaiting_in id l = None.
Proof.
  induction l as [|t l IH]; simpl; [reflexivity|].
  intro H. destruct (existsb (unsettled id) (waiting t)) eqn:U.
  - exfalso. apply H. apply in_or_app. left. now apply unsettled_in.
  - apply IH. intro I. apply H. apply in_or_app. now right.
Qed.

Lemma awaiting_app (id : nat) (l l' : list Job) :
  awaiting_in id l = None -> awaiting_in id (l ++ l') = awaiting_in id l'.
Proof.
  induction l as [|t l IH]; simpl; [reflexivity|].
  destruct (existsb (unsettled id) (waiting t)); [discriminate|exact IH].
Qed.

Lemma awaiting_fresh (w : World) (l : list Job) :
  Inv w -> awaiting_in (next_request w) (jobs w ++ l) =
           awaiting_in (next_request w) l.
Proof.
  intro H. apply awaiting_app. apply awaiting_absent. intro I.
  pose proof (inv_fresh w H) as F. rewrite Forall_forall in F.
  specialize (F _ I). lia.
Qed.

(** A reply to a request some function still waits for, in a reachable
    world. *)
Lemma reachable_settle (w : World) (id : nat) (o : outcome) (ps : list Pending) :
  reachable w -> awaiting w id = Some ps ->
  exists pre t post left p,
    jobs w = pre ++ t :: post /\
    awaiting_in id pre = None /\
    waiting t = ps /\
    settles id o t left p /\
    Inv (set_jobs (pre ++ post) w) /\
    step w (Settle id o) =
      match p with
      | Some k => dispatch k (set_jobs (pre ++ left ++ post) w)
      | None => set_jobs (pre ++ left ++ post) w
      end.
Proof.
  intros R A. pose proof (reachable_Inv w R) as I.
  pose proof (settle_cases w id o (inv_jobs w I)) as C. rewrite A in C.
  destruct C as (pre & t & post & l & p & E & P & W & St & Eq).
  exists pre, t, post, l, p.
  split; [exact E|]. split; [exact P|]. split; [exact W|].
  split; [exact St|]. split; [|exact Eq].
  apply (Inv_drop w pre post t I E).
Qed.

Ltac other_kind H :=
  cbn [waiting map req] in H;
  try match goal with
      | P : map req ?ps = polled |- _ => rewrite P in H
      end;
  try discriminate H.

Lemma NoDup_middle {A} (l1 l2 l3 : list A) (x : A) :
  NoDup (l1 ++ l2 ++ l3) -> In x l2 -> ~ In x (l1 ++ l3).
Proof.
  intros N I H. apply in_split in I. destruct I as (a & b & ->).
  replace (l1 ++ (a ++ x :: b) ++ l3) with ((l1 ++ a) ++ x :: (b ++ l3)) in N
    by (rewrite <- !app_assoc; reflexivity).
  apply NoDup_remove_2 in N. apply N.
  apply in_app_or in H. rewrite <- app_assoc.
  destruct H as [H|H]; apply in_or_app; [now left|right].
  apply in_or_app. right. apply in_or_app. now right.
Qed.

Lemma NoDup_app_disjoint {A} (l1 l2 : list A) (x : A) :
  NoDup (l1 ++ l2) -> In x l2 -> ~ In x l1.
Proof.
  intros N I H. apply (NoDup_middle [] l1 l2 x); [exact N|exact H|exact I].
Qed.

Lemma app_actions_poll (w : World) (ts : list Job) (a b c d : value) :
  mounted w = true ->
  app (reconcile
         (run_action (SetMcpTools d)
            (run_action (SetKnowledgeBaseStats c)
               (run_action (SetAnalytics b)
                  (run_action (SetSystemStatus a) (set_jobs ts w)))))) =
  mkApp (question (app w)) (solution (app w)) (isLoading (app w))
    a b c d (activeTab (app w)).
Proof.
  intro M.
  match goal with
  | |- app (reconcile ?x) = _ =>
      destruct (reconcile_frame x) as (_ & _ & _ & _ & _ & _ & _ & ->)
  end.
  destruct w as [m ap dp ni tk nr sn iv nt pl nw cs].
  simpl in M. subst m. reflexivity.
Qed.

(** *** Solving *)

Lemma solving_in_flight (w : World) (pre post : list Job) (t : Job) :
  Inv w -> jobs w = pre ++ t :: post -> is_solve t = true ->
  isLoading (app w) = true /\ solution (app w) = VNull.
Proof.
  intros I E Q. pose proof (inv_solve w I) as V.
  rewrite E, filter_app in V. simpl in V. rewrite Q in V.
  destruct (filter is_solve pre) as [|x [|y l]]; simpl in V;
    destruct (filter is_solve post); simpl in V; tauto.
Qed.

(** C9. A click on the enabled solve button clears the solution and
    sets the loading flag before the request goes out, and removes the
    solution panel; as long as the solve request is unanswered the
    solution stays [null] and the flag stays set, whatever else happens
    on the page; and when the request settles the flag is reset and the
    solution is the data of the response if it succeeded and [null] if
    it failed. *)
Theorem solve_never_shows_stale_answer (w : World) :
  reachable w -> mounted w = true ->
  (solve_tab w = true -> solve_button_disabled (app w) = false ->
   let w' := step w ClickSolve in
   solution (app w') = VNull /\ isLoading (app w') = true /\
   display w' = None /\
   sent w' = sent w ++ [(next_request w, solve_request (question (app w)))] /\
   awaiting w' (next_request w) =
     Some [mkPending (next_request w) (solve_request (question (app w))) None])
  /\
  (forall id ps b,
     awaiting w id = Some ps -> map req ps = [api_post "/solve" b] ->
     solution (app w) = VNull /\ isLoading (app w) = true /\
     forall o,
       let w' := step w (Settle id o) in
       isLoading (app w') = false /\
       solution (app w') =
         match o with Ok r => data r | Failed _ => VNull end).
Proof.
  intros R M. pose proof (reachable_Inv w R) as I. split.
  - intros T D w'. subst w'. simpl. rewrite T, D. simpl.
    unfold solve_button_disabled in D. apply orb_false_iff in D.
    destruct D as [L B]. rewrite not_str_trim in B.
    destruct (handleSolve_awaits _ B) as [A P].
    unfold dispatch, awaiting. rewrite exec_prefix, A, P.
    unfold run_actions. cbn [fold_left].
    set (w2 := run_action (SetSolution VNull)
                 (run_action (SetIsLoading true) w)).
    assert (F : jobs w2 = jobs w /\ next_request w2 = next_request w /\
                sent w2 = sent w /\ mounted w2 = true /\
                solution (app w2) = VNull /\ isLoading (app w2) = true).
    { unfold w2. clear - M.
      destruct w as [m ap dp ni ts nr sn iv nt pl nw cs].
      simpl in M. subst m. simpl. auto 10. }
    destruct F as (F1 & F2 & F3 & F4 & F5 & F6).
    assert (V : shows_solution (suspend [solve_request (question (app w))]
                  (kont (handleSolve (question (app w)))) w2) = false).
    { unfold shows_solution. cbn [suspend mounted app]. rewrite F5. simpl.
      apply andb_false_r. }
    unfold reconcile. rewrite V.
    cbn [set_display suspend app display sent jobs next_request mounted].
    rewrite F1, F2, F3, F5, F6. repeat split.
    rewrite (awaiting_fresh w _ I). simpl. unfold unsettled. simpl.
    now rewrite Nat.eqb_refl.
  - intros id ps b A Q.
    destruct (reachable_settle w id (Failed VNull) ps R A)
      as (pre & t & post & l & p & E & P & W & St & I' & _).
    assert (S : is_solve t = true).
    { unfold is_solve. rewrite W.
      destruct ps as [|x [|y ps]]; try discriminate Q.
      simpl in Q. inversion Q as [Q']. simpl. now rewrite Q'. }
    destruct (solving_in_flight w pre post t I E S) as [L N].
    split; [exact N|]. split; [exact L|].
    clear pre t post l p E P W St I' S.
    intros o w'. subst w'.
    destruct (reachable_settle w id o ps R A)
      as (pre & t & post & l & p & E & P & W & St & I' & ->).
    subst ps. inversion St; subst; other_kind Q;
      cbn [List.app]; unfold dispatch, log; cbn [exec];
      match goal with
      | |- context [reconcile ?x] =>
          destruct (reconcile_frame x) as (_ & _ & _ & _ & _ & _ & _ & ->)
      end;
      clear - M N; destruct w as [m ap dp ni ts nr sn iv nt pl nw cs];
      simpl in M, N; subst m; simpl; auto.
Qed.

Lemma solve_never_shows_stale_answer_witness :
  let w := run mount [ChangeQuestion (str "2+2"); ClickSolve] in
  awaiting w 4 = Some [mkPending 4 (solve_request (str "2+2")) None] /\
  solution (app w) = VNull /\ isLoading (app w) = true /\
  forall o,
    let w' := step w (Settle 4 o) in
    isLoading (app w') = false /\
    solution (app w') = match o with Ok r => data r | Failed _ => VNull end.
Proof.
  intro w. split; [reflexivity|].
  assert (R : reachable w) by (apply reachable_run; constructor).
  destruct (solve_never_shows_stale_answer w R eq_refl) as [_ A].
  exact (A 4%nat _ _ eq_refl eq_refl).
Defined.

(** *** Submitting feedback *)

Lemma deliver_app (id : nat) (o : outcome) (l l' : list Job) :
  awaiting_in id l = None ->
  deliver id o (l ++ l') =
    (l ++ fst (deliver id o l'), snd (deliver id o l')).
Proof.
  induction l as [|t l IH]; simpl.
  - now destruct (deliver id o l').
  - destruct (existsb (unsettled id) (waiting t)); [discriminate|].
    intro H. now rewrite (IH H).
Qed.

(** A reply to the single request of the job queued last. *)
Lemma settle_last (x : World) (n : nat) (rq : request)
    (k : settled -> proc unit) (ts : list Job) (o : outcome) :
  jobs x = ts ++ [mkJob [mkPending n rq None] k] ->
  awaiting_in n ts = None ->
  settle n o x =
    dispatch (k match o with
                | Ok r => Fulfilled [r]
                | Failed e => Rejected e
                end) (set_jobs ts x).
Proof.
  intros E A. unfold settle. rewrite E, (deliver_app _ _ _ _ A).
  assert (U : unsettled n (mkPending n rq None) = true).
  { unfold unsettled. simpl. now rewrite Nat.eqb_refl. }
  cbn [deliver waiting existsb]. rewrite U. cbn [orb].
  rewrite settle_single. cbn [fst snd List.app]. now rewrite app_nil_r.
Qed.

Lemma logs_keep_view (w x : World) (m1 m2 : string) (e1 e2 : value) :
  Rendered w ->
  mounted x = mounted w -> app x = app w -> display x = display w ->
  let x' := dispatch (log m1 e1 (log m2 e2 (Ret tt))) x in
  display x' = display w /\ app x' = app w /\ sent x' = sent x /\
  mounted x' = mounted w.
Proof.
  intros R M A D x'. subst x'. unfold dispatch, log. cbn [exec].
  rewrite (Rendered_frame w); auto.
Qed.

Lemma suspend_keeps_view (w x : World) (rs : list request)
    (k : settled -> proc unit) :
  Rendered w ->
  mounted x = mounted w -> app x = app w -> display x = display w ->
  reconcile (suspend rs k x) = suspend rs k x.
Proof.
  intros R M A D. now apply (Rendered_frame w).
Qed.

(** The last step of a successful submission: the analytics are
    replaced and the form of the instance that submitted is hidden. *)
Lemma feedback_done_display (w x : World) (inst : nat) (v : value) :
  Rendered w ->
  mounted x = mounted w -> app x = app w -> display x = display w ->
  display (dispatch (Act (SetAnalytics v)
                       (Act (SetShowFeedback inst false) (Ret tt))) x) =
    match display w with
    | Some (j, d) =>
        if Nat.eqb inst j
        then Some (j, mkDisplay false (rating d) (comments d))
        else Some (j, d)
    | None => None
    end.
Proof.
  intros R M A D. unfold dispatch. cbn [exec].
  set (y := run_action (SetAnalytics v) x).
  assert (Y : shows_solution y = shows_solution w /\ display y = display w).
  { unfold y, shows_solution. simpl. unfold update_app.
    destruct (mounted x) eqn:Mx; simpl; rewrite ?Mx, M, A, D; now split. }
  destruct Y as [Y1 Y2].
  set (z := run_action (SetShowFeedback inst false) y).
  assert (Z : shows_solution z = shows_solution w /\
              display z = match display w with
                          | Some (j, d) =>
                              if Nat.eqb inst j
                              then Some (j, mkDisplay false (rating d) (comments d))
                              else Some (j, d)
                          | None => None
                          end).
  { unfold z. simpl. unfold update_display. rewrite Y2.
    destruct (display w) as [[j d]|] eqn:E.
    - destruct (Nat.eqb inst j); [|now split]. now split.
    - now split. }
  destruct Z as [Z1 Z2].
  rewrite (reconcile_same w z R Z1); [exact Z2|].
  rewrite Z2. destruct (display w) as [[j d]|]; [|tauto].
  destruct (Nat.eqb inst j); split; discriminate.
Qed.

Lemma hide_form (w x : World) (i : nat) (d : DisplayState) (v : value) :
  Rendered w -> display w = Some (i, d) ->
  mounted x = mounted w -> app x = app w -> display x = display w ->
  display (dispatch (Act (SetAnalytics v)
                       (Act (SetShowFeedback i false) (Ret tt))) x) =
    Some (i, mkDisplay false (rating d) (comments d)).
Proof.
  intros R E M A D. rewrite (feedback_done_display w x i v R M A D), E.
  now rewrite Nat.eqb_refl.
Qed.

Lemma fresh_later (w : World) (n : nat) :
  Inv w -> (next_request w <= n)%nat -> awaiting_in n (jobs w) = None.
Proof.
  intros I L. apply awaiting_absent. intro H.
  pose proof (inv_fresh w I) as F. rewrite Forall_forall in F.
  specialize (F _ H). lia.
Qed.

(** Submitting the form on the page, reply by reply. *)
Lemma submit_scenario (w : World) (i : nat) (d : DisplayState) :
  reachable w -> display w = Some (i, d) -> showFeedback d = true ->
  let n := next_request w in
  let w1 := step w ClickSubmitFeedback in
  display w1 = Some (i, d) /\
  (forall e, display (step w1 (Settle n (Failed e))) = Some (i, d)) /\
  (forall r, display (step w1 (Settle n (Ok r))) = Some (i, d)) /\
  (forall r e,
     display (run w1 [Settle n (Ok r); Settle (n + 1) (Failed e)]) =
       Some (i, d)) /\
  (forall r r',
     display (run w1 [Settle n (Ok r); Settle (n + 1) (Ok r')]) =
       Some (i, mkDisplay false (rating d) (comments d))).
Proof.
  intros R E F n w1.
  pose proof (reachable_Inv w R) as I.
  pose proof (reachable_Rendered w R) as Rd.
  pose proof (Rendered_shown w i d Rd E) as V.
  unfold shows_solution in V. apply andb_true_iff in V. destruct V as [_ V].
  destruct (truthy_member _ "session_id" V) as [sid G].
  destruct (handleFeedbackSubmit_awaits i _ sid (rating d) (comments d) G)
    as [P A].
  set (k1 := kont (handleFeedbackSubmit i (solution (app w)) (rating d)
                     (comments d))) in *.
  assert (E1 : w1 = suspend (awaits (handleFeedbackSubmit i (solution (app w))
                      (rating d) (comments d))) k1 w).
  { unfold w1. simpl. rewrite E, F. unfold dispatch.
    rewrite exec_prefix, P. rewrite A at 1. simpl run_actions.
    rewrite A. now apply (suspend_keeps_view w). }
  rewrite A in E1. clearbody w1. subst w1.
  assert (S1 : forall o,
    step (suspend [api_post "/feedback"
            (VObj [("session_id", sid); ("rating", VNum (inject_Z (rating d)));
                   ("comments", VObj (comments d))])] k1 w) (Settle n o) =
    dispatch (k1 match o with Ok r => Fulfilled [r] | Failed e => Rejected e end)
      (set_jobs (jobs w)
         (suspend [api_post "/feedback"
            (VObj [("session_id", sid); ("rating", VNum (inject_Z (rating d)));
                   ("comments", VObj (comments d))])] k1 w))).
  { intro o. simpl step. apply settle_last with (rq := api_post "/feedback"
      (VObj [("session_id", sid); ("rating", VNum (inject_Z (rating d)));
             ("comments", VObj (comments d))])).
    - reflexivity.
    - apply (fresh_later w n I). unfold n. lia. }
  split; [exact E|]. split; [|split].
  - intro e. rewrite S1. unfold k1. rewrite (kont_post _ _ sid _ _ _ G).
    rewrite <- E. eapply proj1. now apply (logs_keep_view w).
  - intro r. rewrite S1. unfold k1. rewrite (kont_post _ _ sid _ _ _ G).
    unfold dispatch. cbn [exec].
    rewrite (suspend_keeps_view w); auto.
  - assert (S2 : forall r o,
      run (suspend [api_post "/feedback"
             (VObj [("session_id", sid); ("rating", VNum (inject_Z (rating d)));
                    ("comments", VObj (comments d))])] k1 w)
          [Settle n (Ok r); Settle (n + 1) o] =
      dispatch (kont (k1 (Fulfilled [r]))
                  match o with Ok r' => Fulfilled [r'] | Failed e => Rejected e end)
        (set_jobs (jobs w)
           (suspend [api_get "/feedback/analytics"] (kont (k1 (Fulfilled [r])))
              (set_jobs (jobs w)
                 (suspend [api_post "/feedback"
                    (VObj [("session_id", sid);
                           ("rating", VNum (inject_Z (rating d)));
                           ("comments", VObj (comments d))])] k1 w))))).
    { intros r o. unfold run. cbn [fold_left]. rewrite S1.
      unfold k1 at 1. rewrite (kont_post _ _ sid _ _ _ G).
      unfold dispatch at 1. cbn [exec].
      rewrite (suspend_keeps_view w); auto.
      simpl step. apply settle_last with (rq := api_get "/feedback/analytics").
      - reflexivity.
      - apply (fresh_later w (n + 1) I). unfold n. lia. }
    split.
    + intros r e. rewrite S2. unfold k1.
      rewrite (kont_get _ _ sid _ _ _ _ G).
      rewrite <- E. eapply proj1. now apply (logs_keep_view w).
    + intros r r'. rewrite S2. unfold k1.
      rewrite (kont_get _ _ sid _ _ _ _ G). now apply (hide_form w).
Qed.

(** C10. While a submission waits for the reply to its POST or to the
    GET of the analytics: a failure leaves the feedback form (open or
    not, rating, comments) and the state of [App] as they are; the
    success of the POST leaves the form as it is too; and the success of
    the GET either leaves the form as it is or hides it with rating and
    comments kept.  For the form on the page: after the click on submit
    the form is still open; it stays open with the rating and comments
    entered when the POST fails and when the POST succeeds but the GET
    fails; and it is hidden, rating and comments kept, once both have
    succeeded. *)
Theorem failed_feedback_keeps_form (w : World) :
  reachable w ->
  (forall id ps,
     awaiting w id = Some ps ->
     (exists b, map req ps = [api_post "/feedback" b]) \/
     map req ps = [api_get "/feedback/analytics"] ->
     (forall e,
        let w' := step w (Settle id (Failed e)) in
        display w' = display w /\ app w' = app w) /\
     (forall r,
        let w' := step w (Settle id (Ok r)) in
        display w' = display w \/
        (map req ps = [api_get "/feedback/analytics"] /\
         exists i d,
           display w = Some (i, d) /\
           display w' = Some (i, mkDisplay false (rating d) (comments d)))))
  /\
  (forall i d,
     display w = Some (i, d) -> showFeedback d = true ->
     let n := next_request w in
     let w1 := step w ClickSubmitFeedback in
     display w1 = Some (i, d) /\
     (forall e, display (step w1 (Settle n (Failed e))) = Some (i, d)) /\
     (forall r, display (step w1 (Settle n (Ok r))) = Some (i, d)) /\
     (forall r e,
        display (run w1 [Settle n (Ok r); Settle (n + 1) (Failed e)]) =
          Some (i, d)) /\
     (forall r r',
        display (run w1 [Settle n (Ok r); Settle (n + 1) (Ok r')]) =
          Some (i, mkDisplay false (rating d) (comments d)))).
Proof.
  intro R. pose proof (reachable_Rendered w R) as Rd.
  split; [|intros i d E F; now apply submit_scenario].
  intros id ps A Q. split.
  - intros e w'. subst w'.
    destruct (reachable_settle w id (Failed e) ps R A)
      as (pre & t & post & l & p & E & P & W & St & I & ->).
    subst ps.
    inversion St; subst; destruct Q as [[b' Q]|Q]; other_kind Q;
      cbn [List.app];
      match goal with
      | |- display (dispatch ?k ?x) = _ /\ _ =>
          destruct (logs_keep_view w x
            "Failed to submit feedback:" "Feedback submission failed:" e e
            Rd eq_refl eq_refl eq_refl) as (D1 & D2 & _)
      end; now split.
  - intros r w'. subst w'.
    destruct (reachable_settle w id (Ok r) ps R A)
      as (pre & t & post & l & p & E & P & W & St & I & ->).
    subst ps.
    inversion St; subst; destruct Q as [[b' Q]|Q]; other_kind Q;
      cbn [List.app].
    + left. unfold dispatch. cbn [exec].
      now rewrite (suspend_keeps_view w).
    + rewrite (feedback_done_display w (set_jobs (pre ++ post) w) inst
                 (data r) Rd eq_refl eq_refl eq_refl).
      destruct (display w) as [[j d]|]; [|now left].
      destruct (Nat.eqb inst j); [right|now left].
      split; [reflexivity|]. now exists j, d.
Qed.

Lemma failed_feedback_keeps_form_witness :
  let w := run mount [ChangeQuestion (str "2+2"); ClickSolve;
                      Settle 4 (Ok (mkResponse sample_solution));
                      ClickFeedbackToggle; ClickStar 2;
                      ChangeAccuracy (str "ok")] in
  let d := mkDisplay true 3
             [("clarity", VStr []); ("accuracy", VStr (str "ok"));
              ("completeness", VStr [])] in
  let w1 := step w ClickSubmitFeedback in
  display w = Some (0%nat, d) /\
  display w1 = Some (0%nat, d) /\
  (forall e, display (step w1 (Settle 5 (Failed e))) = Some (0%nat, d)) /\
  (forall r, display (step w1 (Settle 5 (Ok r))) = Some (0%nat, d)) /\
  (forall r e,
     display (run w1 [Settle 5 (Ok r); Settle 6 (Failed e)]) =
       Some (0%nat, d)) /\
  (forall r r',
     display (run w1 [Settle 5 (Ok r); Settle 6 (Ok r')]) =
       Some (0%nat, mkDisplay false 3 (comments d))).
Proof.
  intros w d w1. split; [reflexivity|].
  assert (R : reachable w) by (apply reachable_run; constructor).
  destruct (failed_feedback_keeps_form w R) as [_ A].
  exact (A 0%nat d eq_refl eq_refl).
Defined.

(** ** Further properties of the code *)

(** *** The question that is sent *)

Lemma trimStart_split (s : jsstring) :
  exists a, s = a ++ trimStart s /\ forallb isWhiteSpace a = true.
Proof.
  induction s as [|c s IH]; simpl.
  - now exists [].
  - destruct (isWhiteSpace c) eqn:E.
    + destruct IH as (a & Ha & Wa). exists (c :: a). simpl.
      rewrite E, Wa. split; [now f_equal|reflexivity].
    + now exists [].
Qed.

Lemma trimStart_head (s : jsstring) :
  match trimStart s with
  | c :: _ => isWhiteSpace c = false
  | [] => True
  end.
Proof.
  induction s as [|c s IH]; simpl; [exact I|].
  destruct (isWhiteSpace c) eqn:E; [exact IH|exact E].
Qed.

Lemma trimEnd_split (s : jsstring) :
  exists b, s = trimEnd s ++ b /\ forallb isWhiteSpace b = true.
Proof.
  unfold trimEnd. destruct (trimStart_split (rev s)) as (a & Ha & Wa).
  exists (rev a). split.
  - rewrite <- rev_app_distr, <- Ha. now rewrite rev_involutive.
  - now rewrite forallb_rev.
Qed.

Lemma trimStart_fixed (s : jsstring) :
  match s with c :: _ => isWhiteSpace c = false | [] => True end ->
  trimStart s = s.
Proof.
  destruct s as [|c s]; simpl; [reflexivity|]. now intros ->.
Qed.

Lemma trim_spec (s : jsstring) :
  exists a b,
    s = a ++ trim s ++ b /\
    forallb isWhiteSpace a = true /\ forallb isWhiteSpace b = true /\
    trimmed (trim s).
Proof.
  destruct (trimStart_split s) as (a & Ha & Wa).
  destruct (trimEnd_split (trimStart s)) as (b & Hb & Wb).
  exists a, b. unfold trim. split; [now rewrite <- Hb|].
  split; [exact Wa|]. split; [exact Wb|]. split.
  - pose proof (trimStart_head s) as H. rewrite Hb in H.
    destruct (trimEnd (trimStart s)); [exact I|exact H].
  - unfold trimEnd. rewrite rev_involutive. apply trimStart_head.
Qed.

Lemma trim_fixed (t : jsstring) : trimmed t -> trim t = t.
Proof.
  intros [H1 H2]. unfold trim, trimEnd.
  rewrite (trimStart_fixed t H1), (trimStart_fixed (rev t) H2).
  apply rev_involutive.
Qed.

(** X1. The question that [handleSolve] sends is the typed text with the
    white space at its two ends removed and nothing else: the text is
    [a ++ t ++ b] with [a] and [b] all white space, [t] is not empty and
    neither starts nor ends with white space, and [t] is what the
    request carries. *)
Theorem solve_sends_question_without_outer_space (q : jsstring) (w : World) :
  forallb isWhiteSpace q = false ->
  exists a t b,
    q = a ++ t ++ b /\
    forallb isWhiteSpace a = true /\ forallb isWhiteSpace b = true /\
    trimmed t /\ t <> [] /\
    sent (exec (handleSolve q) w) =
      sent w ++ [(next_request w,
                  api_post "/solve"
                    (VObj [("question", VStr t); ("use_mcp", VBool true)]))].
Proof.
  intro H. destruct (trim_spec q) as (a & b & E & Wa & Wb & T).
  exists a, (trim q), b. repeat split; try assumption; try apply T.
  - intro Z. rewrite <- not_str_trim, Z in H. discriminate H.
  - destruct (handleSolve_awaits q H) as [A P].
    rewrite exec_prefix, A. simpl.
    now destruct (run_actions_frame (prefix (handleSolve q)) w) as (-> & -> & _).
Qed.

Lemma solve_sends_question_without_outer_space_witness :
  exists a t b,
    str "  d/dx x^2 " = a ++ t ++ b /\
    forallb isWhiteSpace a = true /\ forallb isWhiteSpace b = true /\
    trimmed t /\ t <> [] /\
    sent (exec (handleSolve (str "  d/dx x^2 ")) mount) =
      sent mount ++ [(next_request mount,
                      api_post "/solve"
                        (VObj [("question", VStr t); ("use_mcp", VBool true)]))].
Proof.
  exact (solve_sends_question_without_outer_space (str "  d/dx x^2 ") mount
           eq_refl).
Defined.

(** X2. Trimming is idempotent, so the text a solve request carries is
    itself a question that sends the same request: [handleSolve] issues
    the same requests and state updates for a question and for its
    trimmed form. *)
Theorem solve_request_of_trimmed_question (q : jsstring) :
  trim (trim q) = trim q /\
  awaits (handleSolve (trim q)) = awaits (handleSolve q) /\
  prefix (handleSolve (trim q)) = prefix (handleSolve q).
Proof.
  assert (E : trim (trim q) = trim q).
  { destruct (trim_spec q) as (_ & _ & _ & _ & _ & T). now apply trim_fixed. }
  split; [exact E|]. unfold handleSolve. rewrite E.
  destruct (not_str (trim q)); split; reflexivity.
Qed.

(** *** The solution text *)

Lemma split_lines_cons (text : jsstring) :
  exists line more, split_lines text = line :: more.
Proof.
  induction text as [|c text IH]; simpl.
  - now exists [], [].
  - destruct (c =? 10)%N; [now exists [], (split_lines text)|].
    destruct IH as (l & m & ->). now exists (c :: l), m.
Qed.

Lemma join_lines_cons (a b : jsstring) (m : list jsstring) :
  join_lines (a :: b :: m) = a ++ 10%N :: join_lines (b :: m).
Proof. reflexivity. Qed.

Lemma join_split (text : jsstring) : join_lines (split_lines text) = text.
Proof.
  induction text as [|c text IH]; simpl; [reflexivity|].
  destruct (split_lines_cons text) as (l & m & E). rewrite E in *.
  destruct (N.eqb_spec c 10) as [->|N].
  - now rewrite join_lines_cons, IH.
  - destruct m as [|b m]; [simpl in *; now rewrite IH|].
    rewrite join_lines_cons in *. now rewrite <- IH.
Qed.

Lemma split_lines_count (text : jsstring) :
  List.length (split_lines text) = S (count_occ N.eq_dec text 10%N).
Proof.
  induction text as [|c text IH]; simpl; [reflexivity|].
  destruct (N.eqb_spec c 10) as [->|N].
  - simpl. destruct (N.eq_dec 10 10); [now rewrite IH|contradiction].
  - destruct (N.eq_dec c 10); [contradiction|].
    destruct (split_lines_cons text) as (l & m & E). rewrite E in *.
    exact IH.
Qed.

Lemma split_lines_no_newline (text line : jsstring) :
  In line (split_lines text) -> ~ In 10%N line.
Proof.
  revert line. induction text as [|c text IH]; simpl; intros line H.
  - destruct H as [<-|[]]. intros [].
  - destruct (N.eqb_spec c 10) as [->|N].
    + destruct H as [<-|H]; [intros []|now apply IH].
    + destruct (split_lines_cons text) as (l & m & E). rewrite E in *.
      destruct H as [<-|H].
      * intros [C|C]; [contradiction|].
        revert C. apply IH. now left.
      * apply IH. now right.
Qed.

(** X3. The solution text is shown line by line: the paragraphs are the
    lines of [solution.solution] in order, so joining them with line
    feeds gives the text back; there is one more paragraph than there
    are line feeds, none holds a line feed, and a paragraph has class
    solution-break exactly when it is empty or all white space and
    solution-line otherwise. *)
Theorem solution_content_lines (solution : value) (text : jsstring) :
  get_member solution "solution" = Some (VStr text) ->
  exists ps,
    solution_content solution = Some ps /\
    join_lines (map snd ps) = text /\
    List.length ps = S (count_occ N.eq_dec text 10%N) /\
    forall c line, In (c, line) ps ->
      ~ In 10%N line /\
      (forallb isWhiteSpace line = true -> c = "solution-break") /\
      (forallb isWhiteSpace line = false -> c = "solution-line").
Proof.
  intro G. unfold solution_content. rewrite G. eexists. split; [reflexivity|].
  split; [|split].
  - rewrite map_map. simpl. rewrite map_id. apply join_split.
  - rewrite length_map. apply split_lines_count.
  - intros c line H. apply in_map_iff in H. destruct H as (l & E & I).
    assert (T : (if truthy (VStr (trim l)) then "solution-line"
                 else "solution-break") =
                if forallb isWhiteSpace l then "solution-break"
                else "solution-line").
    { rewrite <- not_str_trim. simpl. now destruct (trim l). }
    rewrite T in E. inversion E; subst.
    split; [now apply (split_lines_no_newline text)|].
    split; intros ->; reflexivity.
Qed.

Lemma solution_content_lines_witness :
  exists ps,
    solution_content
      (VObj [("solution", VStr (str "Step 1" ++ [10; 10; 32] ++ str "x = 2")%N)])
      = Some ps /\
    join_lines (map snd ps) = (str "Step 1" ++ [10; 10; 32] ++ str "x = 2")%N /\
    List.length ps =
      S (count_occ N.eq_dec (str "Step 1" ++ [10; 10; 32] ++ str "x = 2")%N 10%N) /\
    forall c line, In (c, line) ps ->
      ~ In 10%N line /\
      (forallb isWhiteSpace line = true -> c = "solution-break") /\
      (forallb isWhiteSpace line = false -> c = "solution-line").
Proof.
  exact (solution_content_lines
           (VObj [("solution", VStr (str "Step 1" ++ [10; 10; 32] ++ str "x = 2")%N)])
           _ eq_refl).
Defined.

(** X4. What [SolutionDisplay] needs of a Solution to render: the
    guardrail panel renders exactly when [solution.guardrails_passed] is
    there and is neither [undefined] nor [null], and the solution text
    exactly when [solution.solution] is a string; otherwise rendering
    throws a TypeError. *)
Theorem solution_render_requirements (solution : value) :
  (guardrails_panel solution <> None <->
   exists v, get_member solution "guardrails_passed" = Some v /\
             v <> VUndefined /\ v <> VNull) /\
  (solution_content solution <> None <->
   exists text, get_member solution "solution" = Some (VStr text)).
Proof.
  split; split.
  - unfold guardrails_panel.
    destruct (get_member solution "guardrails_passed") as [v|];
      [|intro H; now elim H].
    intro H. exists v. split; [reflexivity|].
    split; intros ->; apply H; reflexivity.
  - intros (v & G & U & N). unfold guardrails_panel. rewrite G.
    destruct v; try (now elim U); try (now elim N); simpl; discriminate.
  - unfold solution_content.
    destruct (get_member solution "solution") as [[]|];
      try (intro H; now elim H).
    intros _. now exists s.
  - intros (text & G). unfold solution_content. rewrite G. discriminate.
Qed.

(** *** Source badges *)

Lemma replace_spaces_from_spaceless (b : bool) (s : jsstring) :
  spaceless (replace_spaces_from b s) = true.
Proof.
  revert b. induction s as [|c s IH]; intro b; simpl; [reflexivity|].
  destruct (isWhiteSpace c) eqn:E.
  - destruct b; [apply IH|]. simpl. apply IH.
  - simpl. rewrite E. apply IH.
Qed.

Lemma replace_spaces_from_id (b : bool) (s : jsstring) :
  spaceless s = true -> replace_spaces_from b s = s.
Proof.
  revert b. induction s as [|c s IH]; intro b; simpl; [reflexivity|].
  destruct (isWhiteSpace c); simpl; [discriminate|].
  intro H. now rewrite IH.
Qed.

Lemma replace_spaces_from_length (b : bool) (s : jsstring) :
  (List.length (replace_spaces_from b s) <= List.length s)%nat.
Proof.
  revert b. induction s as [|c s IH]; intro b; simpl; [lia|].
  destruct (isWhiteSpace c).
  - destruct b; simpl; [specialize (IH true); lia|].
    specialize (IH true). lia.
  - simpl. specialize (IH false). lia.
Qed.


Lemma all_some_map {A B} (f : A -> option B) (l : list A) (r : list B) :
  all_some (map f l) = Some r <-> Forall2 (fun x y => f x = Some y) l r.
Proof.
  revert r. induction l as [|x l IH]; intro r; simpl.
  - split; intro H; [inversion H; constructor|now inversion H].
  - destruct (f x) as [y|] eqn:E.
    + destruct (all_some (map f l)) as [r'|] eqn:R.
      * split; intro H.
        -- inversion H; subst. constructor; [exact E|]. now apply IH.
        -- inversion H; subst. rewrite E in H2. inversion H2; subst.
           apply IH in H4. now inversion H4.
      * split; intro H; [discriminate|].
        inversion H; subst. apply IH in H4. discriminate.
    + split; intro H; [discriminate|].
      inversion H; subst. rewrite E in H2. discriminate.
Qed.

(** X6. The source badges render exactly when [solution.sources] is an
    array of strings, and then there is one badge per source, in the
    order of the array, each showing the source text itself; any other
    [sources] (missing, not an array, an element that is not a string)
    makes rendering throw. *)
Theorem source_badges_follow_sources
    (toLowerCase : jsstring -> jsstring) (solution : value)
    (badges : list (jsstring * jsstring)) :
  source_badges toLowerCase solution = Some badges <->
  exists sources,
    get_member solution "sources" = Some (VArr (map VStr sources)) /\
    badges =
      map (fun s => (str "source-badge " ++ replace_spaces (toLowerCase s), s))
          sources.
Proof.
  unfold source_badges. split.
  - destruct (get_member solution "sources") as [[]|]; try discriminate.
    intro H. apply all_some_map in H.
    exists (map snd badges).
    induction H as [|x y l r F _ IH]; [now split|].
    destruct IH as [E1 E2].
    destruct x; try discriminate F. inversion F; subst. simpl.
    inversion E1 as [E1']. rewrite <- E1'. split; [reflexivity|].
    f_equal. exact E2.
  - intros (sources & G & ->). rewrite G. apply all_some_map.
    clear G. induction sources; simpl; constructor; auto.
Qed.

(** *** The analytics dashboard *)

(** X7. A component name is shown with its first underscore, and only
    the first, turned into a space: the length is kept, a name without
    an underscore is shown as it is, and in any other name everything
    after the first underscore, further underscores included, stays as
    it was. *)
Theorem component_name_first_underscore (s : jsstring) :
  List.length (replace_underscore s) = List.length s /\
  (~ In 95%N s -> replace_underscore s = s) /\
  (In 95%N s ->
   exists pre post,
     s = pre ++ 95%N :: post /\ ~ In 95%N pre /\
     replace_underscore s = pre ++ 32%N :: post).
Proof.
  induction s as [|c s (L & U & F)]; simpl.
  - repeat split; auto. intros [].
  - destruct (N.eqb_spec c 95) as [->|N].
    + split; [reflexivity|]. split; [intro H; elim H; now left|].
      intros _. exists [], s. repeat split. intros [].
    + split; [simpl; now rewrite L|]. split.
      * intro H. rewrite U; [reflexivity|]. intro I. apply H. now right.
      * intros [C|I]; [congruence|].
        destruct (F I) as (pre & post & E & P & R).
        exists (c :: pre), post. simpl. rewrite E at 1. rewrite R.
        repeat split. intros [C|C]; [congruence|contradiction].
Qed.

Lemma firstn_3_length {A} (l : list A) :
  List.length (firstn 3 l) = Nat.min 3 (List.length l).
Proof. apply length_firstn. Qed.

(** X8. The tools list shows at most three tools, the first three of
    [mcpTools.tools] in order (later ones are not looked at, so they
    cannot break the rendering); each description is cut to its first 40
    code units and always followed by three dots, also when it was
    shorter, so a shown description has at most 43 code units. *)
Theorem tools_list_shows_first_three (mcpTools : value)
    (shown : list (value * jsstring)) :
  tools_list mcpTools = Some (Some shown) ->
  exists tools,
    optional_member mcpTools "tools" = VArr tools /\
    List.length shown = Nat.min 3 (List.length tools) /\
    Forall2 (fun tool item =>
               get_member tool "name" = Some (fst item) /\
               exists d, get_member tool "description" = Some (VStr d) /\
                         snd item = firstn 40 d ++ str "..." /\
                         (List.length (snd item) <= 43)%nat)
            (firstn 3 tools) shown.
Proof.
  unfold tools_list. destruct (truthy (optional_member mcpTools "tools"));
    [|discriminate].
  destruct (optional_member mcpTools "tools"); try discriminate.
  destruct (all_some (map tool_item (firstn 3 items))) as [r|] eqn:E;
    [|discriminate].
  intro H. inversion H; subst. apply all_some_map in E.
  exists items. split; [reflexivity|]. split.
  - rewrite <- firstn_3_length. symmetry.
    clear - E. induction E; simpl; auto.
  - clear H. induction E as [|tool item l r F _ IH]; constructor; [|exact IH].
    unfold tool_item in F.
    destruct (get_member tool "name") as [n|]; [|discriminate].
    destruct (get_member tool "description") as [[]|]; try discriminate.
    destruct item as [n' d'].
    assert (Q : n' = n /\ d' = firstn 40 s ++ str "...") by (split; congruence).
    destruct Q as [-> ->]. unfold fst, snd. split; [reflexivity|].
    exists s. split; [reflexivity|]. split; [reflexivity|].
    rewrite length_app, length_firstn.
    change (List.length (str "...")) with 3%nat. lia.
Qed.

Lemma tools_list_shows_first_three_witness :
  let tool (n : string) (d : string) :=
    VObj [("name", VStr (str n)); ("description", VStr (str d))] in
  let tools :=
    [tool "add" "Adds two numbers";
     tool "integrate" "Computes the definite or indefinite integral of f";
     tool "solve" "Solves";
     VNull] in
  exists shown,
    tools_list (VObj [("available", VBool true); ("tools", VArr tools)]) =
      Some (Some shown) /\
    List.length shown = 3%nat /\
    map snd shown =
      [str "Adds two numbers...";
       str "Computes the definite or indefinite inte...";
       str "Solves..."].
Proof.
  intros tool tools.
  destruct (tools_list (VObj [("available", VBool true); ("tools", VArr tools)]))
    as [[shown|]|] eqn:E; try discriminate E.
  exists shown. split; [reflexivity|].
  destruct (tools_list_shows_first_three _ shown E) as (ts & T & L & _).
  inversion T; subst ts. split; [exact L|].
  vm_compute in E. now inversion E.
Defined.

Lemma react_child_or_else (v : value) (d : jsstring) :
  react_child (or_else v (VStr d)) = react_child v.
Proof.
  unfold or_else. destruct (truthy v) eqn:T; [reflexivity|].
  destruct v; try reflexivity; discriminate T.
Qed.

(** X9. [Header] renders exactly when the status it shows is something
    React takes as a child: any [systemStatus] whose [status] is not an
    object (and no array holding one), [null] before the first refresh
    included; a truthy object as [status] makes the render throw.  When
    it renders, a missing or falsy status gives the dot [loading] and
    the text [Loading...], any other status is shown as it is; the MCP
    card is left out exactly when [mcp_available] is [undefined], and
    otherwise says Active for a truthy and Inactive for a falsy value,
    [null] included. *)
Theorem Header_renders_valid_status (systemStatus : value) :
  (Header systemStatus <> None <->
   react_child (optional_member systemStatus "status") = true) /\
  (forall view, Header systemStatus = Some view ->
     (truthy (optional_member systemStatus "status") = false ->
      status_dot view = VStr (str "loading") /\
      status_value view = VStr (str "Loading...")) /\
     (truthy (optional_member systemStatus "status") = true ->
      status_dot view = optional_member systemStatus "status" /\
      status_value view = optional_member systemStatus "status") /\
     (mcp_card view = None <->
      optional_member systemStatus "mcp_available" = VUndefined) /\
     (optional_member systemStatus "mcp_available" <> VUndefined ->
      mcp_card view =
        Some (if truthy (optional_member systemStatus "mcp_available")
              then ("status-dot healthy", "Active")
              else ("status-dot degraded", "Inactive")))) /\
  Header VNull =
    Some (mkHeaderView (VStr (str "loading")) (VStr (str "Loading...")) None) /\
  (forall fields, Header (VObj [("status", VObj fields)]) = None).
Proof.
  split; [|split; [|split; [reflexivity|reflexivity]]].
  - unfold Header. rewrite react_child_or_else.
    destruct (react_child (optional_member systemStatus "status"));
      [|split; [intro H; now elim H|discriminate]].
    split; [reflexivity|]. intros _.
    unfold optional_member.
    destruct (get_member systemStatus "mcp_available") as [a|];
      [destruct a|]; discriminate.
  - intros view. unfold Header. rewrite react_child_or_else.
    destruct (react_child (optional_member systemStatus "status"));
      [|discriminate].
    unfold optional_member, or_else.
    destruct (get_member systemStatus "mcp_available") as [a|] eqn:G.
    + destruct (truthy match get_member systemStatus "status" with
                       | Some x => x | None => VUndefined end) eqn:T;
        destruct a; intro E; inversion E; subst view; simpl;
        repeat split; try discriminate; try reflexivity; try tauto;
        try (intro H; now elim H).
    + intro E. inversion E; subst view. simpl.
      assert (S : get_member systemStatus "status" = None).
      { destruct systemStatus; simpl in *; try discriminate; reflexivity. }
      rewrite S. simpl. repeat split; try discriminate; try tauto.
Qed.

(** *** Every event as one call of a handler *)

Lemma dispatch_idle (w x : World) :
  Rendered w ->
  mounted x = mounted w -> app x = app w -> display x = display w ->
  dispatch (Ret tt) x = x.
Proof.
  intros R M A D. unfold dispatch. simpl. now apply (Rendered_frame w).
Qed.

Lemma step_reaction (w : World) (e : event) :
  reachable w -> e <> Tick -> e <> Unmount ->
  exists js p,
    reaction w e js (prefix p) (awaits p) /\
    step w e = dispatch p (set_jobs js w).
Proof.
  intros R NT NU.
  pose proof (reachable_Inv w R) as I.
  pose proof (reachable_Rendered w R) as Rd.
  assert (Idle : exists js p,
            reaction w e js (prefix p) (awaits p) /\
            w = dispatch p (set_jobs js w)).
  { exists (jobs w), (Ret tt). split; [apply react_none|].
    now rewrite set_jobs_same, (dispatch_idle w w Rd). }
  destruct e; simpl; try congruence.
  - destruct (solve_tab w) eqn:T; simpl; [|exact Idle].
    destruct (isLoading (app w)) eqn:L; simpl; [exact Idle|].
    exists (jobs w), (perform (SetQuestion v)).
    rewrite set_jobs_same. split; [now apply react_question|reflexivity].
  - destruct (solve_tab w) eqn:T; simpl; [|exact Idle].
    destruct (solve_button_disabled (app w)) eqn:D; simpl; [exact Idle|].
    unfold solve_button_disabled in D. apply orb_false_iff in D.
    destruct D as [L B]. rewrite not_str_trim in B.
    destruct (handleSolve_awaits _ B) as [A P].
    exists (jobs w), (handleSolve (question (app w))).
    rewrite set_jobs_same, A, P. split; [now apply react_solve|reflexivity].
  - destruct (mounted w) eqn:M; [|exact Idle].
    exists (jobs w), (perform (SetActiveTab "solve")).
    rewrite set_jobs_same. split; [now apply react_solve_tab|reflexivity].
  - destruct (mounted w) eqn:M; [|exact Idle].
    exists (jobs w), (perform (SetActiveTab "analytics")).
    rewrite set_jobs_same. split; [now apply react_analytics_tab|reflexivity].
  - destruct (display w) as [[i d]|] eqn:E; [|exact Idle].
    exists (jobs w), (perform (SetShowFeedback i (negb (showFeedback d)))).
    rewrite set_jobs_same. split; [now apply react_toggle|reflexivity].
  - destruct (display w) as [[i d]|] eqn:E; [|exact Idle].
    destruct (showFeedback d) eqn:F; [|exact Idle].
    destruct (nth_error stars n) as [star|] eqn:S; [|exact Idle].
    exists (jobs w), (perform (SetRating i star)).
    rewrite set_jobs_same. split; [now apply (react_star w i d)|reflexivity].
  - destruct (display w) as [[i d]|] eqn:E; [|exact Idle].
    destruct (showFeedback d) eqn:F; [|exact Idle].
    eexists (jobs w), (perform _).
    rewrite set_jobs_same. split; [now apply (react_clarity w i d)|reflexivity].
  - destruct (display w) as [[i d]|] eqn:E; [|exact Idle].
    destruct (showFeedback d) eqn:F; [|exact Idle].
    eexists (jobs w), (perform _).
    rewrite set_jobs_same. split; [now apply (react_accuracy w i d)|reflexivity].
  - destruct (display w) as [[i d]|] eqn:E; [|exact Idle].
    destruct (showFeedback d) eqn:F; [|exact Idle].
    eexists (jobs w), (perform _).
    rewrite set_jobs_same.
    split; [now apply (react_completeness w i d)|reflexivity].
  - destruct (display w) as [[i d]|] eqn:E; [|exact Idle].
    destruct (showFeedback d) eqn:F; [|exact Idle].
    pose proof (Rendered_shown w i d Rd E) as V.
    unfold shows_solution in V. apply andb_true_iff in V. destruct V as [_ V].
    destruct (truthy_member _ "session_id" V) as [sid G].
    destruct (handleFeedbackSubmit_awaits i _ sid (rating d) (comments d) G)
      as [P A].
    eexists (jobs w), (handleFeedbackSubmit i _ (rating d) (comments d)).
    rewrite set_jobs_same, A, P.
    split; [now apply (react_submit w i d)|reflexivity].
  - pose proof (settle_cases w id o (inv_jobs w I)) as C.
    destruct (awaiting w id) as [ps|]; [|rewrite C; exact Idle].
    destruct C as (pre & t & post & l & p & E & P & W & St & ->).
    exists (pre ++ l ++ post), (match p with Some k => k | None => Ret tt end).
    split.
    + pose proof (react_settle w id o pre t post l p E P St) as Re.
      now destruct p.
    + destruct p; [reflexivity|].
      symmetry. now apply (dispatch_idle w).
Qed.

Lemma console_reconcile (w : World) : console (reconcile w) = console w.
Proof.
  unfold reconcile. destruct (shows_solution w); [destruct (display w)|];
    reflexivity.
Qed.

(** What a call of a handler does, read off its first segment. *)
Lemma dispatch_effect (p : proc unit) (x : World) :
  sent (dispatch p x) =
    sent x ++ combine (seq (next_request x) (List.length (awaits p))) (awaits p) /\
  next_request (dispatch p x) = (next_request x + List.length (awaits p))%nat /\
  app (dispatch p x) = app (run_actions (prefix p) x) /\
  console (dispatch p x) = console (run_actions (prefix p) x) /\
  mounted (dispatch p x) = mounted x /\
  jobs (dispatch p x) =
    jobs x ++ match awaits p with
              | [] => []
              | rs => [mkJob (pendings (next_request x) rs) (kont p)]
              end.
Proof.
  unfold dispatch. rewrite console_reconcile.
  destruct (reconcile_frame (exec p x)) as (-> & -> & -> & _ & _ & _ & _ & ->).
  assert (M : mounted (reconcile (exec p x)) = mounted x).
  { destruct (reconcile_frame (exec p x)) as (_ & _ & _ & _ & -> & _).
    now destruct (exec_frame p x) as (_ & -> & _). }
  rewrite M, exec_prefix.
  destruct (run_actions_frame (prefix p) x) as (S & N & J & _).
  destruct (awaits p) as [|r rs]; simpl.
  - rewrite S, N, J, !app_nil_r. repeat split; auto.
  - rewrite S, N, J. repeat split; auto.
Qed.

Lemma step_effect (w : World) (e : event) :
  reachable w -> e <> Tick -> e <> Unmount ->
  exists js acts rs k,
    reaction w e js acts rs /\
    sent (step w e) =
      sent w ++ combine (seq (next_request w) (List.length rs)) rs /\
    next_request (step w e) = (next_request w + List.length rs)%nat /\
    app (step w e) = app (run_actions acts (set_jobs js w)) /\
    console (step w e) = console (run_actions acts (set_jobs js w)) /\
    mounted (step w e) = mounted w /\
    jobs (step w e) =
      js ++ match rs with
            | [] => []
            | _ => [mkJob (pendings (next_request w) rs) k]
            end.
Proof.
  intros R NT NU.
  destruct (step_reaction w e R NT NU) as (js & p & Re & ->).
  exists js, (prefix p), (awaits p), (kont p). split; [exact Re|].
  destruct (dispatch_effect p (set_jobs js w)) as (S & N & A & C & M & J).
  rewrite S, N, A, C, M, J. simpl.
  repeat split. now destruct (awaits p).
Qed.

(** What a state update does to the cells of [App]. *)
Lemma run_action_cells (a : action) (x : World) :
  isLoading (app (run_action a x)) =
    match a with
    | SetIsLoading b => if mounted x then b else isLoading (app x)
    | _ => isLoading (app x)
    end /\
  question (app (run_action a x)) =
    match a with
    | SetQuestion q => if mounted x then q else question (app x)
    | _ => question (app x)
    end /\
  activeTab (app (run_action a x)) =
    match a with
    | SetActiveTab t => if mounted x then t else activeTab (app x)
    | _ => activeTab (app x)
    end /\
  solution (app (run_action a x)) =
    match a with
    | SetSolution v => if mounted x then v else solution (app x)
    | _ => solution (app x)
    end /\
  console (run_action a x) =
    match a with
    | ConsoleError m e => console x ++ [(m, e)]
    | _ => console x
    end.
Proof.
  destruct a; simpl; unfold update_app, update_display;
    try (destruct (mounted x); simpl; auto 10; fail);
    try (destruct (display x) as [[j d]|]; [destruct (Nat.eqb inst j)|];
         simpl; auto 10; fail).
Qed.

Lemma tick_reaction (w : World) :
  reachable w ->
  tick w = advance w \/
  (mounted w = true /\ ((now w + 1) mod 30000 = 0)%N /\
   tick w = dispatch loadSystemData (advance w)).
Proof.
  intro R. pose proof (inv_timer w (reachable_Inv w R)) as T.
  unfold tick, advance. destruct (mounted w) eqn:M.
  - destruct T as [Ti Tp]. rewrite Ti.
    cbn [filter map due]. unfold reschedule. cbn [due timer period callback].
    destruct (N.eqb_spec (30000 * (now w / 30000 + 1))%N (now w + 1)%N)
      as [Eq|Ne]; cbn [fold_left callback].
    + right. apply due_multiple in Eq. auto.
    + now left.
  - rewrite T. now left.
Qed.

Lemma isLoading_run_action (a : action) (x : World) :
  isLoading (app (run_action a x)) =
    match a with
    | SetIsLoading b => if mounted x then b else isLoading (app x)
    | _ => isLoading (app x)
    end.
Proof. apply run_action_cells. Qed.

Lemma question_run_action (a : action) (x : World) :
  question (app (run_action a x)) =
    match a with
    | SetQuestion q => if mounted x then q else question (app x)
    | _ => question (app x)
    end.
Proof. apply run_action_cells. Qed.

Lemma activeTab_run_action (a : action) (x : World) :
  activeTab (app (run_action a x)) =
    match a with
    | SetActiveTab t => if mounted x then t else activeTab (app x)
    | _ => activeTab (app x)
    end.
Proof. apply run_action_cells. Qed.

Lemma solution_run_action (a : action) (x : World) :
  solution (app (run_action a x)) =
    match a with
    | SetSolution v => if mounted x then v else solution (app x)
    | _ => solution (app x)
    end.
Proof. apply run_action_cells. Qed.

Lemma console_run_action (a : action) (x : World) :
  console (run_action a x) =
    match a with
    | ConsoleError m e => console x ++ [(m, e)]
    | _ => console x
    end.
Proof. apply run_action_cells. Qed.

Lemma mounted_run_action (a : action) (x : World) :
  mounted (run_action a x) = mounted x.
Proof. apply run_action_frame. Qed.

Ltac cells :=
  unfold run_actions, log; cbn [fold_left prefix awaits];
  rewrite ?isLoading_run_action, ?question_run_action, ?activeTab_run_action,
    ?solution_run_action, ?console_run_action, ?mounted_run_action;
  cbn [set_jobs app mounted console].

Lemma is_solve_req (t : Job) :
  is_solve t =
  existsb (fun r => String.eqb (url r) "/solve") (map req (waiting t)).
Proof.
  unfold is_solve. induction (waiting t) as [|p l IH]; simpl; [reflexivity|].
  now rewrite IH.
Qed.

Lemma is_solve_poll (ps : list Pending) (k : settled -> proc unit) :
  map req ps = polled -> is_solve (mkJob ps k) = false.
Proof. intro P. rewrite is_solve_req. simpl. now rewrite P. Qed.

Lemma filter_drop_other (pre post : list Job) (t : Job) :
  is_solve t = false ->
  filter is_solve (pre ++ post) = filter is_solve (pre ++ t :: post).
Proof. intro H. rewrite !filter_app. simpl. now rewrite H. Qed.

Lemma filter_swap_other (pre post : list Job) (t t' : Job) :
  is_solve t = false -> is_solve t' = false ->
  filter is_solve (pre ++ [t'] ++ post) = filter is_solve (pre ++ t :: post).
Proof. intros H H'. rewrite !filter_app. simpl. now rewrite H, H'. Qed.

Lemma app_not_nil {A} (l l' : list A) : l <> [] -> l ++ l' <> [].
Proof. destruct l; [congruence|discriminate]. Qed.

Lemma in_drop {A} (pre post : list A) (t x : A) :
  In x (pre ++ post) -> In x (pre ++ t :: post).
Proof.
  intro H. apply in_app_or in H. apply in_or_app.
  destruct H; [now left|right; now right].
Qed.

(** What settling does to the solve bookkeeping: a solve request that
    settles ends with [setIsLoading(false)]; any other reply leaves the
    solve functions and the cells [isLoading] and [question] alone. *)
Lemma settles_solve (id : nat) (o : outcome) (t : Job) (left : list Job)
    (p : option (proc unit)) (pre post : list Job) (x : World) :
  settles id o t left p ->
  let acts := match p with Some k => prefix k | None => [] end in
  let rs := match p with Some k => awaits k | None => [] end in
  (forall r, In r rs -> r = api_get "/feedback/analytics") /\
  question (app (run_actions acts x)) = question (app x) /\
  activeTab (app (run_actions acts x)) = activeTab (app x) /\
  (forall u, In u (pre ++ left ++ post) -> is_solve u = true ->
             In u (pre ++ t :: post)) /\
  ((is_solve t = true /\
    (mounted x = true -> isLoading (app (run_actions acts x)) = false)) \/
   (is_solve t = false /\
    isLoading (app (run_actions acts x)) = isLoading (app x) /\
    filter is_solve (pre ++ left ++ post) = filter is_solve (pre ++ t :: post))).
Proof.
  intros St acts rs. subst acts rs.
  destruct St; cells; cbn [List.app];
    (split; [intros r0 Hr;
             first [contradiction | destruct Hr as [<-|[]]; reflexivity]|]);
    (split; [reflexivity|]); (split; [reflexivity|]).
  - split; [intros u Hu _; now apply in_drop|]. right.
    split; [now apply is_solve_poll|]. split; [reflexivity|].
    apply filter_drop_other. now apply is_solve_poll.
  - split.
    + intros u Hu Su. apply in_app_or in Hu. destruct Hu as [Hu|[<-|Hu]].
      * apply in_or_app. now left.
      * rewrite is_solve_poll in Su; [discriminate|]. simpl.
        now rewrite map_req_fill.
      * apply in_or_app. right. now right.
    + right. split; [now apply is_solve_poll|]. split; [reflexivity|].
      apply (filter_swap_other pre post); apply is_solve_poll; auto.
      simpl. now rewrite map_req_fill.
  - split; [intros u Hu _; now apply in_drop|]. right.
    split; [now apply is_solve_poll|]. split; [reflexivity|].
    apply filter_drop_other. now apply is_solve_poll.
  - split; [intros u Hu _; now apply in_drop|]. left.
    split; [reflexivity|]. now intros ->.
  - split; [intros u Hu _; now apply in_drop|]. left.
    split; [reflexivity|]. now intros ->.
  - split; [intros u Hu _; now apply in_drop|]. right.
    split; [reflexivity|]. split; [reflexivity|].
    now apply filter_drop_other.
  - split; [intros u Hu _; now apply in_drop|]. right.
    split; [reflexivity|]. split; [reflexivity|].
    now apply filter_drop_other.
  - split; [intros u Hu _; now apply in_drop|]. right.
    split; [reflexivity|]. split; [reflexivity|].
    now apply filter_drop_other.
  - split; [intros u Hu _; now apply in_drop|]. right.
    split; [reflexivity|]. split; [reflexivity|].
    now apply filter_drop_other.
Qed.

Lemma event_eq_Tick (e : event) : e = Tick \/ e <> Tick.
Proof. destruct e; (now left) || (right; discriminate). Qed.

Lemma event_eq_Unmount (e : event) : e = Unmount \/ e <> Unmount.
Proof. destruct e; (now left) || (right; discriminate). Qed.

Lemma Inv2_reaction (w : World) (e : event) (js : list Job)
    (acts : list action) (rs : list request) (k : settled -> proc unit)
    (n : nat) :
  Inv w -> Inv2 w -> reaction w e js acts rs ->
  let x := run_actions acts (set_jobs js w) in
  let js' := js ++ match rs with
                   | [] => []
                   | _ => [mkJob (pendings n rs) k]
                   end in
  (activeTab (app x) = "solve" \/ activeTab (app x) = "analytics") /\
  (mounted w = true -> isLoading (app x) = true ->
   filter is_solve js' <> []) /\
  (forall t, In t js' -> is_solve t = true ->
     exists id, waiting t = [mkPending id (solve_request (question (app x))) None]) /\
  (forall r, In r rs -> endpoint r).
Proof.
  intros I [T B A E] Re x js'. subst x js'.
  destruct Re.
  - (* nothing happens *)
    cells. rewrite app_nil_r. repeat split; auto. intros r [].
  - (* typing *)
    cells. rewrite app_nil_r.
    pose proof (Inv_idle w I H0) as Q.
    split; [exact T|]. split; [|split; [|intros r []]].
    + intros M L. rewrite H0 in L. discriminate L.
    + intros t Ht St. exfalso.
      assert (F : In t (filter is_solve (jobs w))) by (apply filter_In; auto).
      now rewrite Q in F.
  - (* solve *)
    cells. split; [exact T|]. split; [|split].
    + intros _ _. rewrite filter_app. simpl. intro Z.
      apply app_eq_nil in Z. destruct Z as [_ Z]. discriminate Z.
    + intros t Ht St. apply in_app_or in Ht. destruct Ht as [Ht|[<-|[]]].
      * now apply A.
      * now exists n.
    + intros r [<-|[]]. right. left. now exists (question (app w)).
  - cells. rewrite app_nil_r. rewrite H.
    split; [now left|]. split; [intros _; now apply B|].
    split; [exact A|intros r []].
  - cells. rewrite app_nil_r. rewrite H.
    split; [now right|]. split; [intros _; now apply B|].
    split; [exact A|intros r []].
  - cells. rewrite app_nil_r. repeat split; auto. intros r [].
  - cells. rewrite app_nil_r. repeat split; auto. intros r [].
  - cells. rewrite app_nil_r. repeat split; auto. intros r [].
  - cells. rewrite app_nil_r. repeat split; auto. intros r [].
  - cells. rewrite app_nil_r. repeat split; auto. intros r [].
  - (* submit *)
    cells. split; [exact T|]. split; [|split].
    + intros M L. rewrite filter_app. apply app_not_nil. now apply B.
    + intros t Ht St. apply in_app_or in Ht. destruct Ht as [Ht|[<-|[]]].
      * now apply A.
      * discriminate St.
    + intros r [<-|[]]. right. right.
      destruct (inv_display w I i d H) as [R C].
      now exists sid, (rating d), (comments d).
  - (* a reply *)
    destruct (settles_solve id o t left p pre post
                (set_jobs (pre ++ left ++ post) w) H1)
      as (G & Q & Tb & Sub & Cases).
    rewrite Q, Tb. cbn [set_jobs app mounted] in *.
    split; [exact T|].
    assert (Sp : forall u,
              In u match match p with Some k0 => awaits k0 | None => [] end with
                   | [] => []
                   | _ => [mkJob (pendings n
                             match p with Some k0 => awaits k0 | None => [] end) k]
                   end -> is_solve u = false).
    { intros u Hu.
      destruct (match p with Some k0 => awaits k0 | None => [] end)
        as [|r l] eqn:Er; [contradiction|].
      destruct Hu as [<-|[]]. rewrite is_solve_pendings.
      apply not_true_is_false. intro Ex. apply existsb_exists in Ex.
      destruct Ex as (r' & Hr & Ur). rewrite (G r' Hr) in Ur. discriminate Ur. }
    split; [|split].
    + intros M L. rewrite filter_app. apply app_not_nil.
      destruct Cases as [[_ F]|(_ & F1 & F2)].
      * rewrite (F M) in L. discriminate L.
      * rewrite F2, <- H. apply B; [exact M|]. now rewrite <- F1.
    + intros u Hu Su. apply in_app_or in Hu. destruct Hu as [Hu|Hu].
      * apply A; [|exact Su]. rewrite H. now apply Sub.
      * rewrite (Sp u Hu) in Su. discriminate Su.
    + intros r Hr. rewrite (G r Hr). left. simpl. auto.
Qed.

Lemma Inv2_step (w : World) (e : event) :
  reachable w -> Inv2 w -> Inv2 (step w e).
Proof.
  intros R H2. pose proof (reachable_Inv w R) as I.
  destruct (event_eq_Tick e) as [->|NT].
  - simpl. destruct H2 as [T B A E].
    destruct (tick_reaction w R) as [->|(M & _ & ->)].
    + now constructor.
    + destruct (dispatch_effect loadSystemData (advance w))
        as (S & _ & Ap & _ & Mt & J).
      constructor; rewrite ?S, ?Ap, ?Mt, ?J; simpl; auto.
      * intros Mw L. rewrite filter_app. apply app_not_nil. now apply B.
      * intros t Ht St. apply in_app_or in Ht. destruct Ht as [Ht|[<-|[]]].
        -- now apply A.
        -- discriminate St.
      * intros id r Hr. apply in_app_or in Hr. destruct Hr as [Hr|Hr]; [eauto|].
        left. destruct Hr as [Hr|[Hr|[Hr|[Hr|[]]]]]; inversion Hr;
          simpl; auto.
  - destruct (event_eq_Unmount e) as [->|NU].
    + simpl. unfold unmount.
      destruct (mounted w) eqn:M; [|exact H2].
      destruct H2 as [T B A E].
      destruct (poll_interval w); constructor; simpl; auto; discriminate.
    + destruct (step_effect w e R NT NU)
        as (js & acts & rs & k & Re & S & N & Ap & C & M & J).
      destruct (Inv2_reaction w e js acts rs k (next_request w) I H2 Re)
        as (T' & B' & A' & E').
      constructor; rewrite ?Ap, ?M, ?J, ?S; auto.
      intros id r Hr. apply in_app_or in Hr. destruct Hr as [Hr|Hr].
      * now apply (inv2_endpoints w H2 id).
      * apply E'. now apply in_combine_r in Hr.
Qed.

Lemma Inv2_mount : Inv2 mount.
Proof.
  constructor; simpl.
  - now left.
  - discriminate.
  - intros t [<-|[]] S. discriminate S.
  - intros id r [H|[H|[H|[H|[]]]]]; inversion H; left; simpl; auto.
Qed.

Lemma reachable_Inv2 (w : World) : reachable w -> Inv2 w.
Proof.
  induction 1; [apply Inv2_mount | now apply Inv2_step].
Qed.

(** *** Solve requests in flight *)

Lemma awaiting_job (id : nat) (ts : list Job) (ps : list Pending) :
  awaiting_in id ts = Some ps ->
  exists t, In t ts /\ waiting t = ps /\ existsb (unsettled id) ps = true.
Proof.
  induction ts as [|t ts IH]; simpl; [discriminate|].
  destruct (existsb (unsettled id) (waiting t)) eqn:U.
  - intro H. inversion H; subst. exists t. auto.
  - intro H. destruct (IH H) as (t' & I & W & U'). exists t'. auto.
Qed.

Lemma job_awaiting (id : nat) (ts : list Job) (t : Job) :
  NoDup (job_ids ts) -> In t ts ->
  existsb (unsettled id) (waiting t) = true ->
  awaiting_in id ts = Some (waiting t).
Proof.
  induction ts as [|t0 ts IH]; simpl; [contradiction|].
  intros N [->|I] U.
  - now rewrite U.
  - destruct (existsb (unsettled id) (waiting t0)) eqn:U0.
    + exfalso. apply (NoDup_app_disjoint _ _ id N).
      * apply in_flat_map. exists t. split; [exact I|now apply unsettled_in].
      * now apply unsettled_in.
    + apply IH; auto. now apply NoDup_app_remove_l in N.
Qed.

Lemma solve_pending (t : Job) (ps : list Pending) (b : value) :
  waiting t = ps -> map req ps = [api_post "/solve" b] -> is_solve t = true.
Proof.
  intros W Q. rewrite is_solve_req, W, Q. reflexivity.
Qed.

Lemma the_solve_job (w : World) (t t' : Job) :
  Inv w -> In t (jobs w) -> In t' (jobs w) ->
  is_solve t = true -> is_solve t' = true -> t = t'.
Proof.
  intros I H H' S S'. pose proof (inv_solve w I) as V.
  assert (F : In t (filter is_solve (jobs w))) by (apply filter_In; auto).
  assert (F' : In t' (filter is_solve (jobs w))) by (apply filter_In; auto).
  destruct (filter is_solve (jobs w)) as [|x [|y l]]; simpl in V;
    [contradiction| |contradiction].
  destruct F as [<-|[]]. now destruct F' as [<-|[]].
Qed.

Lemma single_unsettled (id : nat) (ps : list Pending) (r : request) :
  map req ps = [r] -> existsb (unsettled id) ps = true ->
  exists p, ps = [p] /\ rid p = id /\ reply p = None /\ req p = r.
Proof.
  destruct ps as [|p [|q ps]]; try discriminate.
  simpl. intros Q U. inversion Q. exists p.
  rewrite orb_false_r in U. unfold unsettled in U.
  apply andb_true_iff in U. destruct U as [U1 U2].
  apply Nat.eqb_eq in U1. destruct (reply p); [discriminate|]. auto.
Qed.

(** X10. At most one solve request is unanswered at any time: two
    pending solve requests of a reachable world are the same request. *)
Theorem one_solve_request_in_flight (w : World) (id id' : nat)
    (ps ps' : list Pending) (b b' : value) :
  reachable w ->
  awaiting w id = Some ps -> map req ps = [api_post "/solve" b] ->
  awaiting w id' = Some ps' -> map req ps' = [api_post "/solve" b'] ->
  id = id' /\ b = b'.
Proof.
  intros R A Q A' Q'. pose proof (reachable_Inv w R) as I.
  destruct (awaiting_job _ _ _ A) as (t & Ht & W & U).
  destruct (awaiting_job _ _ _ A') as (t' & Ht' & W' & U').
  assert (E : t = t').
  { apply (the_solve_job w); auto; eapply solve_pending; eauto. }
  subst t'. rewrite W in W'. subst ps'.
  destruct (single_unsettled _ _ _ Q U) as (p & -> & <- & _ & _).
  destruct (single_unsettled _ _ _ Q' U') as (p' & E' & <- & _ & _).
  inversion E'; subst. rewrite Q in Q'. inversion Q'. auto.
Qed.

Lemma one_solve_request_in_flight_witness :
  let w := run mount [ChangeQuestion (str "2+2"); ClickSolve; ClickSolve;
                      Tick; ClickSolve] in
  map fst (filter (fun ir => String.eqb (url (snd ir)) "/solve") (sent w)) =
    [4%nat] /\
  forall id' ps' b',
    awaiting w id' = Some ps' -> map req ps' = [api_post "/solve" b'] ->
    4%nat = id'.
Proof.
  intro w. split; [reflexivity|].
  intros id' ps' b' A' Q'.
  assert (R : reachable w) by (apply reachable_run; constructor).
  exact (proj1 (one_solve_request_in_flight w 4 id' _ _ _ b' R
                  eq_refl eq_refl A' Q')).
Defined.

(** X11. While a solve request is unanswered it is the request for the
    question in the textarea, and the textarea and the solve button are
    disabled: typing and clicking solve change nothing. *)
Theorem pending_solve_is_for_the_question_shown (w : World) (id : nat)
    (ps : list Pending) (b : value) :
  reachable w ->
  awaiting w id = Some ps -> map req ps = [api_post "/solve" b] ->
  b = VObj [("question", VStr (trim (question (app w))));
            ("use_mcp", VBool true)] /\
  textarea_disabled (QuestionInput (app w)) = true /\
  button_disabled (QuestionInput (app w)) = true /\
  (forall v, step w (ChangeQuestion v) = w) /\
  step w ClickSolve = w.
Proof.
  intros R A Q. pose proof (reachable_Inv w R) as I.
  pose proof (reachable_Inv2 w R) as I2.
  destruct (awaiting_job _ _ _ A) as (t & Ht & W & U).
  pose proof (solve_pending t ps b W Q) as S.
  destruct (inv2_asked w I2 t Ht S) as (i & Wt).
  destruct (in_split _ _ Ht) as (pre & post & E).
  destruct (solving_in_flight w pre post t I E S) as [L _].
  split.
  - rewrite W in Wt. rewrite Wt in Q. simpl in Q. now inversion Q.
  - simpl. unfold solve_button_disabled. rewrite L. simpl.
    rewrite !andb_false_r. auto.
Qed.

Lemma pending_solve_is_for_the_question_shown_witness :
  let w := run mount [ChangeQuestion (str " 2+2 "); ClickSolve; Tick] in
  awaiting w 4 = Some [mkPending 4 (solve_request (str " 2+2 ")) None] /\
  (forall v, step w (ChangeQuestion v) = w) /\
  step w ClickSolve = w.
Proof.
  intro w. split; [reflexivity|].
  assert (R : reachable w) by (apply reachable_run; constructor).
  destruct (pending_solve_is_for_the_question_shown w 4 _ _ R eq_refl eq_refl)
    as (_ & _ & _ & A & B).
  now split.
Defined.

(** X12. On a mounted page the solve button shows the spinner exactly
    while a solve request is unanswered: [isLoading] is never left set
    without a request in flight, and never unset with one. *)
Theorem spinner_means_request_in_flight (w : World) :
  reachable w -> mounted w = true ->
  (button_label (QuestionInput (app w)) = "Solving..." <->
   isLoading (app w) = true) /\
  (isLoading (app w) = true <->
   exists id ps b,
     awaiting w id = Some ps /\ map req ps = [api_post "/solve" b]).
Proof.
  intros R M. pose proof (reachable_Inv w R) as I.
  pose proof (reachable_Inv2 w R) as I2. split.
  - simpl. destruct (isLoading (app w)); split; auto; discriminate.
  - split.
    + intro L. pose proof (inv2_busy w I2 M L) as B.
      destruct (filter is_solve (jobs w)) as [|t l] eqn:F; [now elim B|].
      assert (Ft : In t (filter is_solve (jobs w))) by (rewrite F; now left).
      apply filter_In in Ft. destruct Ft as [Ht S].
      destruct (inv2_asked w I2 t Ht S) as (id & Wt).
      exists id, (waiting t). eexists. split.
      * apply job_awaiting; [apply (inv_nodup w I)|exact Ht|].
        rewrite Wt. simpl. unfold unsettled. simpl.
        now rewrite Nat.eqb_refl.
      * rewrite Wt. reflexivity.
    + intros (id & ps & b & A & Q).
      destruct (awaiting_job _ _ _ A) as (t & Ht & W & U).
      destruct (in_split _ _ Ht) as (pre & post & E).
      apply (solving_in_flight w pre post t I E (solve_pending t ps b W Q)).
Qed.

Lemma spinner_means_request_in_flight_witness :
  let w := run mount [ChangeQuestion (str "2+2"); ClickSolve;
                      Settle 4 (Failed VNull)] in
  isLoading (app w) = false /\
  (isLoading (app w) = true <->
   exists id ps b,
     awaiting w id = Some ps /\ map req ps = [api_post "/solve" b]).
Proof.
  intro w. split; [reflexivity|].
  assert (R : reachable w) by (apply reachable_run; constructor).
  exact (proj2 (spinner_means_request_in_flight w R eq_refl)).
Defined.

(** *** The feedback form on the page *)

(** X13. The stars of the open feedback form are filled from the left:
    with rating [r] the first [r] of the five star buttons have class
    [star filled] and the other [5 - r] do not. *)
Theorem filled_stars_count_the_rating (w : World) (i : nat) (d : DisplayState) :
  reachable w -> display w = Some (i, d) ->
  star_buttons (rating d) =
    repeat "star filled" (Z.to_nat (rating d)) ++
    repeat "star " (5 - Z.to_nat (rating d)).
Proof.
  intros R E. destruct (inv_display w (reachable_Inv w R) i d E) as [[L U] _].
  assert (C : (rating d = 1 \/ rating d = 2 \/ rating d = 3 \/
               rating d = 4 \/ rating d = 5)%Z) by lia.
  destruct C as [C | [C | [C | [C | C]]]]; rewrite C; reflexivity.
Qed.

Lemma filled_stars_count_the_rating_witness :
  star_buttons 3 =
    ["star filled"; "star filled"; "star filled"; "star "; "star "] /\
  star_buttons 3 = repeat "star filled" 3 ++ repeat "star " 2.
Proof.
  split; [reflexivity|].
  assert (R : reachable (run mount sample_session))
    by (apply reachable_run; constructor).
  exact (filled_stars_count_the_rating (run mount sample_session) 0
           (mkDisplay true 3
              [("clarity", VStr []); ("accuracy", VStr (str "ok"));
               ("completeness", VStr [])]) R eq_refl).
Defined.

Lemma set_display_same (w : World) : set_display (display w) w = w.
Proof. now destruct w. Qed.

(** X14. Typing into one comment field of the open form replaces the
    text of that field and nothing else: the two other comments, the
    rating, the open form, the state of [App] and the requests sent stay
    as they were. *)
Theorem comment_edit_changes_one_field (w : World) (i : nat) (d : DisplayState)
    (v : jsstring) :
  reachable w -> display w = Some (i, d) -> showFeedback d = true ->
  exists x y z,
    comments d =
      [("clarity", VStr x); ("accuracy", VStr y); ("completeness", VStr z)] /\
    step w (ChangeClarity v) =
      set_display (Some (i, mkDisplay true (rating d)
        [("clarity", VStr v); ("accuracy", VStr y); ("completeness", VStr z)])) w /\
    step w (ChangeAccuracy v) =
      set_display (Some (i, mkDisplay true (rating d)
        [("clarity", VStr x); ("accuracy", VStr v); ("completeness", VStr z)])) w /\
    step w (ChangeCompleteness v) =
      set_display (Some (i, mkDisplay true (rating d)
        [("clarity", VStr x); ("accuracy", VStr y); ("completeness", VStr v)])) w.
Proof.
  intros R E F.
  destruct (inv_display w (reachable_Inv w R) i d E) as [_ (x & y & z & C)].
  pose proof (reachable_Rendered w R) as Rd.
  exists x, y, z. split; [exact C|].
  simpl. rewrite E, F. unfold dispatch, perform. cbn [exec run_action].
  rewrite !(display_update w i d _ Rd E). simpl. rewrite F, C. simpl. auto.
Qed.

Lemma comment_edit_changes_one_field_witness :
  let w := run mount [ChangeQuestion (str "2+2"); ClickSolve;
                      Settle 4 (Ok (mkResponse sample_solution));
                      ClickFeedbackToggle; ChangeClarity (str "clear")] in
  display (run w [ChangeAccuracy (str "a"); ChangeAccuracy (str "ok")]) =
    Some (0%nat, mkDisplay true 5
            [("clarity", VStr (str "clear")); ("accuracy", VStr (str "ok"));
             ("completeness", VStr [])]) /\
  exists x y z,
    step w (ChangeAccuracy (str "ok")) =
      set_display (Some (0%nat, mkDisplay true 5
        [("clarity", VStr x); ("accuracy", VStr (str "ok"));
         ("completeness", VStr z)])) w /\
    y = @nil N.
Proof.
  intro w. split; [reflexivity|].
  assert (R : reachable w) by (apply reachable_run; constructor).
  destruct (comment_edit_changes_one_field w 0
              (mkDisplay true 5
                 [("clarity", VStr (str "clear")); ("accuracy", VStr []);
                  ("completeness", VStr [])]) (str "ok") R eq_refl eq_refl)
    as (x & y & z & C & _ & A & _).
  exists x, y, z. split; [exact A|]. now inversion C.
Defined.

(** X15. Two clicks on the feedback toggle bring the page back to
    exactly the world before them; one click flips the form between
    hidden and open and keeps rating and comments. *)
Theorem feedback_toggle_twice (w : World) (i : nat) (d : DisplayState) :
  reachable w -> display w = Some (i, d) ->
  step w ClickFeedbackToggle =
    set_display (Some (i, mkDisplay (negb (showFeedback d)) (rating d)
                            (comments d))) w /\
  run w [ClickFeedbackToggle; ClickFeedbackToggle] = w.
Proof.
  intros R E. pose proof (reachable_Rendered w R) as Rd.
  assert (S1 : step w ClickFeedbackToggle =
               set_display (Some (i, mkDisplay (negb (showFeedback d))
                                       (rating d) (comments d))) w).
  { simpl. rewrite E. unfold dispatch, perform. cbn [exec run_action].
    now rewrite (display_update w i d _ Rd E). }
  split; [exact S1|].
  unfold run. cbn [fold_left].
  assert (R1 : reachable (step w ClickFeedbackToggle)) by now constructor.
  pose proof (reachable_Rendered _ R1) as Rd1.
  rewrite S1 in *.
  set (w1 := set_display (Some (i, mkDisplay (negb (showFeedback d))
                                     (rating d) (comments d))) w) in *.
  simpl step. unfold dispatch, perform. cbn [exec run_action].
  rewrite (display_update w1 i _ _ Rd1 eq_refl). simpl.
  rewrite negb_involutive. unfold w1. clear - E.
  destruct w as [m ap dp ni ts nr sn iv nt pl nw cs]. simpl in *. subst dp.
  now destruct d.
Qed.

Lemma feedback_toggle_twice_witness :
  let w := run mount sample_session in
  run w [ClickFeedbackToggle; ClickFeedbackToggle] = w.
Proof.
  intro w.
  assert (R : reachable w) by (apply reachable_run; constructor).
  exact (proj2 (feedback_toggle_twice w 0
                  (mkDisplay true 3
                     [("clarity", VStr []); ("accuracy", VStr (str "ok"));
                      ("completeness", VStr [])]) R eq_refl)).
Defined.

Lemma instance_run_action (a : action) (x : World) :
  instance_ok x -> instance_ok (run_action a x).
Proof.
  unfold instance_ok. intros H i d.
  destruct a; simpl; unfold update_app, update_display;
    try (destruct (mounted x); simpl; apply H);
    try (destruct (display x) as [[j d']|] eqn:E;
         [destruct (Nat.eqb inst j)|]; simpl; rewrite ?E;
         try apply H; intro Q; inversion Q; subst; now apply (H i d')).
Qed.

Lemma instance_exec (p : proc unit) (x : World) :
  instance_ok x -> instance_ok (exec p x).
Proof.
  revert x. induction p as [a|e|a k IH|rs k IH]; intros x H; simpl; auto.
  - apply IH. now apply instance_run_action.
  - destruct rs; [now apply IH | exact H].
Qed.

Lemma instance_reconcile (x : World) :
  instance_ok x -> instance_ok (reconcile x).
Proof.
  unfold instance_ok, reconcile. intros H i d.
  destruct (shows_solution x); [destruct (display x) eqn:E|]; simpl.
  - rewrite E. apply H.
  - intro Q. inversion Q. lia.
  - discriminate.
Qed.

Lemma instance_dispatch (p : proc unit) (x : World) :
  instance_ok x -> instance_ok (dispatch p x).
Proof.
  intro H. unfold dispatch. now apply instance_reconcile, instance_exec.
Qed.

Lemma reachable_instances (w : World) : reachable w -> instance_ok w.
Proof.
  induction 1 as [|w e R IH].
  - intros i d E. discriminate E.
  - destruct (event_eq_Tick e) as [->|NT]; [|destruct (event_eq_Unmount e) as [->|NU]].
    + simpl. destruct (tick_reaction w R) as [->|(_ & _ & ->)];
        [exact IH | apply instance_dispatch; exact IH].
    + simpl. unfold unmount. destruct (mounted w); [|exact IH].
      intros i d E. discriminate E.
    + destruct (step_reaction w e R NT NU) as (js & p & _ & ->).
      apply instance_dispatch. exact IH.
Qed.



(** *** What the page sends and logs *)

Lemma tick_cells (w : World) :
  reachable w ->
  app (tick w) = app w /\ console (tick w) = console w /\
  mounted (tick w) = mounted w /\
  (sent (tick w) = sent w \/
   mounted w = true /\ ((now w + 1) mod 30000 = 0)%N /\
   sent (tick w) = sent w ++ combine (seq (next_request w) 4) polled).
Proof.
  intro R. destruct (tick_reaction w R) as [->|(M & D & ->)].
  - simpl. auto.
  - destruct (dispatch_effect loadSystemData (advance w))
      as (S & _ & A & C & Mo & _).
    rewrite S, A, C, Mo. simpl. auto 10.
Qed.

Lemma unmount_cells (w : World) :
  app (unmount w) = app w /\ console (unmount w) = console w /\
  sent (unmount w) = sent w /\ mounted (unmount w) = false /\
  jobs (unmount w) = jobs w.
Proof.
  unfold unmount. destruct (mounted w) eqn:M; [|auto].
  destruct (poll_interval w); simpl; auto.
Qed.

(** X17. Every request the page ever sends goes to one of six
    endpoints: a GET without a body to [/health], [/feedback/analytics],
    [/knowledge-base/stats] or [/mcp/tools], or a POST with a body to
    [/solve] or [/feedback]. *)
Theorem requests_go_to_six_endpoints (w : World) (id : nat) (r : request) :
  reachable w -> In (id, r) (sent w) ->
  (method r = GET /\ body r = None /\
   In (url r) ["/health"; "/feedback/analytics"; "/knowledge-base/stats";
               "/mcp/tools"]) \/
  (method r = POST /\ (url r = "/solve" \/ url r = "/feedback") /\
   exists b, body r = Some b).
Proof.
  intros R H.
  destruct (inv2_endpoints w (reachable_Inv2 w R) id r H)
    as [P|[(q & _ & ->)|(sid & n & c & _ & _ & ->)]].
  - left. simpl in P.
    destruct P as [<-|[<-|[<-|[<-|[]]]]]; simpl; auto 10.
  - right. simpl. eauto.
  - right. simpl. eauto.
Qed.

Lemma requests_go_to_six_endpoints_witness :
  In (1%nat, api_get "/feedback/analytics") (sent mount) /\
  In "/feedback/analytics"
     ["/health"; "/feedback/analytics"; "/knowledge-base/stats"; "/mcp/tools"].
Proof.
  assert (H : In (1%nat, api_get "/feedback/analytics") (sent mount))
    by (simpl; auto).
  split; [exact H|].
  destruct (requests_go_to_six_endpoints mount 1
              (api_get "/feedback/analytics") reach_mount H)
    as [(_ & _ & U)|(M & _)]; [exact U | discriminate M].
Defined.

(** X18. Which event sends what: a click on the solve button sends at
    most the solve request of the question on the page, a click on the
    submit button at most one POST to [/feedback] with the form on the
    page, a successful reply at most the GET of [/feedback/analytics]
    that follows a feedback, a clock tick at most the four reads; every
    other event (typing, tabs, stars, the toggle, a failed reply,
    unmounting) sends nothing. *)
Theorem requests_by_event (w : World) (e : event) :
  reachable w ->
  exists rs,
    sent (step w e) =
      sent w ++ combine (seq (next_request w) (List.length rs)) rs /\
    match e with
    | ClickSolve => rs = [] \/ rs = [solve_request (question (app w))]
    | ClickSubmitFeedback =>
        rs = [] \/
        exists i d sid,
          display w = Some (i, d) /\
          get_member (solution (app w)) "session_id" = Some sid /\
          rs = [api_post "/feedback"
                  (VObj [("session_id", sid);
                         ("rating", VNum (inject_Z (rating d)));
                         ("comments", VObj (comments d))])]
    | Settle _ (Ok _) => rs = [] \/ rs = [api_get "/feedback/analytics"]
    | Tick => rs = [] \/ rs = polled
    | _ => rs = []
    end.
Proof.
  intro R.
  destruct (event_eq_Tick e) as [->|NT];
    [|destruct (event_eq_Unmount e) as [->|NU]].
  - destruct (tick_cells w R) as (_ & _ & _ & [S|(_ & _ & S)]).
    + exists []. simpl. rewrite S, app_nil_r. auto.
    + exists polled. simpl. rewrite S. auto.
  - exists []. simpl.
    destruct (unmount_cells w) as (_ & _ & -> & _). now rewrite app_nil_r.
  - destruct (step_effect w e R NT NU) as (js & acts & rs & k & Re & S & _).
    exists rs. split; [exact S|].
    destruct Re as [e| | | | | | | | | |i d sid E F G|id o pre t post left p E P St];
      auto.
    + destruct e as [| | | | | | | | | |id [r|x]| |]; auto.
    + right. exists i, d, sid. auto.
    + destruct o; inversion St; subst; simpl; auto.
Qed.

Lemma requests_by_event_witness :
  let w := run mount [ChangeQuestion (str "2+2")] in
  exists rs,
    sent (step w ClickSolve) =
      sent w ++ combine (seq (next_request w) (List.length rs)) rs /\
    (rs = [] \/ rs = [solve_request (question (app w))]).
Proof.
  intro w.
  assert (R : reachable w) by (apply reachable_run; constructor).
  exact (requests_by_event w ClickSolve R).
Defined.



(** *** What an event leaves alone *)

Ltac by_reaction R :=
  match goal with
  | |- context [step ?w ?e] =>
      let NT := fresh "NT" in
      let NU := fresh "NU" in
      let Re := fresh "Re" in
      let A := fresh "A" in
      assert (NT : e <> Tick) by discriminate;
      assert (NU : e <> Unmount) by discriminate;
      destruct (step_effect w e R NT NU)
        as (?js & ?acts & ?rs & ?k & Re & _ & _ & A & _);
      rewrite A; clear A;
      inversion Re; subst;
      try match goal with
          | St : settles _ _ _ _ _ |- _ => inversion St; subst
          end;
      cells; try reflexivity
  end.

(** X20. The active tab is always [solve] or [analytics], and only the
    two tab buttons change it: typing, solving, feedback, replies from
    the server, the timer and unmounting leave the tab where it is. *)
Theorem tab_changes_only_by_tab_buttons (w : World) (e : event) :
  reachable w ->
  (activeTab (app w) = "solve" \/ activeTab (app w) = "analytics") /\
  activeTab (app (step w e)) =
    match e with
    | ClickSolveTab => if mounted w then "solve" else activeTab (app w)
    | ClickAnalyticsTab => if mounted w then "analytics" else activeTab (app w)
    | _ => activeTab (app w)
    end.
Proof.
  intro R. split; [apply (inv2_tab w (reachable_Inv2 w R))|].
  destruct e; try (by_reaction R; fail).
  - simpl. destruct (mounted w) eqn:M; [|reflexivity].
    destruct (dispatch_effect (perform (SetActiveTab "solve")) w)
      as (_ & _ & -> & _). unfold perform. cells. now rewrite M.
  - simpl. destruct (mounted w) eqn:M; [|reflexivity].
    destruct (dispatch_effect (perform (SetActiveTab "analytics")) w)
      as (_ & _ & -> & _). unfold perform. cells. now rewrite M.
  - simpl. now destruct (tick_cells w R) as (-> & _).
  - simpl. now destruct (unmount_cells w) as (-> & _).
Qed.

Lemma tab_changes_only_by_tab_buttons_witness :
  let w := run mount sample_session in
  activeTab (app (step w ClickAnalyticsTab)) = "analytics" /\
  activeTab (app (step w (Settle 0 (Failed TypeError)))) = "solve".
Proof.
  intro w.
  assert (R : reachable w) by (apply reachable_run; constructor).
  split.
  - exact (proj2 (tab_changes_only_by_tab_buttons w ClickAnalyticsTab R)).
  - exact (proj2 (tab_changes_only_by_tab_buttons w
                    (Settle 0 (Failed TypeError)) R)).
Defined.

(** X21. The question in the textarea changes only when the user types
    into the enabled textarea: solving does not clear or trim it, and no
    reply, tab switch or timer touches it. *)
Theorem question_changes_only_by_typing (w : World) (e : event) :
  reachable w ->
  question (app (step w e)) =
    match e with
    | ChangeQuestion v =>
        if solve_tab w && negb (isLoading (app w))
        then v else question (app w)
    | _ => question (app w)
    end.
Proof.
  intro R.
  destruct e; try (by_reaction R; fail).
  - simpl. destruct (solve_tab w) eqn:T; [|reflexivity].
    destruct (isLoading (app w)); [reflexivity|]. simpl.
    destruct (dispatch_effect (perform (SetQuestion v)) w)
      as (_ & _ & -> & _). unfold perform. cells.
    unfold solve_tab in T. apply andb_true_iff in T. destruct T as [-> _].
    reflexivity.
  - simpl. now destruct (tick_cells w R) as (-> & _).
  - simpl. now destruct (unmount_cells w) as (-> & _).
Qed.

Lemma question_changes_only_by_typing_witness :
  let w := run mount [ChangeQuestion (str " 2+2 ")] in
  question (app (step w ClickSolve)) = str " 2+2 " /\
  question (app (step (step w ClickSolve) (ChangeQuestion (str "x")))) =
    str " 2+2 ".
Proof.
  intro w.
  assert (R : reachable w) by (apply reachable_run; constructor).
  assert (R' : reachable (step w ClickSolve)) by now constructor.
  split.
  - exact (question_changes_only_by_typing w ClickSolve R).
  - exact (question_changes_only_by_typing (step w ClickSolve)
             (ChangeQuestion (str "x")) R').
Defined.

Lemma submit_effect (w : World) (i : nat) (d : DisplayState) :
  reachable w -> display w = Some (i, d) -> showFeedback d = true ->
  exists sid,
    get_member (solution (app w)) "session_id" = Some sid /\
    sent (step w ClickSubmitFeedback) =
      sent w ++
      [(next_request w,
        api_post "/feedback"
          (VObj [("session_id", sid); ("rating", VNum (inject_Z (rating d)));
                 ("comments", VObj (comments d))]))] /\
    next_request (step w ClickSubmitFeedback) = S (next_request w) /\
    app (step w ClickSubmitFeedback) = app w /\
    display (step w ClickSubmitFeedback) = Some (i, d).
Proof.
  intros R E F. pose proof (reachable_Rendered w R) as Rd.
  pose proof (Rendered_shown w i d Rd E) as V.
  unfold shows_solution in V. apply andb_true_iff in V. destruct V as [_ V].
  destruct (truthy_member _ "session_id" V) as (sid & G).
  exists sid. split; [exact G|].
  destruct (submit_scenario w i d R E F) as (D & _).
  split; [|split; [|split; [|exact D]]]; simpl; rewrite E, F;
    destruct (handleFeedbackSubmit_awaits i (solution (app w)) sid
                (rating d) (comments d) G) as (P & A);
    destruct (dispatch_effect
                (handleFeedbackSubmit i (solution (app w)) (rating d)
                   (comments d)) w) as (S1 & N1 & A1 & _);
    rewrite P, A in *; simpl in *.
  - exact S1.
  - rewrite N1. lia.
  - exact A1.
Qed.

(** X22. The submit button is not guarded while a feedback is in
    flight: a second click sends the same POST to [/feedback] again,
    with the same session id, rating and comments, under the next
    request id. *)
Theorem submit_twice_sends_twice (w : World) (i : nat) (d : DisplayState) :
  reachable w -> display w = Some (i, d) -> showFeedback d = true ->
  exists sid,
    get_member (solution (app w)) "session_id" = Some sid /\
    sent (run w [ClickSubmitFeedback; ClickSubmitFeedback]) =
      sent w ++
      [(next_request w,
        api_post "/feedback"
          (VObj [("session_id", sid); ("rating", VNum (inject_Z (rating d)));
                 ("comments", VObj (comments d))]));
       (S (next_request w),
        api_post "/feedback"
          (VObj [("session_id", sid); ("rating", VNum (inject_Z (rating d)));
                 ("comments", VObj (comments d))]))].
Proof.
  intros R E F.
  destruct (submit_effect w i d R E F) as (sid & G & S1 & N1 & A1 & D1).
  assert (R1 : reachable (step w ClickSubmitFeedback)) by now constructor.
  destruct (submit_effect _ i d R1 D1 F) as (sid' & G' & S2 & _).
  rewrite A1, G in G'. inversion G'; subst sid'.
  exists sid. split; [exact G|].
  unfold run. cbn [fold_left]. rewrite S2, S1, N1, <- app_assoc. reflexivity.
Qed.

Lemma submit_twice_sends_twice_witness :
  let w := run mount sample_session in
  let d := mkDisplay true 3
             [("clarity", VStr []); ("accuracy", VStr (str "ok"));
              ("completeness", VStr [])] in
  display w = Some (0%nat, d) /\
  exists sid,
    get_member (solution (app w)) "session_id" = Some sid /\
    sent (run w [ClickSubmitFeedback; ClickSubmitFeedback]) =
      sent w ++
      [(next_request w,
        api_post "/feedback"
          (VObj [("session_id", sid); ("rating", VNum (inject_Z (rating d)));
                 ("comments", VObj (comments d))]));
       (S (next_request w),
        api_post "/feedback"
          (VObj [("session_id", sid); ("rating", VNum (inject_Z (rating d)));
                 ("comments", VObj (comments d))]))].
Proof.
  intros w d. split; [reflexivity|].
  assert (R : reachable w) by (apply reachable_run; constructor).
  exact (submit_twice_sends_twice w 0 d R eq_refl eq_refl).
Defined.

Lemma dashboard_run_action (a : action) (x : World) :
  systemStatus (app (run_action a x)) =
    match a with
    | SetSystemStatus v => if mounted x then v else systemStatus (app x)
    | _ => systemStatus (app x)
    end /\
  analytics (app (run_action a x)) =
    match a with
    | SetAnalytics v => if mounted x then v else analytics (app x)
    | _ => analytics (app x)
    end /\
  knowledgeBaseStats (app (run_action a x)) =
    match a with
    | SetKnowledgeBaseStats v =>
        if mounted x then v else knowledgeBaseStats (app x)
    | _ => knowledgeBaseStats (app x)
    end /\
  mcpTools (app (run_action a x)) =
    match a with
    | SetMcpTools v => if mounted x then v else mcpTools (app x)
    | _ => mcpTools (app x)
    end.
Proof.
  destruct a; simpl; unfold update_app, update_display;
    try (destruct (mounted x); simpl; auto 10; fail);
    try (destruct (display x) as [[j d]|]; [destruct (Nat.eqb inst j)|];
         simpl; auto 10; fail).
Qed.

Lemma systemStatus_run_action (a : action) (x : World) :
  systemStatus (app (run_action a x)) =
    match a with
    | SetSystemStatus v => if mounted x then v else systemStatus (app x)
    | _ => systemStatus (app x)
    end.
Proof. apply dashboard_run_action. Qed.

Lemma analytics_run_action (a : action) (x : World) :
  analytics (app (run_action a x)) =
    match a with
    | SetAnalytics v => if mounted x then v else analytics (app x)
    | _ => analytics (app x)
    end.
Proof. apply dashboard_run_action. Qed.

Lemma knowledgeBaseStats_run_action (a : action) (x : World) :
  knowledgeBaseStats (app (run_action a x)) =
    match a with
    | SetKnowledgeBaseStats v =>
        if mounted x then v else knowledgeBaseStats (app x)
    | _ => knowledgeBaseStats (app x)
    end.
Proof. apply dashboard_run_action. Qed.

Lemma mcpTools_run_action (a : action) (x : World) :
  mcpTools (app (run_action a x)) =
    match a with
    | SetMcpTools v => if mounted x then v else mcpTools (app x)
    | _ => mcpTools (app x)
    end.
Proof. apply dashboard_run_action. Qed.

Ltac dashboard_cells :=
  unfold run_actions, log, perform; cbn [fold_left prefix awaits];
  rewrite ?systemStatus_run_action, ?analytics_run_action,
    ?knowledgeBaseStats_run_action, ?mcpTools_run_action;
  cbn [set_jobs app].

(** X23. The data of the dashboard (system status, feedback analytics,
    knowledge-base statistics, tool list) is replaced only when a
    request succeeds: user input, a failed reply, a clock tick and
    unmounting leave the four as they were. *)
Theorem dashboard_changes_only_on_success (w : World) (e : event) :
  reachable w -> (forall id r, e <> Settle id (Ok r)) ->
  systemStatus (app (step w e)) = systemStatus (app w) /\
  analytics (app (step w e)) = analytics (app w) /\
  knowledgeBaseStats (app (step w e)) = knowledgeBaseStats (app w) /\
  mcpTools (app (step w e)) = mcpTools (app w).
Proof.
  intros R NS.
  destruct (event_eq_Tick e) as [->|NT];
    [|destruct (event_eq_Unmount e) as [->|NU]].
  - simpl. now destruct (tick_cells w R) as (-> & _).
  - simpl. now destruct (unmount_cells w) as (-> & _).
  - destruct (step_effect w e R NT NU)
      as (js & acts & rs & k & Re & _ & _ & -> & _).
    destruct Re as [e| | | | | | | | | | |id o pre t post left p E P St];
      try (dashboard_cells; auto; fail).
    destruct o as [r|x]; [now elim (NS id r)|].
    inversion St; subst; dashboard_cells; auto.
Qed.

Lemma dashboard_changes_only_on_success_witness :
  let w := run mount sample_session in
  analytics (app (step w (Settle 1 (Failed TypeError)))) = analytics (app w).
Proof.
  intro w.
  assert (R : reachable w) by (apply reachable_run; constructor).
  assert (NS : forall id r, Settle 1 (Failed TypeError) <> Settle id (Ok r))
    by discriminate.
  exact (proj1 (proj2 (dashboard_changes_only_on_success w
                         (Settle 1 (Failed TypeError)) R NS))).
Defined.
(** *** Requests, jobs and the requests they wait for *)

(** What any event does to the requests sent and to the waiting
    functions: requests are appended under the next ids, at most one
    function starts to wait, for exactly these, and every other waiting
    function was waiting before, for the same requests. *)
Lemma step_shape (w : World) (e : event) :
  reachable w ->
  exists js rs k,
    sent (step w e) =
      sent w ++ combine (seq (next_request w) (List.length rs)) rs /\
    next_request (step w e) = (next_request w + List.length rs)%nat /\
    jobs (step w e) =
      js ++ match rs with
            | [] => []
            | _ => [mkJob (pendings (next_request w) rs) k]
            end /\
    forall t, In t js ->
      exists t0, In t0 (jobs w) /\
                 map rid (waiting t) = map rid (waiting t0) /\
                 map req (waiting t) = map req (waiting t0).
Proof.
  intro R.
  assert (Same : forall t, In t (jobs w) ->
            exists t0, In t0 (jobs w) /\
                       map rid (waiting t) = map rid (waiting t0) /\
                       map req (waiting t) = map req (waiting t0))
    by (intros t H; exists t; auto).
  destruct (event_eq_Tick e) as [->|NT];
    [|destruct (event_eq_Unmount e) as [->|NU]].
  - simpl. destruct (tick_reaction w R) as [->|(_ & _ & ->)].
    + exists (jobs w), [], (fun _ => Ret tt). simpl.
      rewrite app_nil_r, Nat.add_0_r, app_nil_r. auto.
    + destruct (dispatch_effect loadSystemData (advance w))
        as (S & N & _ & _ & _ & J).
      exists (jobs w), polled, (kont loadSystemData).
      rewrite S, N, J. simpl. auto.
  - exists (jobs w), [], (fun _ => Ret tt). simpl.
    rewrite !app_nil_r, Nat.add_0_r.
    destruct (unmount_cells w) as (_ & _ & -> & _ & ->).
    repeat split; auto.
    unfold unmount. destruct (mounted w); [|reflexivity].
    now destruct (poll_interval w).
  - destruct (step_effect w e R NT NU)
      as (js & acts & rs & k & Re & S & N & _ & _ & _ & J).
    exists js, rs, k. repeat split; auto.
    destruct Re as [e| | | | | | | | | | |id o pre t post left p E P St];
      auto.
    intros t' H. rewrite E.
    apply in_app_or in H. destruct H as [H|H];
      [exists t'; split; [apply in_or_app; now left|auto]|].
    apply in_app_or in H. destruct H as [H|H];
      [|exists t'; split; [apply in_or_app; right; now right|auto]].
    exists t. split; [apply in_or_app; right; now left|].
    inversion St; subst; try contradiction.
    destruct H as [<-|[]]. cbn [waiting].
    now rewrite map_rid_fill, map_req_fill.
Qed.

Lemma find_app {A} (f : A -> bool) (l l' : list A) :
  find f (l ++ l') = match find f l with
                     | Some x => Some x
                     | None => find f l'
                     end.
Proof.
  induction l as [|a l IH]; simpl; [reflexivity|].
  now destruct (f a).
Qed.

Lemma request_of_app (id : nat) (l l' : list (nat * request)) :
  request_of id (l ++ l') =
    match request_of id l with
    | Some r => Some r
    | None => request_of id l'
    end.
Proof.
  unfold request_of. rewrite find_app.
  now destruct (find (fun x => Nat.eqb id (fst x)) l).
Qed.

Lemma answer_of_app (id : nat) (l l' : list (nat * outcome)) :
  answer_of id (l ++ l') =
    match answer_of id l with
    | Some r => Some r
    | None => answer_of id l'
    end.
Proof.
  unfold answer_of. rewrite find_app.
  now destruct (find (fun x => Nat.eqb id (fst x)) l).
Qed.

Lemma request_of_In (id : nat) (l : list (nat * request)) (r : request) :
  request_of id l = Some r -> In (id, r) l.
Proof.
  unfold request_of.
  destruct (find (fun x => Nat.eqb id (fst x)) l) as [[i r']|] eqn:F;
    [|discriminate].
  intro H. inversion H; subst. apply find_some in F. destruct F as [I E].
  simpl in E. apply Nat.eqb_eq in E. now subst.
Qed.

Lemma request_of_absent (id : nat) (l : list (nat * request)) :
  (forall i r, In (i, r) l -> i <> id) -> request_of id l = None.
Proof.
  intro H. unfold request_of.
  destruct (find (fun x => Nat.eqb id (fst x)) l) as [[i r']|] eqn:F;
    [|reflexivity].
  apply find_some in F. destruct F as [I E]. simpl in E.
  apply Nat.eqb_eq in E. subst. now elim (H _ _ I).
Qed.

Lemma in_combine_seq {A} (n : nat) (rs : list A) (i : nat) (r : A) :
  In (i, r) (combine (seq n (List.length rs)) rs) ->
  (n <= i < n + List.length rs)%nat.
Proof.
  intro H. apply in_combine_l in H. apply in_seq in H. lia.
Qed.

Lemma request_of_combine (n : nat) (rs : list request) (i : nat) (r : request) :
  In (i, r) (combine (seq n (List.length rs)) rs) ->
  request_of i (combine (seq n (List.length rs)) rs) = Some r.
Proof.
  revert n. induction rs as [|r0 rs IH]; intros n H; simpl in *;
    [contradiction|].
  unfold request_of. simpl.
  destruct H as [H|H].
  - inversion H; subst. now rewrite Nat.eqb_refl.
  - pose proof (in_combine_seq _ _ _ _ H) as B.
    destruct (Nat.eqb_spec i n) as [->|_]; [lia|].
    apply (IH _ H).
Qed.

(** Request ids are handed out in order. *)
Lemma sent_below (w : World) :
  reachable w -> forall i r, In (i, r) (sent w) -> (i < next_request w)%nat.
Proof.
  induction 1 as [|w e R IH].
  - intros i r H. apply (in_combine_seq 0 polled) in H. simpl in *. lia.
  - destruct (step_shape w e R) as (js & rs & k & -> & -> & _).
    intros i r H. apply in_app_or in H. destruct H as [H|H].
    + specialize (IH _ _ H). lia.
    + apply in_combine_seq in H. lia.
Qed.

Lemma request_of_stable (w : World) (e : event) (id : nat) :
  reachable w -> (id < next_request w)%nat ->
  request_of id (sent (step w e)) = request_of id (sent w).
Proof.
  intros R B. destruct (step_shape w e R) as (js & rs & k & -> & _).
  rewrite request_of_app.
  destruct (request_of id (sent w)); [reflexivity|].
  apply request_of_absent. intros i r H. apply in_combine_seq in H. lia.
Qed.

Lemma next_request_mono (w : World) (e : event) :
  reachable w -> (next_request w <= next_request (step w e))%nat.
Proof.
  intro R. destruct (step_shape w e R) as (js & rs & k & _ & -> & _). lia.
Qed.

(** A waiting function waits for requests that were sent under the ids
    it holds. *)
Lemma pending_sent (w : World) :
  reachable w ->
  forall t, In t (jobs w) ->
  forall i r, In (i, r) (combine (map rid (waiting t)) (map req (waiting t))) ->
  request_of i (sent w) = Some r.
Proof.
  induction 1 as [|w e R IH].
  - intros t [<-|[]] i r H. simpl in H.
    destruct H as [H|[H|[H|[H|[]]]]]; inversion H; reflexivity.
  - destruct (step_shape w e R) as (js & rs & k & S & _ & J & K).
    intros t H i r C. rewrite J in H. rewrite S, request_of_app.
    apply in_app_or in H. destruct H as [H|H].
    + destruct (K t H) as (t0 & H0 & E1 & E2). rewrite E1, E2 in C.
      now rewrite (IH t0 H0 i r C).
    + destruct rs as [|r0 rs]; [contradiction|].
      destruct H as [<-|[]]. cbn [waiting] in C.
      rewrite pendings_rid, pendings_req in C.
      rewrite request_of_absent.
      * now apply request_of_combine.
      * intros i' r' H'. apply (sent_below w R) in H'.
        apply in_combine_seq in C. lia.
Qed.

Lemma awaiting_single (w : World) (id : nat) (ps : list Pending) (r : request) :
  reachable w -> awaiting w id = Some ps -> map req ps = [r] ->
  ps = [mkPending id r None] /\ request_of id (sent w) = Some r /\
  (id < next_request w)%nat.
Proof.
  intros R A Q. destruct (awaiting_job _ _ _ A) as (t & Ht & W & U).
  destruct (single_unsettled _ _ _ Q U) as (p & -> & I & N & E).
  destruct p as [i q o]. simpl in *. subst.
  assert (P : request_of id (sent w) = Some r).
  { apply (pending_sent w R t Ht). rewrite W. simpl. auto. }
  split; [reflexivity|]. split; [exact P|].
  apply (sent_below w R id r). now apply request_of_In.
Qed.
(** *** The backend and the page together *)

Section BackendFacts.

Variable snapshot : list FeedbackRecord -> value.

Lemma record_appends (rec : FeedbackRecord) (a a' : Aggregator) :
  record rec a = Some a' -> records a' = records a ++ [rec].
Proof.
  unfold record.
  destruct (existsb (value_eqb (fb_session_id rec)) (issued a)
            && (1 <=? fb_rating rec)%Z && (fb_rating rec <=? 5)%Z);
    [|discriminate].
  intro H. now inversion H.
Qed.

(** The records only grow. *)
Lemma answer_grows (a a' : Aggregator) (r : request) (o o' : outcome) :
  answer snapshot a r o = (a', o') -> incl (records a) (records a').
Proof.
  unfold answer. destruct o as [resp|e]; [|intro H; inversion H; apply incl_refl].
  destruct (method r).
  - destruct (String.eqb (url r) "/feedback/analytics");
      intro H; inversion H; apply incl_refl.
  - destruct (String.eqb (url r) "/feedback").
    + destruct (body r) as [b|]; [|intro H; inversion H; apply incl_refl].
      destruct (record_of b) as [rec|];
        [|intro H; inversion H; apply incl_refl].
      destruct (record rec a) as [a0|] eqn:E;
        [|intro H; inversion H; apply incl_refl].
      intro H. inversion H; subst. rewrite (record_appends _ _ _ E).
      apply incl_appl, incl_refl.
    + destruct (String.eqb (url r) "/solve");
        [destruct (get_member (data resp) "session_id")|];
        intro H; inversion H; apply incl_refl.
Qed.

(** A feedback answered with success has been recorded. *)
Lemma answer_feedback (a a' : Aggregator) (b : value) (o : outcome)
    (resp : response) :
  answer snapshot a (api_post "/feedback" b) o = (a', Ok resp) ->
  exists rec, record_of b = Some rec /\ In rec (records a').
Proof.
  unfold answer. destruct o as [r|e]; [|discriminate]. simpl.
  destruct (record_of b) as [rec|]; [|discriminate].
  destruct (record rec a) as [a0|] eqn:E; [|discriminate].
  intro H. inversion H; subst. exists rec. split; [reflexivity|].
  rewrite (record_appends _ _ _ E). apply in_or_app. right. now left.
Qed.

(** The analytics read is answered with the snapshot of the records. *)
Lemma answer_analytics (a a' : Aggregator) (o : outcome) (resp : response) :
  answer snapshot a (api_get "/feedback/analytics") o = (a', Ok resp) ->
  data resp = snapshot (records a).
Proof.
  unfold answer. destruct o as [r|e]; [|discriminate]. simpl.
  intro H. now inversion H.
Qed.

Lemma SInv_page_step (s : System) (e : event) :
  SInv s -> SInv (mkSystem (step (page s) e) (backend s) (answered s)).
Proof.
  intros [P S R]. split; simpl.
  - now constructor.
  - intros id o H. specialize (S id o H).
    pose proof (next_request_mono (page s) e P). lia.
  - intros id resp b H Q.
    rewrite (request_of_stable _ _ _ P (S _ _ H)) in Q. eauto.
Qed.

Lemma SInv_step (s s' : System) (h : happening) :
  sys_step snapshot s h = Some s' -> SInv s -> SInv s'.
Proof.
  intros H I. destruct h as [e|id o|id|id e]; cbn [sys_step] in H.
  - destruct (is_reply e); [discriminate|]. injection H as <-.
    exact (SInv_page_step s e I).
  - destruct (request_of id (sent (page s))) as [r|] eqn:Q; [|discriminate].
    destruct (answer_of id (answered s)) eqn:A; [discriminate|].
    destruct (answer snapshot (backend s) r o) as [a o'] eqn:E.
    inversion H; subst. clear H. destruct I as [P S R].
    split; simpl; [exact P| |].
    + intros i x H. rewrite answer_of_app in H.
      destruct (answer_of i (answered s)) eqn:Ai; [now apply (S i o0)|].
      unfold answer_of in H. simpl in H.
      destruct (Nat.eqb_spec i id) as [->|_]; [|discriminate].
      apply (sent_below _ P id r). now apply request_of_In.
    + intros i resp b H Qi. rewrite answer_of_app in H.
      destruct (answer_of i (answered s)) eqn:Ai.
      * inversion H; subst. destruct (R i resp b Ai Qi) as (rec & Hr & Hi).
        exists rec. split; [exact Hr|]. now apply (answer_grows _ _ _ _ _ E).
      * unfold answer_of in H. simpl in H.
        destruct (Nat.eqb_spec i id) as [->|_]; [|discriminate].
        inversion H; subst. rewrite Q in Qi. inversion Qi; subst.
        now apply (answer_feedback _ _ _ _ _ E).
  - destruct (answer_of id (answered s)) as [o|]; [|discriminate].
    injection H as <-. exact (SInv_page_step s (Settle id o) I).
  - injection H as <-. exact (SInv_page_step s (Settle id (Failed e)) I).
Qed.

Lemma SInv_initial : SInv (sys_initial).
Proof.
  split; simpl; [constructor|discriminate|discriminate].
Qed.

Lemma sys_reachable_SInv (s : System) : sys_reachable snapshot s -> SInv s.
Proof.
  induction 1 as [|s h s' _ IH H]; [apply SInv_initial|].
  now apply (SInv_step s s' h).
Qed.

Lemma Followed_page_step (rec : FeedbackRecord) (g : nat) (s : System)
    (e : event) :
  Followed snapshot rec g s ->
  Followed snapshot rec g
    (mkSystem (step (page s) e) (backend s) (answered s)).
Proof.
  intros [I Q R A J]. pose proof (si_page s I) as P.
  assert (B : (g < next_request (page s))%nat).
  { apply (sent_below _ P g (api_get "/feedback/analytics")).
    now apply request_of_In. }
  split; simpl; auto.
  - now apply SInv_page_step.
  - now rewrite (request_of_stable _ _ _ P B).
  - destruct (step_shape (page s) e P) as (js & rs & k & _ & _ & -> & K).
    intros t H G. apply in_app_or in H. destruct H as [H|H].
    + destruct (K t H) as (t0 & H0 & E1 & E2). rewrite E1 in G.
      rewrite E2. now apply J.
    + destruct rs as [|r0 rs]; [contradiction|].
      destruct H as [<-|[]]. cbn [waiting] in G.
      rewrite pendings_rid in G. apply in_seq in G. lia.
Qed.

Lemma Followed_step (rec : FeedbackRecord) (g : nat) (s s' : System)
    (h : happening) :
  sys_step snapshot s h = Some s' ->
  Followed snapshot rec g s -> Followed snapshot rec g s'.
Proof.
  intros H F. destruct h as [e|id o|id|id e]; cbn [sys_step] in H.
  - destruct (is_reply e); [discriminate|]. injection H as <-.
    exact (Followed_page_step rec g s e F).
  - pose proof (SInv_step s s' (Handle id o) H (fo_sys _ _ _ _ F)) as I'.
    destruct (request_of id (sent (page s))) as [r|] eqn:Q; [|discriminate].
    destruct (answer_of id (answered s)) eqn:A; [discriminate|].
    destruct (answer snapshot (backend s) r o) as [a o'] eqn:E.
    inversion H; subst. clear H. destruct F as [I Qg R Ag J].
    split; simpl; auto.
    + now apply (answer_grows _ _ _ _ _ E).
    + intros resp H. rewrite answer_of_app in H.
      destruct (answer_of g (answered s)) eqn:G.
      * inversion H; subst. now apply Ag.
      * unfold answer_of in H. simpl in H.
        destruct (Nat.eqb_spec g id) as [->|_]; [|discriminate].
        inversion H; subst. rewrite Q in Qg. inversion Qg; subst.
        exists (records (backend s)).
        split; [now apply (answer_analytics _ _ _ _ E)|exact R].
  - destruct (answer_of id (answered s)) as [o|]; [|discriminate].
    injection H as <-. exact (Followed_page_step rec g s (Settle id o) F).
  - injection H as <-.
    exact (Followed_page_step rec g s (Settle id (Failed e)) F).
Qed.

Lemma Followed_run (rec : FeedbackRecord) (g : nat) (hs : list happening)
    (s s' : System) :
  sys_run snapshot s hs = Some s' ->
  Followed snapshot rec g s -> Followed snapshot rec g s'.
Proof.
  revert s. induction hs as [|h hs IH]; intros s H F; cbn [sys_run] in H.
  - injection H as <-. exact F.
  - destruct (sys_step snapshot s h) as [s1|] eqn:E; [|discriminate].
    apply (IH s1 H). now apply (Followed_step rec g s s1 h).
Qed.

Lemma sys_reachable_run (s s' : System) (hs : list happening) :
  sys_reachable snapshot s -> sys_run snapshot s hs = Some s' ->
  sys_reachable snapshot s'.
Proof.
  revert s. induction hs as [|h hs IH]; intros s R H; cbn [sys_run] in H.
  - injection H as <-. exact R.
  - destruct (sys_step snapshot s h) as [s1|] eqn:E; [|discriminate].
    apply (IH s1); [|exact H]. now apply (sys_reach_step snapshot s h s1).
Qed.

End BackendFacts.

(** *** The periodic refresh *)

Lemma reachable_elapse (ms : N) (w : World) :
  reachable w -> reachable (elapse ms w).
Proof.
  intro R. unfold elapse.
  induction ms as [|ms IH] using N.peano_ind; [exact R|].
  rewrite N.iter_succ. now constructor.
Qed.

Lemma dashboard_after (p : proc unit) (x : World) :
  app (dispatch p x) = app (run_actions (prefix p) x).
Proof. apply dispatch_effect. Qed.

(** C8. A refresh is all or nothing for what the page shows.  Starting
    one ([loadSystemData] called at mounting or by the timer) sends the
    four reads and changes no state cell.  Whatever happens, system
    status, analytics, knowledge-base statistics and tool list stay as
    they are unless a successful reply completes the four reads of a
    refresh (or, for the analytics alone, answers the read that follows
    a feedback).  And while a refresh waits for its four reads: a failed
    read changes no state cell of [App] and ends the refresh, so that no
    later reply to its other reads is waited for; a successful read that
    is not the last one changes no state cell either and leaves the
    refresh waiting; and the successful read that completes the four
    sets the four slices to the data of the four responses, in the order
    health, analytics, knowledge-base stats, MCP tools, leaving the
    other state cells alone. *)
Theorem refresh_is_all_or_nothing (w : World) :
  reachable w ->
  (forall x : World,
     app (dispatch loadSystemData x) = app x /\
     sent (dispatch loadSystemData x) =
       sent x ++ combine (seq (next_request x) 4) polled) /\
  app (step w Tick) = app w /\
  (forall e,
     (systemStatus (app (step w e)) = systemStatus (app w) /\
      analytics (app (step w e)) = analytics (app w) /\
      knowledgeBaseStats (app (step w e)) = knowledgeBaseStats (app w) /\
      mcpTools (app (step w e)) = mcpTools (app w)) \/
     exists id r ps,
       e = Settle id (Ok r) /\ awaiting w id = Some ps /\
       ((map req ps = polled /\ collect (map (fill id r) ps) <> None) \/
        (map req ps = [api_get "/feedback/analytics"] /\
         systemStatus (app (step w e)) = systemStatus (app w) /\
         knowledgeBaseStats (app (step w e)) = knowledgeBaseStats (app w) /\
         mcpTools (app (step w e)) = mcpTools (app w)))) /\
  (forall id ps,
     mounted w = true -> awaiting w id = Some ps -> map req ps = polled ->
     (forall e,
        let w' := step w (Settle id (Failed e)) in
        app w' = app w /\
        forall p, In p ps -> awaiting w' (rid p) = None) /\
     (forall r,
        let w' := step w (Settle id (Ok r)) in
        match collect (map (fill id r) ps) with
        | Some rs =>
            exists a b c d,
              rs = [a; b; c; d] /\
              app w' =
                mkApp (question (app w)) (solution (app w)) (isLoading (app w))
                  (data a) (data b) (data c) (data d) (activeTab (app w))
        | None =>
            app w' = app w /\
            forall p, In p ps -> unsettled id p = false -> reply p = None ->
                      awaiting w' (rid p) = Some (map (fill id r) ps)
        end)).
Proof.
  intro R. pose proof (reachable_Inv w R) as I.
  split; [|split; [|split]].
  - intro x. split; [now rewrite dashboard_after|apply sent_poll].
  - simpl. apply (tick_cells w R).
  - intro e.
    destruct (event_eq_Tick e) as [->|NT];
      [|destruct (event_eq_Unmount e) as [->|NU]].
    + left. simpl. now destruct (tick_cells w R) as (-> & _).
    + left. simpl. now destruct (unmount_cells w) as (-> & _).
    + destruct e as [| | | | | | | | | |id o| |];
        try (left;
             match goal with
             | |- context [step w ?e] =>
                 destruct (step_effect w e R NT NU)
                   as (js & acts & rs & k & Re & _ & _ & -> & _)
             end;
             inversion Re; subst; dashboard_cells; auto; fail).
      destruct (awaiting w id) as [ps|] eqn:A.
      * destruct (reachable_settle w id o ps R A)
          as (pre & t & post & l & p & E & P & W & St & _ & Eq).
        simpl step in Eq. simpl step. rewrite Eq. clear Eq.
        inversion St; subst;
          try (left; rewrite ?dashboard_after; dashboard_cells; auto; fail).
        -- right. exists id, r, ps0. split; [reflexivity|].
           split; [exact A|]. left. split; [assumption|].
           cbn [waiting].
           match goal with C : collect _ = Some _ |- _ => rewrite C end.
           discriminate.
        -- right. eexists id, resp', _. split; [reflexivity|].
           split; [exact A|]. right. split; [reflexivity|].
           rewrite dashboard_after. dashboard_cells. auto.
      * left. simpl.
        pose proof (settle_cases w id o (inv_jobs w I)) as C.
        rewrite A in C. now rewrite C.
  - intros id ps M A Q. split.
    + intros e w'. subst w'.
      destruct (reachable_settle w id (Failed e) ps R A)
        as (pre & t & post & l & p & E & P & W & St & I' & ->).
      subst ps. inversion St; subst; other_kind Q.
      cbn [List.app waiting]. unfold dispatch, log, awaiting. cbn [exec].
      match goal with
      | |- context [reconcile ?x] =>
          destruct (reconcile_frame x) as (_ & _ & -> & _ & _ & _ & _ & ->)
      end.
      split; [reflexivity|].
      intros p Ip. simpl. apply awaiting_absent.
      pose proof (inv_nodup w I) as N. rewrite E in N.
      change (pre ++ ?t :: post) with (pre ++ [t] ++ post) in N.
      rewrite !job_ids_app in N. rewrite job_ids_app.
      apply (NoDup_middle _ _ _ _ N). simpl. rewrite app_nil_r.
      now apply in_map.
    + intros r w'. subst w'.
      destruct (reachable_settle w id (Ok r) ps R A)
        as (pre & t & post & l & p & E & P & W & St & I' & ->).
      subst ps. inversion St; subst; other_kind Q; cbn [waiting].
      * match goal with C : collect _ = None |- _ => rewrite C end.
        split; [reflexivity|].
        intros p Ip U Rp. unfold awaiting. cbn [jobs set_jobs List.app].
        rewrite awaiting_app.
        -- simpl.
           assert (X : existsb (unsettled (rid p)) (map (fill id r) ps) = true).
           { apply existsb_exists. exists (fill id r p).
             split; [now apply in_map|].
             unfold fill. rewrite U. unfold unsettled.
             now rewrite Nat.eqb_refl, Rp. }
           now rewrite X.
        -- apply awaiting_absent.
           pose proof (inv_nodup w I) as N. rewrite E, job_ids_app in N.
           apply (NoDup_app_disjoint _ _ _ N).
           simpl. apply in_or_app. left. now apply in_map.
      * match goal with C : collect _ = Some _ |- _ => rewrite C end.
        exists a, b, c, d. split; [reflexivity|].
        cbn [List.app]. unfold dispatch. cbn [exec].
        now apply app_actions_poll.
Qed.
Lemma refresh_is_all_or_nothing_witness :
  let reply s := Ok (mkResponse (VStr (str s))) in
  let shown :=
    run mount [Settle 0 (reply "H"); Settle 1 (reply "A");
               Settle 2 (reply "K"); Settle 3 (reply "M")] in
  let w := elapse 30000 shown in
  let w3 := run w [Settle 4 (reply "H2"); Settle 6 (reply "K2");
                   Settle 7 (reply "M2")] in
  (systemStatus (app w) = VStr (str "H") /\
   analytics (app w) = VStr (str "A") /\
   awaiting w 5 = Some (pendings 4 polled)) /\
  (forall e, app (step w (Settle 5 (Failed e))) = app w) /\
  (forall r,
     app (step w3 (Settle 5 (Ok r))) =
       mkApp (question (app w)) (solution (app w)) (isLoading (app w))
         (VStr (str "H2")) (data r) (VStr (str "K2")) (VStr (str "M2"))
         (activeTab (app w))).
Proof.
  intros reply shown w w3.
  assert (Rs : reachable shown) by (apply reachable_run; constructor).
  assert (R : reachable w) by now apply reachable_elapse.
  assert (R3 : reachable w3) by now apply reachable_run.
  assert (A : awaiting w 5 = Some (pendings 4 polled))
    by (vm_compute; reflexivity).
  assert (M : mounted w = true) by (vm_compute; reflexivity).
  split; [split; [vm_compute; reflexivity|split; [vm_compute; reflexivity|exact A]]|].
  split.
  - intro e.
    destruct (refresh_is_all_or_nothing w R) as (_ & _ & _ & P).
    destruct (P 5%nat (pendings 4 polled) M A eq_refl) as [F _].
    destruct (F e) as [H _]. exact H.
  - intro r.
    destruct (refresh_is_all_or_nothing w3 R3) as (_ & _ & _ & P).
    assert (A3 : awaiting w3 5 =
                 Some [mkPending 4 (api_get "/health")
                         (Some (mkResponse (VStr (str "H2"))));
                       mkPending 5 (api_get "/feedback/analytics") None;
                       mkPending 6 (api_get "/knowledge-base/stats")
                         (Some (mkResponse (VStr (str "K2"))));
                       mkPending 7 (api_get "/mcp/tools")
                         (Some (mkResponse (VStr (str "M2"))))])
      by (vm_compute; reflexivity).
    assert (M3 : mounted w3 = true) by (vm_compute; reflexivity).
    destruct (P 5%nat _ M3 A3 eq_refl) as [_ S].
    specialize (S r). cbv beta zeta in S. simpl collect in S.
    destruct S as (a & b & c & d & E & ->). inversion E; subst.
    vm_compute. reflexivity.
Defined.
(** *** The analytics after a feedback *)

(** The reply to the POST of a feedback: the read of the analytics is
    sent next, and it alone waits under the new id. *)
Lemma post_reply (w : World) (p : nat) (ps : list Pending) (b : value)
    (r : response) :
  reachable w -> awaiting w p = Some ps ->
  map req ps = [api_post "/feedback" b] ->
  let w' := step w (Settle p (Ok r)) in
  let g := next_request w in
  sent w' = sent w ++ [(g, api_get "/feedback/analytics")] /\
  awaiting w' g = Some [mkPending g (api_get "/feedback/analytics") None] /\
  app w' = app w /\
  (forall t, In t (jobs w') -> In g (map rid (waiting t)) ->
             map req (waiting t) = [api_get "/feedback/analytics"]).
Proof.
  intros R A Q w' g.
  assert (First :
    sent w' = sent w ++ [(g, api_get "/feedback/analytics")] /\
    awaiting w' g = Some [mkPending g (api_get "/feedback/analytics") None] /\
    app w' = app w).
  { subst w' g.
    destruct (reachable_settle w p (Ok r) ps R A)
      as (pre & t & post & l & k & E & P & W & St & I & ->).
    subst ps. inversion St; subst; other_kind Q.
    cbn [List.app]. unfold dispatch, awaiting. cbn [exec].
    match goal with
    | |- context [reconcile ?x] =>
        destruct (reconcile_frame x) as (-> & _ & -> & _ & _ & _ & _ & ->)
    end.
    cbn [sent app jobs suspend set_jobs next_request].
    repeat split.
    pose proof (awaiting_fresh _
      [mkJob (pendings (next_request w) [api_get "/feedback/analytics"])
         (kont (kont (handleFeedbackSubmit inst sol r0 c) (Fulfilled [r])))] I)
      as F.
    cbn [jobs set_jobs next_request] in F. unfold pendings in F.
    rewrite F.
    simpl. unfold unsettled. simpl. now rewrite Nat.eqb_refl. }
  destruct First as (S & Aw & Ap). repeat split; auto.
  pose proof (inv_fresh w (reachable_Inv w R)) as Fr.
  rewrite Forall_forall in Fr.
  destruct (step_shape w (Settle p (Ok r)) R) as (js & rs & k & S' & _ & J & K).
  fold w' in S', J. rewrite S in S'. apply app_inv_head in S'.
  intros t H G. rewrite J in H. apply in_app_or in H. destruct H as [H|H].
  - destruct (K t H) as (t0 & H0 & E1 & _). rewrite E1 in G.
    assert (B : (g < next_request w)%nat).
    { apply Fr. unfold job_ids. apply in_flat_map. now exists t0. }
    subst g. lia.
  - destruct rs as [|r0 [|r1 rs]]; simpl in S'; try discriminate.
    inversion S'; subst r0. destruct H as [<-|[]]. reflexivity.
Qed.

(** The reply to the read of the analytics that follows a feedback. *)
Lemma get_reply (w : World) (id : nat) (ps : list Pending) (r : response) :
  reachable w -> mounted w = true -> awaiting w id = Some ps ->
  map req ps = [api_get "/feedback/analytics"] ->
  app (step w (Settle id (Ok r))) =
    mkApp (question (app w)) (solution (app w)) (isLoading (app w))
      (systemStatus (app w)) (data r) (knowledgeBaseStats (app w))
      (mcpTools (app w)) (activeTab (app w)).
Proof.
  intros R M A Q.
  destruct (reachable_settle w id (Ok r) ps R A)
    as (pre & t & post & l & p & E & P & W & St & I & ->).
  subst ps. inversion St; subst; other_kind Q.
  cbn [List.app]. unfold dispatch. cbn [exec].
  match goal with
  | |- context [reconcile ?x] =>
      destruct (reconcile_frame x) as (_ & _ & _ & _ & _ & _ & _ & ->)
  end.
  clear - M. destruct w as [m ap dp ni ts nr sn iv nt pl nw cs].
  simpl in M. subst m. simpl. unfold update_display. simpl.
  destruct dp as [[j d]|]; [destruct (Nat.eqb inst j)|]; reflexivity.
Qed.

Lemma collect_analytics (ps : list Pending) (a b c d : response) :
  map req ps = polled -> collect ps = Some [a; b; c; d] ->
  exists q, In q ps /\ req q = api_get "/feedback/analytics" /\
            reply q = Some b.
Proof.
  destruct ps as [|p1 [|p2 [|p3 [|p4 [|p5 ps]]]]]; try discriminate.
  intros Q C. simpl in C.
  destruct (reply p1); [|discriminate].
  destruct (reply p2) as [x|] eqn:R2; [|discriminate].
  destruct (reply p3); [|discriminate].
  destruct (reply p4); [|discriminate].
  inversion C; subst. inversion Q.
  exists p2. simpl. auto.
Qed.

(** The analytics on the page are never computed by the page: an event
    leaves them alone or puts the data of a successful reply to a read
    of [/feedback/analytics] in their place. *)
Lemma analytics_from_replies (w : World) (e : event) :
  reachable w ->
  analytics (app (step w e)) = analytics (app w) \/
  exists id r ps q r',
    e = Settle id (Ok r) /\ awaiting w id = Some ps /\
    In q (map (fill id r) ps) /\
    req q = api_get "/feedback/analytics" /\ reply q = Some r' /\
    analytics (app (step w e)) = data r'.
Proof.
  intro R. pose proof (reachable_Inv w R) as I.
  destruct (event_eq_Tick e) as [->|NT];
    [|destruct (event_eq_Unmount e) as [->|NU]].
  - left. simpl. now destruct (tick_cells w R) as (-> & _).
  - left. simpl. now destruct (unmount_cells w) as (-> & _).
  - destruct e as [| | | | | | | | | |id o| |];
      try (left;
           match goal with
           | |- context [step w ?e] =>
               destruct (step_effect w e R NT NU)
                 as (js & acts & rs & k & Re & _ & _ & -> & _)
           end;
           inversion Re; subst; dashboard_cells; auto; fail).
    destruct (awaiting w id) as [ps|] eqn:A.
    + destruct (reachable_settle w id o ps R A)
        as (pre & t & post & l & p & E & P & W & St & _ & Eq).
      simpl step in Eq. simpl step. rewrite Eq. clear Eq.
      destruct (mounted w) eqn:M.
      * inversion St; subst;
          try (left; rewrite ?dashboard_after; dashboard_cells; auto; fail).
        -- right.
           match goal with
           | Q : map req ?l = polled, C : collect _ = Some _ |- _ =>
               rewrite <- (map_req_fill id r) in Q;
               destruct (collect_analytics _ _ _ _ _ Q C) as (q & Hq & Rq & Pq);
               exists id, r, l, q, b
           end.
           repeat split; auto.
           rewrite dashboard_after. dashboard_cells.
           rewrite ?mounted_run_action. cbn [set_jobs mounted]. now rewrite M.
        -- right.
           eexists id, resp', _,
             (mkPending id (api_get "/feedback/analytics") (Some resp')), resp'.
           split; [reflexivity|]. split; [exact A|].
           split; [simpl; unfold fill, unsettled; simpl;
                   rewrite Nat.eqb_refl; now left|].
           repeat split.
           rewrite dashboard_after. dashboard_cells.
           rewrite ?mounted_run_action. cbn [set_jobs mounted]. now rewrite M.
      * left. destruct p as [k|]; [|reflexivity].
        rewrite dashboard_after. cbn [set_jobs app].
        clear - M. generalize (prefix k). intro acts.
        assert (G : forall x, mounted x = false ->
                    app (run_actions acts x) = app x).
        { induction acts as [|a acts IH]; intros x Mx; [reflexivity|].
          unfold run_actions in *. simpl.
          rewrite IH by now rewrite mounted_run_action.
          destruct a; simpl; unfold update_app, update_display;
            rewrite ?Mx; try reflexivity;
            (destruct (display x) as [[j d]|];
             [destruct (Nat.eqb inst j)|]; reflexivity). }
        now rewrite G.
    + left. simpl.
      pose proof (settle_cases w id o (inv_jobs w I)) as C.
      rewrite A in C. now rewrite C.
Qed.

Section FeedbackAnalytics.

Variable snapshot : list FeedbackRecord -> value.


End FeedbackAnalytics.

Lemma sample_snapshot_count (recs recs' : list FeedbackRecord) :
  sample_snapshot recs = sample_snapshot recs' ->
  List.length recs = List.length recs'.
Proof.
  unfold sample_snapshot, inject_Z. cbv zeta. intro H.
  injection H as H _ _. now apply Nat2Z.inj.
Qed.


